(** * youtube-digest: the digest aggregation pipeline

    A shallow embedding of the transcript fetcher ([scrapingdog.mjs]), the
    summary normalizer ([openai_summarize.mjs]) and the per-group digest
    assembler ([index.mjs]), with the properties stated about them.

    Conventions.
    - A JavaScript string is its sequence of UTF-16 code units ([jstr]), so
      [length] is the JavaScript [.length].
    - Integer-valued JavaScript numbers (counts, HTTP statuses, delays in
      milliseconds) are [Z].  The attempt budget and the display caps, read
      with [Number(...)] and compared or truncated as they are, are rationals
      ([Q]): every finite number is one, and [NaN] acts in these places as
      [0] does; an infinite attempt budget, with which the loop need not
      end, is outside the model.  Numbers met inside parsed JSON are kept
      abstract ([JsNumber]): the code only ever tests their truthiness and
      renders them with [String(...)].
    - Effects (fetch, [Math.random], [setTimeout], exceptions) are threaded
      through a state-and-exception monad [M] over an explicit [World]. *)

From Stdlib Require Import List ZArith NArith QArith Qround Lia Lqa Bool Ascii.
From Stdlib Require String.
From Stdlib Require Import Sorting.Sorted Sorting.Permutation.
From Stdlib Require DecimalString.
Import ListNotations.
Import String.StringSyntax.
Delimit Scope string_scope with string.

Set Warnings "-register-all".

Local Open Scope Z_scope.
Local Open Scope list_scope.

(** ** JavaScript strings *)

Definition jstr := list N.

Definition lit (s : String.string) : jstr :=
  map N_of_ascii (String.list_ascii_of_string s).

Arguments lit s%_string.

(** The code units matched by [\s] and stripped by [String.prototype.trim]
    (ECMAScript WhiteSpace and LineTerminator). *)
Definition is_ws (c : N) : bool :=
  existsb (N.eqb c)
    [9; 10; 11; 12; 13; 32; 160; 5760;
     8192; 8193; 8194; 8195; 8196; 8197; 8198; 8199; 8200; 8201; 8202;
     8232; 8233; 8239; 8287; 12288; 65279]%N.

Fixpoint dropwhile {A} (p : A -> bool) (l : list A) : list A :=
  match l with
  | [] => []
  | x :: r => if p x then dropwhile p r else l
  end.

Definition trimStart (s : jstr) : jstr := dropwhile is_ws s.
Definition trimEnd (s : jstr) : jstr := rev (dropwhile is_ws (rev s)).

(** [s.trim()] *)
Definition trim (s : jstr) : jstr := trimEnd (trimStart s).

(** [s.replace(/\s+/g, " ")]: every maximal run of whitespace becomes one
    space.  [in_run] records that the previous code unit was whitespace. *)
Fixpoint collapse_from (in_run : bool) (s : jstr) : jstr :=
  match s with
  | [] => []
  | c :: r =>
      if is_ws c
      then (if in_run then collapse_from true r else 32%N :: collapse_from true r)
      else c :: collapse_from false r
  end.

Definition collapse_ws (s : jstr) : jstr := collapse_from false s.

(** [x.slice(0, n)] on a string or an array: a negative [n] counts from the
    end, and the result is clamped to the sequence. *)
Definition slice0 {A} (n : Z) (l : list A) : list A :=
  let len := Z.of_nat (length l) in
  let final := if n <? 0 then Z.max (len + n) 0 else Z.min n len in
  firstn (Z.to_nat final) l.

(** The integer [x.slice(0, n)] makes of a finite number [n]: the fraction
    is dropped, towards zero. *)
Definition js_trunc (n : Q) : Z :=
  if Qle_bool 0 n then Qfloor n else Qceiling n.

(** [a < m] for an integer [a] and a number [m]. *)
Definition below (a : Z) (m : Q) : bool := negb (Qle_bool m (inject_Z a)).

Fixpoint starts_with (pat s : jstr) : bool :=
  match pat, s with
  | [], _ => true
  | _ :: _, [] => false
  | p :: pat', c :: s' => N.eqb p c && starts_with pat' s'
  end.

(** [s.replaceAll(pat, rep)] for a non-empty [pat]: matches are taken left to
    right and do not overlap.  [skip] counts the code units of the current
    match that are still to be dropped. *)
Fixpoint replaceAll_from (skip : nat) (pat rep s : jstr) : jstr :=
  match s with
  | [] => []
  | c :: r =>
      match skip with
      | S k => replaceAll_from k pat rep r
      | O =>
          if starts_with pat s
          then rep ++ replaceAll_from (pred (length pat)) pat rep r
          else c :: replaceAll_from O pat rep r
      end
  end.

Definition replaceAll (pat rep s : jstr) : jstr := replaceAll_from O pat rep s.

(** [pieces.join(sep)] on strings *)
Fixpoint join_with (sep : jstr) (pieces : list jstr) : jstr :=
  match pieces with
  | [] => []
  | p :: rest =>
      match rest with
      | [] => p
      | _ :: _ => p ++ sep ++ join_with sep rest
      end
  end.

(** ASCII lower-casing, as the [/i] flag canonicalizes an ASCII pattern. *)
Definition ascii_lower (c : N) : N :=
  if ((65 <=? c) && (c <=? 90))%N then (c + 32)%N else c.

(** [s.includes(pat)] *)
Fixpoint includes (pat s : jstr) : bool :=
  starts_with pat s ||
  match s with
  | [] => false
  | _ :: r => includes pat r
  end.

(** [a < b] on strings: lexicographic on code units. *)
Fixpoint str_lt (a b : jstr) : bool :=
  match a, b with
  | _, [] => false
  | [], _ :: _ => true
  | x :: a', y :: b' => (x <? y)%N || (N.eqb x y && str_lt a' b')
  end.

(** String equality, [a === b]. *)
Fixpoint str_eqb (a b : jstr) : bool :=
  match a, b with
  | [], [] => true
  | x :: a', y :: b' => N.eqb x y && str_eqb a' b'
  | _, _ => false
  end.

(** [`${n}`] for an integer [n]. *)
Definition int_to_string (n : Z) : jstr :=
  lit (DecimalString.NilZero.string_of_int (Z.to_int n)).

(** ** Completions: a value or a thrown error *)

(** A thrown [Error] object. *)
Record JsError := mkError { err_name : jstr; err_message : jstr }.

Inductive Exec (A : Type) : Type :=
| Ret (a : A)
| Throw (e : JsError).

Arguments Ret {A} a.
Arguments Throw {A} e.

Definition exec_bind {A B} (x : Exec A) (k : A -> Exec B) : Exec B :=
  match x with
  | Ret a => k a
  | Throw e => Throw e
  end.

Notation "'let!' x ':=' e 'in' k" := (exec_bind e (fun x => k))
  (at level 10, x name, e at level 100, k at level 200).

(** [l.map(f)] for an [f] that may throw: left to right, up to the first
    throw. *)
Fixpoint exec_map {A B} (f : A -> Exec B) (l : list A) : Exec (list B) :=
  match l with
  | [] => Ret []
  | x :: r =>
      let! y := f x in
      let! ys := exec_map f r in
      Ret (y :: ys)
  end.

(** The [TypeError] of a conversion to a primitive that finds no usable
    [toString] or [valueOf] (the message is V8's). *)
Definition typeError : JsError :=
  mkError (lit "TypeError") (lit "Cannot convert object to primitive value").

(** ** JavaScript values as produced by [JSON.parse] *)

Class JsNumber (Num : Type) := {
  num_truthy : Num -> bool;      (* false for 0 and NaN *)
  num_to_string : Num -> jstr    (* String(n) *)
}.

(** Integers are one model of the numbers, used for the concrete runs. *)
#[global] Instance Z_JsNumber : JsNumber Z :=
  {| num_truthy := fun z => negb (z =? 0); num_to_string := int_to_string |}.

Inductive JsVal (Num : Type) : Type :=
| JUndef
| JNull
| JBool (b : bool)
| JNum (n : Num)
| JStr (s : jstr)
| JArr (elems : list (JsVal Num))
| JObj (fields : list (jstr * JsVal Num)).

Arguments JUndef {Num}.
Arguments JNull {Num}.
Arguments JBool {Num} b.
Arguments JNum {Num} n.
Arguments JStr {Num} s.
Arguments JArr {Num} elems.
Arguments JObj {Num} fields.

Record Summary := mkSummary {
  one_liner : jstr;
  key_points : list jstr;
  who_should_watch : jstr
}.

Section Values.
Context {Num : Type} `{JsNumber Num}.

(** [Boolean(v)] *)
Definition truthy (v : JsVal Num) : bool :=
  match v with
  | JUndef | JNull => false
  | JBool b => b
  | JNum n => num_truthy n
  | JStr s => negb (Nat.eqb (length s) 0)
  | JArr _ | JObj _ => true
  end.

(** [a || b] *)
Definition js_or (a b : JsVal Num) : JsVal Num := if truthy a then a else b.

(** [Object.hasOwn(o, k)] on the fields of a parsed object *)
Definition has_field (k : jstr) (fields : list (jstr * JsVal Num)) : bool :=
  existsb (fun kv => str_eqb k (fst kv)) fields.

(** Whether [String(v)] returns.  A parsed object inherits a callable
    [toString] from [Object.prototype] unless it has an own property of that
    name; the value of such a property is no function (parsed JSON holds
    none), [valueOf] then yields the object itself, and the conversion
    throws.  An array converts its elements one by one. *)
Fixpoint stringifies (v : JsVal Num) : bool :=
  match v with
  | JArr elems => forallb stringifies elems
  | JObj fields => negb (has_field (lit "toString") fields)
  | _ => true
  end.

(** The text [String(v)] returns when it does; inside an array, [null] and
    [undefined] render as the empty string, and a plain object renders as
    [[object Object]]. *)
Fixpoint render (v : JsVal Num) : jstr :=
  match v with
  | JUndef => lit "undefined"
  | JNull => lit "null"
  | JBool true => lit "true"
  | JBool false => lit "false"
  | JNum n => num_to_string n
  | JStr s => s
  | JArr elems =>
      join_with (lit ",")
        (map (fun x => match x with
                       | JUndef | JNull => []
                       | _ => render x
                       end) elems)
  | JObj _ => lit "[object Object]"
  end.

(** [String(v)] *)
Definition to_string (v : JsVal Num) : Exec jstr :=
  if stringifies v then Ret (render v) else Throw typeError.

(** [arr.join(sep)] on an array of values: every element but [null] and
    [undefined] is converted with [String]. *)
Definition js_join (sep : jstr) (elems : list (JsVal Num)) : Exec jstr :=
  if forallb stringifies elems
  then Ret (join_with sep
              (map (fun x => match x with
                             | JUndef | JNull => []
                             | _ => render x
                             end) elems))
  else Throw typeError.

Fixpoint lookup_field (k : jstr) (fields : list (jstr * JsVal Num)) : JsVal Num :=
  match fields with
  | [] => JUndef
  | (k', v) :: rest => if str_eqb k k' then v else lookup_field k rest
  end.

(** [v?.k] for one of the property names the program reads ([transcripts],
    [text], [lang], [one_liner], [key_points], [who_should_watch]): only an
    object can carry them. *)
Definition get (v : JsVal Num) (k : String.string) : JsVal Num :=
  match v with
  | JObj fields => lookup_field (lit k) fields
  | _ => JUndef
  end.

Arguments get v k%_string.

(** [typeof v === "object"]: [null], arrays and objects. *)
Definition typeof_object (v : JsVal Num) : bool :=
  match v with
  | JNull | JArr _ | JObj _ => true
  | _ => false
  end.

(** A plain object, as a transcript segment is. *)
Definition is_plain_object (v : JsVal Num) : bool :=
  match v with
  | JObj _ => true
  | _ => false
  end.

Definition typeof_string (v : JsVal Num) : bool :=
  match v with
  | JStr _ => true
  | _ => false
  end.

(** [s || fallback] on strings *)
Definition str_or (s fallback : jstr) : jstr :=
  match s with
  | [] => fallback
  | _ :: _ => s
  end.

Definition nonempty (s : jstr) : bool := negb (Nat.eqb (length s) 0).

(** *** [normalizeSummary] (openai_summarize.mjs) *)

Definition normalizeSummary (obj : JsVal Num) (maxBullets : Z) : Exec Summary :=
  let! s1 := to_string (js_or (get obj "one_liner") (JStr [])) in
  let one_liner := trim s1 in
  let key_points :=
    match get obj "key_points" with
    | JArr elems => elems
    | _ => []
    end in
  let! s2 := to_string (js_or (get obj "who_should_watch") (JStr [])) in
  let who_should_watch := trim s2 in
  let! points :=
    exec_map (fun x => let! s := to_string x in Ret (trim s)) key_points in
  Ret {| one_liner := slice0 220 (str_or one_liner (lit "Summary unavailable."));
         key_points := slice0 maxBullets (filter nonempty points);
         who_should_watch :=
           slice0 180
             (str_or who_should_watch
                (lit "Anyone who wants a neutral overview.")) |}.

(** The summary [normalizeSummary] returns when no conversion throws. *)
Definition summaryOf (obj : JsVal Num) (maxBullets : Z) : Summary :=
  let one_liner := trim (render (js_or (get obj "one_liner") (JStr []))) in
  let key_points :=
    match get obj "key_points" with
    | JArr elems => elems
    | _ => []
    end in
  let who_should_watch :=
    trim (render (js_or (get obj "who_should_watch") (JStr []))) in
  {| one_liner := slice0 220 (str_or one_liner (lit "Summary unavailable."));
     key_points :=
       slice0 maxBullets
         (filter nonempty (map (fun x => trim (render x)) key_points));
     who_should_watch :=
       slice0 180
         (str_or who_should_watch (lit "Anyone who wants a neutral overview.")) |}.

(** The values [normalizeSummary] hands to [String]: the two text fields
    when truthy, and every entry of an array [key_points]. *)
Definition summaryTexts (obj : JsVal Num) : list (JsVal Num) :=
  js_or (get obj "one_liner") (JStr [])
  :: js_or (get obj "who_should_watch") (JStr [])
  :: match get obj "key_points" with
     | JArr elems => elems
     | _ => []
     end.

End Values.

Arguments get {Num} v k%_string.

(** No leading and no trailing whitespace. *)
Definition is_trimmed (s : jstr) : bool :=
  match s with
  | [] => true
  | c :: _ => negb (is_ws c) && negb (is_ws (last s c))
  end.

(** ** Effects: the world, the state and the monad *)

(** What a [fetch] resolves to.  [res_text] and [res_json] are what
    [res.text()] and [res.json()] settle to; either may reject. *)
Record Response (Num : Type) := mkResponse {
  res_status : Z;
  res_text : Exec jstr;
  res_json : Exec (JsVal Num)
}.

Arguments mkResponse {Num}.
Arguments res_status {Num}.
Arguments res_text {Num}.
Arguments res_json {Num}.

(** [res.ok] *)
Definition res_ok {Num} (res : Response Num) : bool :=
  (200 <=? res_status res) && (res_status res <=? 299).

Inductive FetchOutcome (Num : Type) : Type :=
| Responded (res : Response Num)
| Rejected (e : JsError).

Arguments Responded {Num} res.
Arguments Rejected {Num} e.

(** The upstream provider answers the k-th request with [net k]; the k-th
    call of [Math.random()] yields [random k]. *)
Record World (Num : Type) := mkWorld {
  net : nat -> FetchOutcome Num;
  random : nat -> Q
}.

Arguments mkWorld {Num}.
Arguments net {Num}.
Arguments random {Num}.

Inductive Event :=
| EvFetch (apiKey videoId : jstr)
| EvSleep (ms : Z).

Record State := mkState {
  fetches : nat;        (* requests issued so far *)
  randoms : nat;        (* Math.random() calls so far *)
  log : list Event      (* oldest first *)
}.

(** The state once a request has been issued, and once a delay has been
    slept through. *)
Definition after_fetch (st : State) (apiKey videoId : jstr) : State :=
  {| fetches := S (fetches st); randoms := randoms st;
     log := log st ++ [EvFetch apiKey videoId] |}.

Definition after_sleep (st : State) (ms : Z) : State :=
  {| fetches := fetches st; randoms := randoms st;
     log := log st ++ [EvSleep ms] |}.

Definition M (A : Type) : Type := State -> Exec A * State.

Definition ret {A} (a : A) : M A := fun st => (Ret a, st).

Definition throw {A} (e : JsError) : M A := fun st => (Throw e, st).

Definition bind {A B} (m : M A) (k : A -> M B) : M B :=
  fun st =>
    match m st with
    | (Ret a, st') => k a st'
    | (Throw e, st') => (Throw e, st')
    end.

(** [try { body } catch (err) { handler }] *)
Definition try_catch {A} (body : M A) (handler : JsError -> M A) : M A :=
  fun st =>
    match body st with
    | (Ret a, st') => (Ret a, st')
    | (Throw e, st') => handler e st'
    end.

(** [await p] for an already settled promise *)
Definition await {A} (p : Exec A) : M A := fun st => (p, st).

Notation "x <- m ;; k" := (bind m (fun x => k))
  (at level 61, m at next level, right associativity).
Notation "m ;;; k" := (bind m (fun _ => k))
  (at level 61, right associativity).

(** [await sleep(ms)] *)
Definition sleep (ms : Z) : M unit := fun st => (Ret tt, after_sleep st ms).

Inductive LoopCtl (A : Type) : Type :=
| Continue
| Return (a : A).

Arguments Continue {A}.
Arguments Return {A} a.

(** ** The transcript fetcher (scrapingdog.mjs) *)

Inductive TranscriptResult (Num : Type) : Type :=
| TOk (text : jstr) (segments : Z) (lang : JsVal Num)   (* { ok: true, ... } *)
| TFail (reason : jstr).                                 (* { ok: false, reason } *)

Arguments TOk {Num} text segments lang.
Arguments TFail {Num} reason.

(** [process.env] as the fetcher reads it: the key as found (or not),
    [Number(process.env.SCRAPINGDOG_MAX_ATTEMPTS || 3)] as a number, and
    [Number(process.env.SCRAPINGDOG_BASE_DELAY_MS || 800)] as an integer. *)
Record FetchConfig := mkFetchConfig {
  SCRAPINGDOG_API_KEY : option jstr;
  maxAttempts : Q;
  baseDelayMs : Z
}.

Definition isTransientHttp (status : Z) : bool :=
  (status =? 429) || (status =? 500) || (status =? 502) || (status =? 503)
  || (status =? 504).

Definition formatProviderError (provider : jstr) (status : Z) (bodyText : jstr)
  : jstr :=
  let lower := map ascii_lower bodyText in
  let looksHtml :=
    includes (lit "<!doctype html>") lower || includes (lit "<html") lower in
  if looksHtml then provider ++ lit "_http_" ++ int_to_string status
  else if negb (nonempty bodyText)
       then provider ++ lit "_http_" ++ int_to_string status
       else provider ++ lit "_http_" ++ int_to_string status ++ lit ":"
            ++ slice0 120 (collapse_ws bodyText).

(** [String(err)] for an [Error] object *)
Definition error_to_string (err : JsError) : jstr :=
  match err_name err, err_message err with
  | [], msg => msg
  | name, [] => name
  | name, msg => name ++ lit ": " ++ msg
  end.

Definition safeErrMsg (err : JsError) : jstr :=
  let msg := str_or (err_message err) (error_to_string err) in
  slice0 200 (collapse_ws msg).

Definition decodeHtmlEntities (input : jstr) : jstr :=
  let s1 := replaceAll (lit "&amp;") (lit "&") input in
  let s2 := replaceAll (lit "&#39;") (lit "'") s1 in
  let s3 := replaceAll (lit "&quot;") [34%N] s2 in
  let s4 := replaceAll (lit "&lt;") (lit "<") s3 in
  let s5 := replaceAll (lit "&gt;") (lit ">") s4 in
  let s6 := replaceAll (lit "&nbsp;") (lit " ") s5 in
  let s7 := replaceAll (lit "&gt;") (lit ">") s6 in
  trim (collapse_ws s7).

Section Fetcher.
Context {Num : Type} `{JsNumber Num}.
Variable w : World Num.
Variable cfg : FetchConfig.

(** [await fetch(url, ...)]: the request is logged, then the promise settles. *)
Definition fetch (apiKey videoId : jstr) : M (Response Num) :=
  fun st =>
    let st' := after_fetch st apiKey videoId in
    match net w (fetches st) with
    | Responded res => (Ret res, st')
    | Rejected e => (Throw e, st')
    end.

(** [Math.random()] *)
Definition math_random : M Q :=
  fun st =>
    (Ret (random w (randoms st)),
     {| fetches := fetches st; randoms := S (randoms st); log := log st |}).

(** The capped exponential part of the delay; [Math.pow(2, attempt - 1)] is
    [2 ^ (attempt - 1)] for the attempt numbers the loop passes
    ([attempt >= 1]). *)
Definition backoffExp (baseMs attempt : Z) : Z :=
  Z.min (baseMs * 2 ^ (attempt - 1)) 8000.

Definition backoffDelay (baseMs attempt : Z) : M Z :=
  let exp := backoffExp baseMs attempt in
  r <- math_random ;;
  let jitter := Qfloor (r * 250) in
  ret (exp + jitter).

Definition safeReadText (res : Response Num) : M jstr :=
  try_catch
    (t <- await (res_text res) ;; ret (slice0 300 t))
    (fun _ => ret []).

Definition safeReadJson (res : Response Num) : M (JsVal Num) :=
  try_catch (await (res_json res)) (fun _ => ret JNull).

(** The values [.map((seg) => seg?.text || "").filter(Boolean)] keeps. *)
Definition segmentTexts (transcripts : list (JsVal Num)) : list (JsVal Num) :=
  filter truthy (map (fun seg => js_or (get seg "text") (JStr [])) transcripts).

(** The text assembled from the segments, before the length test; the
    [join] throws when a kept value does not convert to a string. *)
Definition fullTextOf (transcripts : list (JsVal Num)) : Exec jstr :=
  let! joined := js_join (lit " ") (segmentTexts transcripts) in
  Ret (trim (collapse_ws joined)).

(** What the fetcher does with the parsed body of a 2xx answer, from
    [const transcripts = data?.transcripts] to the end of the [try] block. *)
Definition classifyBody (data : JsVal Num) : Exec (TranscriptResult Num) :=
  match get data "transcripts" with
  | JArr (first :: rest) =>
      let transcripts := first :: rest in
      if Nat.eqb (length transcripts) 1 && typeof_string first
      then Ret (TFail (lit "no_transcript"))
      else if negb (typeof_object first)
      then Ret (TFail (lit "no_transcript"))
      else
        let! fullText := fullTextOf transcripts in
        if negb (nonempty fullText) || (Z.of_nat (length fullText) <? 200)
        then Ret (TFail (lit "too_short"))
        else Ret (TOk (decodeHtmlEntities fullText)
                      (Z.of_nat (length transcripts))
                      (js_or (get first "lang") JNull))
  | _ => Ret (TFail (lit "no_transcript"))
  end.

(** [await sleep(backoffDelay(baseDelayMs, attempt)); continue;] *)
Definition backoff_and_continue (attempt : Z)
  : M (LoopCtl (TranscriptResult Num)) :=
  d <- backoffDelay (baseDelayMs cfg) attempt ;;
  sleep d ;;;
  ret Continue.

(** One iteration of the attempt loop: the [try] block and its [catch]. *)
Definition attempt_body (apiKey videoId : jstr) (attempt : Z)
  : M (LoopCtl (TranscriptResult Num)) :=
  try_catch
    (res <- fetch apiKey videoId ;;
     if negb (res_ok res) then
       let status := res_status res in
       bodyText <- safeReadText res ;;
       if isTransientHttp status && below attempt (maxAttempts cfg)
       then backoff_and_continue attempt
       else ret (Return (TFail
                   (formatProviderError (lit "scrapingdog") status bodyText)))
     else
       data <- safeReadJson res ;;
       if negb (truthy data) then
         if below attempt (maxAttempts cfg)
         then backoff_and_continue attempt
         else ret (Return (TFail (lit "scrapingdog_invalid_json")))
       else
         r <- await (classifyBody data) ;;
         ret (Return r))
    (fun err =>
       if below attempt (maxAttempts cfg)
       then backoff_and_continue attempt
       else ret (Return (TFail
                   (lit "scrapingdog_fetch_error:" ++ safeErrMsg err)))).

(** [for (let attempt = 1; attempt <= maxAttempts; attempt++)]: the attempt
    numbers the loop runs through, which are the integers from [1] that
    are at most [maxAttempts]. *)
Definition attempt_range (maxAttempts : Q) : list Z :=
  map Z.of_nat (seq 1 (Z.to_nat (Qfloor maxAttempts))).

(** The loop; [None] when it runs to completion without a [return]. *)
Fixpoint for_attempts (apiKey videoId : jstr) (attempts : list Z)
  : M (option (TranscriptResult Num)) :=
  match attempts with
  | [] => ret None
  | attempt :: rest =>
      c <- attempt_body apiKey videoId attempt ;;
      match c with
      | Continue => for_attempts apiKey videoId rest
      | Return r => ret (Some r)
      end
  end.

Definition key_missing (k : option jstr) : bool :=
  match k with
  | None | Some [] => true
  | Some (_ :: _) => false
  end.

Definition fetchTranscriptFromScrapingDog (videoId : jstr)
  : M (TranscriptResult Num) :=
  match SCRAPINGDOG_API_KEY cfg with
  | None | Some [] =>
      throw (mkError (lit "Error") (lit "Missing SCRAPINGDOG_API_KEY"))
  | Some (c :: k) =>
      let apiKey := c :: k in
      r <- for_attempts apiKey videoId (attempt_range (maxAttempts cfg)) ;;
      match r with
      | Some t => ret t
      | None => ret (TFail (lit "scrapingdog_unknown_error"))  (* after the loop *)
      end
  end.

(** The state after the backoff of [attempt]: one draw of [Math.random()]
    and the sleep. *)
Definition after_backoff (st : State) (attempt : Z) : State :=
  {| fetches := fetches st; randoms := S (randoms st);
     log := log st ++
            [EvSleep (backoffExp (baseDelayMs cfg) attempt
                      + Qfloor (random w (randoms st) * 250))] |}.

End Fetcher.


(** The result of the statement after the loop. *)
Definition unknown_error {Num} : TranscriptResult Num :=
  TFail (lit "scrapingdog_unknown_error").

(** ** The digest assembler (index.mjs) *)

Record VideoRecord := mkVideo {
  title : jstr;
  url : jstr;
  videoId : jstr;
  publishedAt : jstr;
  channelName : jstr
}.

Inductive Status := summarized | skipped.

(** The objects of [summarizedItems] and [skippedItems]:
    [{ status, summary, ...v }] and [{ status, reason, ...v }]. *)
Record SummarizedItem := mkSummarized {
  sm_summary : Summary;
  sm_video : VideoRecord
}.

Record SkippedItem := mkSkipped {
  sk_reason : jstr;
  sk_video : VideoRecord
}.

Record DisplayItem := mkItem {
  status : Status;
  item_videoId : jstr;
  item_title : jstr;
  item_channelName : jstr;
  item_url : jstr;
  item_publishedAt : jstr;
  summary : option Summary;
  reason : option jstr
}.

Record GroupDigest := mkDigest {
  label : jstr;
  totalNew : Z;
  summarizedCount : Z;
  skippedCount : Z;
  notShownCount : Z;
  items : list DisplayItem
}.

(** The configuration [getCapPerSection] reads: the lower-cased
    [DIGEST_FREQUENCY] (or ["daily"]) and the two caps after
    [Number(... || 15)] and [Number(... || 7)], as numbers. *)
Record DigestConfig := mkDigestConfig {
  frequency : jstr;
  CAP_WEEKLY_PER_SECTION : Q;
  CAP_DAILY_PER_SECTION : Q
}.

Definition getCapPerSection (dc : DigestConfig) : Q :=
  if str_eqb (frequency dc) (lit "weekly")
  then CAP_WEEKLY_PER_SECTION dc
  else CAP_DAILY_PER_SECTION dc.

(** A JavaScript [Map] keyed by strings: entries in insertion order;
    [set] on a present key replaces the value where the entry stands. *)
Fixpoint map_set {V} (k : jstr) (v : V) (m : list (jstr * V)) : list (jstr * V) :=
  match m with
  | [] => [(k, v)]
  | (k', v') :: rest =>
      if str_eqb k k' then (k, v) :: rest else (k', v') :: map_set k v rest
  end.

Definition map_values {V} (m : list (jstr * V)) : list V := map snd m.

(** [m.get(k)] *)
Fixpoint map_get {V} (k : jstr) (m : list (jstr * V)) : option V :=
  match m with
  | [] => None
  | (k', v') :: rest => if str_eqb k k' then Some v' else map_get k rest
  end.

(** [Array.prototype.sort(cmp)], as an insertion sort driven by the sign of
    the comparator: the elements are taken left to right and each one is
    put before the first element it compares below.  This fixes one order
    among elements the comparator does not tell apart, which ECMAScript
    leaves to the implementation; the statements below speak only of the
    order of the sort keys. *)
Fixpoint sort_insert {A} (cmp : A -> A -> Z) (x : A) (sorted : list A) : list A :=
  match sorted with
  | [] => [x]
  | y :: rest =>
      if cmp x y <? 0 then x :: sorted else y :: sort_insert cmp x rest
  end.

Definition js_sort {A} (cmp : A -> A -> Z) (l : list A) : list A :=
  fold_left (fun acc x => sort_insert cmp x acc) l [].

(** The sort puts [x] before [y] when the comparator is negative on them. *)
Definition putsBefore {A} (cmp : A -> A -> Z) (x y : A) : Prop :=
  (cmp x y <? 0) = true.

(** [(a, b) => (a.publishedAt < b.publishedAt ? 1 : -1)] *)
Definition byRecency {A} (published : A -> jstr) (a b : A) : Z :=
  if str_lt (published a) (published b) then 1 else -1.

(** [for (const v of allVideos) dedup.set(v.videoId, v)] *)
Definition dedupMap (allVideos : list VideoRecord) : list (jstr * VideoRecord) :=
  fold_left (fun dedup v => map_set (videoId v) v dedup) allVideos [].

(** The considered set [videos] of a group. *)
Definition dedupVideos (allVideos : list VideoRecord) : list VideoRecord :=
  js_sort (byRecency publishedAt) (map_values (dedupMap allVideos)).

(** The record inserted last under identifier [id], if any. *)
Definition lastWithId (id : jstr) (allVideos : list VideoRecord)
  : option VideoRecord :=
  find (fun v => str_eqb id (videoId v)) (rev allVideos).

(** Most recent first: no record stands before one published later. *)
Definition recentFirst {A} (published : A -> jstr) (l : list A) : Prop :=
  StronglySorted (fun a b => str_lt (published a) (published b) = false) l.

Definition showSummarized (x : SummarizedItem) : DisplayItem :=
  let v := sm_video x in
  {| status := summarized;
     item_videoId := videoId v;
     item_title := title v;
     item_channelName := channelName v;
     item_url := url v;
     item_publishedAt := publishedAt v;
     summary := Some (sm_summary x);
     reason := None |}.

Definition showSkipped (x : SkippedItem) : DisplayItem :=
  let v := sk_video x in
  {| status := skipped;
     item_videoId := videoId v;
     item_title := title v;
     item_channelName := channelName v;
     item_url := url v;
     item_publishedAt := publishedAt v;
     summary := None;
     reason := Some (sk_reason x) |}.

Definition skipReason (t_reason : jstr) : jstr :=
  if str_eqb t_reason (lit "no_transcript")
  then lit "This video has no transcript/captions available on YouTube."
  else lit "Transcript unavailable or too short.".

Section Assembler.
Context {Num : Type} `{JsNumber Num}.
Variable w : World Num.
Variable cfg : FetchConfig.

(** The summarization collaborator, [summarizeTranscript({ title,
    channelName, transcriptText, maxBullets })]: any computation, which may
    throw. *)
Variable summarizeTranscript : jstr -> jstr -> jstr -> Z -> M Summary.

(** The body of [for (const v of videos)]. *)
Definition scan_video (v : VideoRecord)
  (acc : list SummarizedItem * list SkippedItem)
  : M (list SummarizedItem * list SkippedItem) :=
  let (summarizedItems, skippedItems) := acc in
  t <- fetchTranscriptFromScrapingDog w cfg (videoId v) ;;
  match t with
  | TFail t_reason =>
      ret (summarizedItems,
           skippedItems ++ [ {| sk_reason := skipReason t_reason; sk_video := v |} ])
  | TOk text _ _ =>
      summary <- summarizeTranscript (title v) (channelName v) text 5 ;;
      ret (summarizedItems ++ [ {| sm_summary := summary; sm_video := v |} ],
           skippedItems)
  end.

Fixpoint scan_videos (videos : list VideoRecord)
  (acc : list SummarizedItem * list SkippedItem)
  : M (list SummarizedItem * list SkippedItem) :=
  match videos with
  | [] => ret acc
  | v :: rest => acc' <- scan_video v acc ;; scan_videos rest acc'
  end.

(** One round of [for (const packKey of ...)] in [run], from the collected
    [allVideos] of the pack to the section pushed on [sectionsOut]. *)
Definition assembleGroup (cap : Q) (packLabel : jstr)
  (allVideos : list VideoRecord) : M GroupDigest :=
  let videos := dedupVideos allVideos in
  acc <- scan_videos videos ([], []) ;;
  let (summarizedItems, skippedItems) := acc in
  let combined :=
    js_sort (byRecency item_publishedAt)
      (map showSummarized summarizedItems ++ map showSkipped skippedItems) in
  let displayed := slice0 (js_trunc cap) combined in
  ret {| label := packLabel;
         totalNew := Z.of_nat (length videos);
         summarizedCount := Z.of_nat (length summarizedItems);
         skippedCount := Z.of_nat (length skippedItems);
         notShownCount :=
           Z.max 0 (Z.of_nat (length combined) - Z.of_nat (length displayed));
         items := displayed |}.

End Assembler.

(** ** Concrete inputs used by the runs below *)

Definition initState : State := {| fetches := O; randoms := O; log := [] |}.

Definition demoConfig : FetchConfig :=
  {| SCRAPINGDOG_API_KEY := Some (lit "k"); maxAttempts := 3; baseDelayMs := 800 |}.

Definition okResponse (body : JsVal Z) : Response Z :=
  {| res_status := 200; res_text := Ret []; res_json := Ret body |}.

Definition textSegment (s : jstr) : JsVal Z :=
  JObj [(lit "text", JStr s); (lit "lang", JStr (lit "en"))].

Definition sentinelBody : JsVal Z :=
  JObj [(lit "transcripts", JArr [JStr (lit "This video has no transcripts")])].

Definition invalidJsonResponse : Response Z :=
  {| res_status := 200;
     res_text := Ret (lit "<html>oops</html>");
     res_json := Throw (mkError (lit "SyntaxError") (lit "Unexpected token <")) |}.

(** 140 letters and ten [&quot;] entities: 200 code units that decode to
    150. *)
Definition entityPaddedText : jstr :=
  repeat 97%N 140 ++ concat (repeat (lit "&quot;") 10).

Definition entityPaddedBody : JsVal Z :=
  JObj [(lit "transcripts", JArr [textSegment entityPaddedText])].

(** A configuration whose daily cap was set to [-1]. *)
Definition negativeCapConfig : DigestConfig :=
  {| frequency := lit "daily";
     CAP_WEEKLY_PER_SECTION := 15;
     CAP_DAILY_PER_SECTION := -1 |}.

Definition defaultDigestConfig : DigestConfig :=
  {| frequency := lit "daily";
     CAP_WEEKLY_PER_SECTION := 15;
     CAP_DAILY_PER_SECTION := 7 |}.

Definition twoPointsInput : JsVal Z :=
  JObj [(lit "key_points", JArr [JStr (lit "a"); JStr (lit "b")])].

(** [{"one_liner": {"toString": 1}}] *)
Definition ownToStringInput : JsVal Z :=
  JObj [(lit "one_liner", JObj [(lit "toString", JNum 1)])].

(** An answer with a padded one-liner, key points of several kinds (two of
    them blank) and a falsy audience. *)
Definition mixedSummaryInput : JsVal Z :=
  JObj [(lit "one_liner", JStr (lit "  A talk about maps.  "));
        (lit "key_points",
         JArr [JStr (lit " first "); JStr []; JNull; JStr (lit "   ");
               JNum 7; JObj [(lit "a", JNum 1)]; JStr (lit "last")]);
        (lit "who_should_watch", JNum 0)].

Definition demoVideo (id published : String.string) : VideoRecord :=
  {| title := lit "T"; url := lit "u"; videoId := lit id;
     publishedAt := lit published; channelName := lit "A" |}.

Arguments demoVideo id%_string published%_string.

Definition constWorld (o : FetchOutcome Z) : World Z :=
  {| net := fun _ => o; random := fun _ => 0%Q |}.

Definition longBody : JsVal Z :=
  JObj [(lit "transcripts", JArr [textSegment (repeat 97%N 200)])].

Definition sentinelWorld : World Z :=
  constWorld (Responded (okResponse sentinelBody)).

Definition invalidJsonWorld : World Z :=
  constWorld (Responded invalidJsonResponse).

(** The first request gets a usable transcript, every later one the
    sentinel. *)
Definition mixedWorld : World Z :=
  {| net := fun k => match k with
                     | O => Responded (okResponse longBody)
                     | S _ => Responded (okResponse sentinelBody)
                     end;
     random := fun _ => 0%Q |}.

Definition demoVideos : list VideoRecord :=
  [demoVideo "a" "2024-01-01"; demoVideo "b" "2024-01-03";
   demoVideo "a" "2024-01-05"].

Definition demoSummarize (_ _ _ : jstr) (maxBullets : Z) : M Summary :=
  await (normalizeSummary (JNull : JsVal Z) maxBullets).

(** ** Further vocabulary for the properties *)

(** Every whitespace code unit is a space, and no two of them are
    adjacent. *)
Fixpoint single_spaced (s : jstr) : bool :=
  match s with
  | [] => true
  | c :: r =>
      (negb (is_ws c) || N.eqb c 32)
      && negb (is_ws c && match r with
                          | d :: _ => is_ws d
                          | [] => false
                          end)
      && single_spaced r
  end.

(** The outcomes after which the attempt loop goes on while attempts
    remain: a rejected request, a transient HTTP status, a 2xx answer whose
    body does not parse, parses to a falsy value, or holds a segment text
    that does not convert to a string. *)
Definition retryable {Num} `{JsNumber Num} (o : FetchOutcome Num) : bool :=
  match o with
  | Rejected _ => true
  | Responded res =>
      if res_ok res
      then match res_json res with
           | Ret data =>
               negb (truthy data)
               || match classifyBody data with
                  | Ret _ => false
                  | Throw _ => true
                  end
           | Throw _ => true
           end
      else isTransientHttp (res_status res)
  end.

(** What [safeReadText] yields for a response. *)
Definition bodySnippet {Num} (res : Response Num) : jstr :=
  match res_text res with
  | Ret t => slice0 300 t
  | Throw _ => []
  end.

(** The video a displayed item was built from. *)
Definition itemVideo (i : DisplayItem) : VideoRecord :=
  {| title := item_title i;
     url := item_url i;
     videoId := item_videoId i;
     publishedAt := item_publishedAt i;
     channelName := item_channelName i |}.

(** ** Regular expressions of the feed reader (index.mjs)

    The four patterns of the program are sequences of literal text and of
    repetitions of one character class, around one capture group.  They are
    matched as JavaScript does: leftmost start first, a greedy repetition
    tries the longest run first, a lazy one the shortest. *)

Inductive ReAtom :=
| ReLit (text : jstr)
| ReStar (cls : N -> bool) (min : nat) (lazy : bool)   (* [cls]{min,} *)
| ReOpen                                                 (* ( *)
| ReClose.                                               (* ) *)

(** A repetition followed by the continuation [k]. *)
Fixpoint re_star (cls : N -> bool) (lazy : bool) (k : jstr -> option jstr)
  (min : nat) (s : jstr) : option jstr :=
  match s with
  | [] => match min with
          | O => k []
          | S _ => None
          end
  | c :: r =>
      if cls c then
        if lazy then
          match min with
          | O => match k s with
                 | Some m => Some m
                 | None => re_star cls lazy k O r
                 end
          | S m => re_star cls lazy k m r
          end
        else
          match re_star cls lazy k (pred min) r with
          | Some m => Some m
          | None => match min with
                    | O => k s
                    | S _ => None
                    end
          end
      else
        match min with
        | O => k s
        | S _ => None
        end
  end.

(** Matching at the current position; [opened] is the input where the group
    opened and [captured] the text of the group once it has closed.  The
    result is the captured text, [m[1]]. *)
Fixpoint re_atoms (atoms : list ReAtom) (opened captured s : jstr)
  : option jstr :=
  match atoms with
  | [] => Some captured
  | ReLit text :: rest =>
      if starts_with text s
      then re_atoms rest opened captured (skipn (length text) s)
      else None
  | ReStar cls min lazy :: rest =>
      re_star cls lazy (re_atoms rest opened captured) min s
  | ReOpen :: rest => re_atoms rest s captured s
  | ReClose :: rest =>
      re_atoms rest opened (firstn (length opened - length s) opened) s
  end.

(** [s.match(re)?.[1]]: the first start position that matches wins. *)
Fixpoint re_search (atoms : list ReAtom) (s : jstr) : option jstr :=
  match re_atoms atoms [] [] s with
  | Some m => Some m
  | None =>
      match s with
      | [] => None
      | _ :: r => re_search atoms r
      end
  end.

Definition any_unit (_ : N) : bool := true.
Definition not_unit (c d : N) : bool := negb (N.eqb c d).

(** [[a-zA-Z0-9_-]] *)
Definition channel_id_unit (c : N) : bool :=
  ((97 <=? c) && (c <=? 122))%N || ((65 <=? c) && (c <=? 90))%N
  || ((48 <=? c) && (c <=? 57))%N || N.eqb c 95 || N.eqb c 45.

(** [s.split(sep)] for a non-empty [sep]; [current] is the piece being
    read and [skip] the rest of a separator still to be passed. *)
Fixpoint split_from (skip : nat) (sep current s : jstr) : list jstr :=
  match s with
  | [] => [current]
  | c :: r =>
      match skip with
      | S k => split_from k sep current r
      | O =>
          if starts_with sep s
          then current :: split_from (pred (length sep)) sep [] r
          else split_from O sep (current ++ [c]) r
      end
  end.

Definition split (sep s : jstr) : list jstr := split_from O sep [] s.

(** ** The feed reader (index.mjs) *)

Definition decodeXml (s : jstr) : jstr :=
  let s1 := replaceAll (lit "&amp;") (lit "&") s in
  let s2 := replaceAll (lit "&lt;") (lit "<") s1 in
  let s3 := replaceAll (lit "&gt;") (lit ">") s2 in
  let s4 := replaceAll (lit "&quot;") [34%N] s3 in
  replaceAll (lit "&#39;") (lit "'") s4.

(** The code units that stand for themselves in a pattern: all but the
    syntax characters [^ $ \ . * + ? ( ) [ ] { } |]. *)
Definition regex_literal (c : N) : bool :=
  negb (existsb (N.eqb c)
          [94; 36; 92; 46; 42; 43; 63; 40; 41; 91; 93; 123; 125; 124]%N).

(** [new RegExp(`<${tag}>([\\s\\S]*?)<\\/${tag}>`)], for a [tag] of code
    units that stand for themselves ([regex_literal]), as [title] and
    [published] at the two call sites are; a syntax character in the tag
    would be read as pattern syntax, which this definition does not
    follow. *)
Definition xmlPattern (tag : jstr) : list ReAtom :=
  [ReLit (lit "<" ++ tag ++ lit ">"); ReOpen; ReStar any_unit 0 true; ReClose;
   ReLit (lit "</" ++ tag ++ lit ">")].

(** [block.match(...)?.[1]?.trim() || null] *)
Definition extractXml (block tag : jstr) : option jstr :=
  match re_search (xmlPattern tag) block with
  | Some m => match trim m with
              | [] => None
              | t => Some t
              end
  | None => None
  end.

(** [/<link[^>]*href=Q([^Q]+)Q/], writing Q for the double quote. *)
Definition linkPattern : list ReAtom :=
  [ReLit (lit "<link"); ReStar (not_unit 62) 0 false;
   ReLit (lit "href=" ++ [34%N]); ReOpen; ReStar (not_unit 34) 1 false;
   ReClose; ReLit [34%N]].

(** [(link || "").split("v=")[1]?.split("&")[0]] *)
Definition videoIdOfLink (link : option jstr) : option jstr :=
  let l := match link with
           | Some l => l
           | None => []
           end in
  match nth_error (split (lit "v=") l) 1 with
  | Some piece => Some (hd [] (split (lit "&") piece))
  | None => None
  end.

(** The objects [parseYouTubeRss] pushes: [{ title, url, videoId,
    publishedAt }]. *)
Record FeedEntry := mkEntry {
  fe_title : jstr;
  fe_url : jstr;
  fe_videoId : jstr;
  fe_publishedAt : jstr
}.

(** The body of [for (const block of entryBlocks)]: the entry pushed, if
    all four values are truthy. *)
Definition parseEntry (block : jstr) : option FeedEntry :=
  let title := extractXml block (lit "title") in
  let link := re_search linkPattern block in
  let published := extractXml block (lit "published") in
  let videoId := videoIdOfLink link in
  match title, link, published, videoId with
  | Some t, Some (l0 :: l), Some p, Some (v0 :: v) =>
      Some {| fe_title := decodeXml t; fe_url := l0 :: l;
              fe_videoId := v0 :: v; fe_publishedAt := p |}
  | _, _, _, _ => None
  end.

Definition entryBlocks (xml : jstr) : list jstr := tl (split (lit "<entry>") xml).

Fixpoint pushEntries (blocks : list jstr) (entries : list FeedEntry)
  : list FeedEntry :=
  match blocks with
  | [] => entries
  | block :: rest =>
      match parseEntry block with
      | Some e => pushEntries rest (entries ++ [e])
      | None => pushEntries rest entries
      end
  end.

Definition parseYouTubeRss (xml : jstr) : list FeedEntry :=
  js_sort (byRecency fe_publishedAt) (pushEntries (entryBlocks xml) []).

(** [/QchannelIdQ:Q(UC[a-zA-Z0-9_-]{20,})Q/], writing Q for the double
    quote, and
    [/https:\/\/www\.youtube\.com\/channel\/(UC[a-zA-Z0-9_-]{20,})/]. *)
Definition channelIdPattern : list ReAtom :=
  [ReLit ([34%N] ++ lit "channelId" ++ [34%N] ++ lit ":" ++ [34%N]); ReOpen;
   ReLit (lit "UC"); ReStar channel_id_unit 20 false; ReClose; ReLit [34%N]].

Definition channelLinkPattern : list ReAtom :=
  [ReLit (lit "https://www.youtube.com/channel/"); ReOpen;
   ReLit (lit "UC"); ReStar channel_id_unit 20 false; ReClose].

(** The configuration the feed reader uses: [MAX_VIDEOS_PER_CHANNEL],
    [MAX_AGE_DAYS_DAILY], [MAX_AGE_DAYS_WEEKLY] after [Number(...)], as
    integers. *)
Record FeedConfig := mkFeedConfig {
  MAX_VIDEOS_PER_CHANNEL : Z;
  MAX_AGE_DAYS_DAILY : Z;
  MAX_AGE_DAYS_WEEKLY : Z
}.

Definition getMaxAgeDays (dc : DigestConfig) (fc : FeedConfig) : Z :=
  if str_eqb (frequency dc) (lit "weekly")
  then MAX_AGE_DAYS_WEEKLY fc
  else MAX_AGE_DAYS_DAILY fc.

(** [isWithinMaxAge], given what [Date.parse] makes of the timestamp
    ([None] for [NaN]) and what [Date.now()] returns. *)
Definition isWithinMaxAge (dc : DigestConfig) (fc : FeedConfig)
  (publishedMs : option Z) (nowMs : Z) : bool :=
  match publishedMs with
  | None => false
  | Some ms =>
      let cutoffMs := nowMs - getMaxAgeDays dc fc * 24 * 60 * 60 * 1000 in
      cutoffMs <=? ms
  end.

Record Channel := mkChannel {
  ch_name : jstr;
  ch_url : jstr          (* empty when the entry has no [url] *)
}.

Record Pack := mkPack {
  pack_label : jstr;
  pack_channels : list Channel
}.

Section FeedReader.
Context {Num : Type} `{JsNumber Num}.
Variable w : World Num.
Variable dc : DigestConfig.
Variable fc : FeedConfig.

(** [Date.parse]; [None] stands for [NaN]. *)
Variable Date_parse : jstr -> option Z.

(** [Date.now()] as read for the [i]-th entry filtered in state [st]. *)
Variable Date_now : State -> nat -> Z.

(** [await fetch(url)]: a plain GET, logged with an empty key. *)
Definition fetchUrl (url : jstr) : M (Response Num) := fetch w [] url.

Definition resolveChannelId (channelUrl : jstr) : M jstr :=
  res <- fetchUrl channelUrl ;;
  if negb (res_ok res)
  then throw (mkError (lit "Error")
                (lit "Channel page fetch failed: " ++ channelUrl))
  else
    html <- await (res_text res) ;;
    match re_search channelIdPattern html with
    | Some (c :: m1) => ret (c :: m1)
    | _ =>
        match re_search channelLinkPattern html with
        | Some (c :: m2) => ret (c :: m2)
        | _ => throw (mkError (lit "Error")
                        (lit "Could not resolve channel_id for " ++ channelUrl))
        end
    end.

Definition fetchLatestVideosFromChannelUrl (channelUrl : jstr)
  : M (list FeedEntry) :=
  channelId <- resolveChannelId channelUrl ;;
  let rssUrl :=
    lit "https://www.youtube.com/feeds/videos.xml?channel_id=" ++ channelId in
  res <- fetchUrl rssUrl ;;
  if negb (res_ok res)
  then throw (mkError (lit "Error") (lit "RSS fetch failed: " ++ channelUrl))
  else
    xml <- await (res_text res) ;;
    ret (slice0 (MAX_VIDEOS_PER_CHANNEL fc) (parseYouTubeRss xml)).

(** [vids.filter((v) => isWithinMaxAge(v.publishedAt))], the clock being
    read once per entry. *)
Fixpoint filterFresh (st : State) (i : nat) (vids : list FeedEntry)
  : list FeedEntry :=
  match vids with
  | [] => []
  | v :: rest =>
      if isWithinMaxAge dc fc (Date_parse (fe_publishedAt v)) (Date_now st i)
      then v :: filterFresh st (S i) rest
      else filterFresh st (S i) rest
  end.

(** [{ ...v, channelName: ch.name }] *)
Definition tagEntry (channel : jstr) (v : FeedEntry) : VideoRecord :=
  {| title := fe_title v; url := fe_url v; videoId := fe_videoId v;
     publishedAt := fe_publishedAt v; channelName := channel |}.

Definition isPlaceholder (ch : Channel) : bool :=
  negb (nonempty (ch_url ch)) || starts_with (lit "PASTE_") (ch_url ch).

(** The body of [for (const ch of pack.channels)] past the placeholder
    test: the [try] block and its empty [catch]. *)
Definition collectChannel (ch : Channel) (allVideos : list VideoRecord)
  : M (list VideoRecord) :=
  try_catch
    (vids <- fetchLatestVideosFromChannelUrl (ch_url ch) ;;
     fun st =>
       let fresh := filterFresh st O vids in
       (Ret (allVideos ++ map (tagEntry (ch_name ch)) fresh), st))
    (fun _ => ret allVideos).

Fixpoint collectVideos (channels : list Channel) (allVideos : list VideoRecord)
  : M (list VideoRecord) :=
  match channels with
  | [] => ret allVideos
  | ch :: rest =>
      if isPlaceholder ch
      then collectVideos rest allVideos
      else
        allVideos' <- collectChannel ch allVideos ;;
        collectVideos rest allVideos'
  end.

End FeedReader.

(** [pat] starts at no position of [before] in [before ++ rest]. *)
Fixpoint none_start (pat before rest : jstr) : bool :=
  match before with
  | [] => true
  | _ :: before' =>
      negb (starts_with pat (before ++ rest)) && none_start pat before' rest
  end.

(** ** The rounds of [run] (index.mjs) *)

Section Run.
Context {Num : Type} `{JsNumber Num}.
Variable w : World Num.
Variable cfg : FetchConfig.
Variable dc : DigestConfig.
Variable fc : FeedConfig.
Variable Date_parse : jstr -> option Z.
Variable Date_now : State -> nat -> Z.
Variable summarizeTranscript : jstr -> jstr -> jstr -> Z -> M Summary.

(** One round of [for (const packKey of Object.keys(CHANNEL_PACKS))]. *)
Definition runPack (cap : Q) (pack : Pack) : M GroupDigest :=
  allVideos <- collectVideos w dc fc Date_parse Date_now
                 (pack_channels pack) [] ;;
  assembleGroup w cfg summarizeTranscript cap (pack_label pack) allVideos.

Fixpoint runPacks (cap : Q) (packs : list Pack) (sectionsOut : list GroupDigest)
  : M (list GroupDigest) :=
  match packs with
  | [] => ret sectionsOut
  | pack :: rest =>
      section <- runPack cap pack ;;
      runPacks cap rest (sectionsOut ++ [section])
  end.

(** [run] up to the sections handed to [buildEmail]. *)
Definition runSections (packs : list Pack) : M (list GroupDigest) :=
  runPacks (getCapPerSection dc) packs [].

End Run.

(** ** The summarizer (openai_summarize.mjs) *)

(** [s.indexOf(c)] and [s.lastIndexOf(c)] for one code unit; [None] stands
    for [-1]. *)
Fixpoint indexOf (c : N) (s : jstr) : option nat :=
  match s with
  | [] => None
  | x :: r => if N.eqb x c then Some O else option_map S (indexOf c r)
  end.

Definition lastIndexOf (c : N) (s : jstr) : option nat :=
  option_map (fun i => (length s - 1 - i)%nat) (indexOf c (rev s)).

(** [s.slice(first, last + 1)] for [0 <= first <= last]. *)
Definition sliceSpan (first last : nat) (s : jstr) : jstr :=
  firstn (last + 1 - first) (skipn first s).

(** [process.env] as the summarizer reads it. *)
Record OpenAIConfig := mkOpenAIConfig {
  OPENAI_API_KEY : option jstr;
  OPENAI_MODEL : jstr          (* process.env.OPENAI_MODEL || "gpt-4o-mini" *)
}.

(** The [user] message. *)
Definition userPrompt (title channelName clipped : jstr) : jstr :=
  lit "Summarize this video based on the transcript." ++ [10; 10]%N
  ++ lit "Video title: " ++ title ++ [10%N]
  ++ lit "Channel: " ++ channelName ++ [10; 10]%N
  ++ lit "Transcript:" ++ [10%N] ++ clipped ++ [10%N].

Definition apiErrorSummary (status : Z) (text : jstr) : Summary :=
  {| one_liner := lit "Summary unavailable (OpenAI API error).";
     key_points := [];
     who_should_watch :=
       trim (lit "API error: " ++ int_to_string status ++ lit " "
             ++ slice0 120 text) |}.

Definition emptyOutputSummary : Summary :=
  {| one_liner := lit "Summary unavailable (empty model output).";
     key_points := [];
     who_should_watch :=
       lit "Video overview unavailable due to an API output issue." |}.

Definition badFormatSummary : Summary :=
  {| one_liner := lit "Summary unavailable (unexpected output format).";
     key_points := [];
     who_should_watch :=
       lit "Video overview unavailable due to a formatting issue." |}.

Section Summarizer.
Context {Num : Type} `{JsNumber Num}.
Variable w : World Num.
Variable ocfg : OpenAIConfig.

(** [JSON.parse]; [Throw] for a [SyntaxError]. *)
Variable JSON_parse : jstr -> Exec (JsVal Num).

(** [v === s] for a string [s] *)
Definition js_is (v : JsVal Num) (s : jstr) : bool :=
  match v with
  | JStr x => str_eqb x s
  | _ => false
  end.

(** [chunks.push(c.text)] for a [c.text] that is a string *)
Definition pushText (text : JsVal Num) : list jstr :=
  match text with
  | JStr t => [t]
  | _ => []
  end.

(** The body of [for (const c of item.content)]. *)
Definition contentChunks (c : JsVal Num) : list jstr :=
  if js_is (get c "type") (lit "output_text") && typeof_string (get c "text")
  then pushText (get c "text")
  else if js_is (get c "type") (lit "text") && typeof_string (get c "text")
  then pushText (get c "text")
  else if typeof_string (get c "text")
  then pushText (get c "text")
  else [].

(** The body of [for (const item of output)]. *)
Definition itemChunks (item : JsVal Num) : list jstr :=
  if js_is (get item "type") (lit "message")
  then match get item "content" with
       | JArr content => flat_map contentChunks content
       | _ => []
       end
  else [].

Definition extractResponseText (data : JsVal Num) : jstr :=
  let output := match get data "output" with
                | JArr items => items
                | _ => []
                end in
  let chunks := flat_map itemChunks output in
  let chunks' :=
    match get data "output_text" with
    | JStr t => if nonempty (trim t) then chunks ++ [t] else chunks
    | _ => chunks
    end in
  trim (join_with [10%N] chunks').

(** [safeJsonParse]; the result [null] is [JNull]. *)
Definition safeJsonParse (text : jstr) : JsVal Num :=
  if negb (nonempty text) then JNull
  else
    match JSON_parse text with
    | Ret v => v
    | Throw _ =>
        match indexOf 123 text, lastIndexOf 125 text with
        | Some first, Some last =>
            if Nat.ltb first last
            then match JSON_parse (sliceSpan first last text) with
                 | Ret v => v
                 | Throw _ => JNull
                 end
            else JNull
        | _, _ => JNull
        end
    end.

(** [summarizeTranscript({ title, channelName, transcriptText, maxBullets })];
    the request is logged with the bearer key and the user message. *)
Definition summarizeTranscript (title channelName transcriptText : jstr)
  (maxBullets : Z) : M Summary :=
  match OPENAI_API_KEY ocfg with
  | None | Some [] =>
      throw (mkError (lit "Error") (lit "Missing OPENAI_API_KEY"))
  | Some (c :: k) =>
      let apiKey := c :: k in
      let clipped := slice0 18000 transcriptText in
      resp <- fetch w apiKey (userPrompt title channelName clipped) ;;
      if negb (res_ok resp) then
        text <- try_catch (await (res_text resp)) (fun _ => ret []) ;;
        ret (apiErrorSummary (res_status resp) text)
      else
        data <- await (res_json resp) ;;
        let out := trim (extractResponseText data) in
        if negb (nonempty out) then ret emptyOutputSummary
        else
          let parsed := safeJsonParse out in
          if negb (truthy parsed) then ret badFormatSummary
          else await (normalizeSummary parsed maxBullets)
  end.

End Summarizer.

(** ** Rendering helpers (email.mjs) *)

(** [escapeHtml] on a string *)
Definition escapeHtml (str : jstr) : jstr :=
  let s1 := replaceAll (lit "&") (lit "&amp;") str in
  let s2 := replaceAll (lit "<") (lit "&lt;") s1 in
  let s3 := replaceAll (lit ">") (lit "&gt;") s2 in
  let s4 := replaceAll [34%N] (lit "&quot;") s3 in
  replaceAll (lit "'") (lit "&#39;") s4.

(** [safeUrl] on a string *)
Definition safeUrl (u : jstr) : jstr :=
  let s := trim u in
  if starts_with (lit "http://") s || starts_with (lit "https://") s
  then s
  else lit "#".

Section Rendering.

(** [String.prototype.toLowerCase]. *)
Variable toLowerCase : jstr -> jstr.

(** [formatReason(raw)], [raw] being [item.reason] ([None] when the item
    has none). *)
Definition formatReason (raw : option jstr) : jstr :=
  let s := trim (match raw with
                 | Some r => r
                 | None => []
                 end) in
  if negb (nonempty s) then lit "No transcript/captions available."
  else
    let lower := toLowerCase s in
    if includes (lit "no_transcript") lower || includes (lit "no transcript") lower
    then lit "No transcript/captions available on YouTube."
    else if includes (lit "too_short") lower
    then lit "Transcript exists but is too short to summarize reliably."
    else if includes (lit "scrapingdog") lower && includes (lit "502") lower
    then lit "Transcript provider temporarily unavailable (502)."
    else if includes (lit "502") lower || includes (lit "bad gateway") lower
    then lit "Temporary upstream error (502)."
    else if includes (lit "429") lower || includes (lit "rate") lower
    then lit "Rate-limited temporarily. Will retry next run."
    else if includes (lit "timeout") lower || includes (lit "timed out") lower
    then lit "Request timed out while fetching transcript."
    else if includes (lit "fetch failed") lower || includes (lit "network") lower
    then lit "Network error while fetching transcript."
    else if includes (lit "<!doctype html") lower || includes (lit "<html") lower
    then lit "Transcript provider returned an unexpected response."
    else if (140 <? Z.of_nat (length s))
    then slice0 137 s ++ lit "..."
    else s.

End Rendering.

(** ** Further concrete inputs *)

Definition syntaxError : JsError :=
  mkError (lit "SyntaxError") (lit "Unexpected token").

Definition fetchFailed : JsError := mkError (lit "TypeError") (lit "fetch failed").

Definition statusResponse (status : Z) (body : jstr) : Response Z :=
  {| res_status := status; res_text := Ret body; res_json := Throw syntaxError |}.

Definition notFoundWorld : World Z :=
  constWorld (Responded (statusResponse 404 (lit "Not found"))).

Definition unavailableWorld : World Z :=
  constWorld (Responded (statusResponse 503 (lit "Service  Unavailable"))).

Definition rejectingWorld : World Z := constWorld (Rejected fetchFailed).

(** Two answers 503, then a usable transcript. *)
Definition recoveringWorld : World Z :=
  {| net := fun k => match k with
                     | O | S O => Responded (statusResponse 503 [])
                     | _ => Responded (okResponse longBody)
                     end;
     random := fun _ => 0%Q |}.

(** [SCRAPINGDOG_MAX_ATTEMPTS=1.5] *)
Definition fractionalConfig : FetchConfig :=
  {| SCRAPINGDOG_API_KEY := Some (lit "k"); maxAttempts := 1.5;
     baseDelayMs := 800 |}.

(** Four segments: texts with entities and runs of whitespace, and one
    segment without text. *)
Definition spokenBody : JsVal Z :=
  JObj [(lit "transcripts",
         JArr [textSegment (lit "  Tom &amp; Jerry  ");
               textSegment (repeat 97%N 100 ++ [10; 10]%N ++ repeat 98%N 100);
               JObj [(lit "start", JNum 3)];
               textSegment (lit "it&#39;s   done ")])].

(** A segment whose text is the parsed object [{"toString": 1}]. *)
Definition ownToStringBody : JsVal Z :=
  JObj [(lit "transcripts",
         JArr [JObj [(lit "text", JObj [(lit "toString", JNum 1)])]])].

(** A configuration whose daily cap is 1, and one whose daily cap was set
    to [2.5]. *)
Definition singleCapConfig : DigestConfig :=
  {| frequency := lit "daily";
     CAP_WEEKLY_PER_SECTION := 15;
     CAP_DAILY_PER_SECTION := 1 |}.

Definition fractionalCapConfig : DigestConfig :=
  {| frequency := lit "daily";
     CAP_WEEKLY_PER_SECTION := 15;
     CAP_DAILY_PER_SECTION := 2.5 |}.

(** An answer whose segment text does not convert, then a 503, then a
    usable transcript. *)
Definition stubbornWorld : World Z :=
  {| net := fun k => match k with
                     | O => Responded (okResponse ownToStringBody)
                     | S O => Responded (statusResponse 503 [])
                     | _ => Responded (okResponse longBody)
                     end;
     random := fun _ => 0%Q |}.

Definition threeVideos : list VideoRecord :=
  [demoVideo "a" "2024-01-01"; demoVideo "b" "2024-01-03";
   demoVideo "c" "2024-01-05"].

Definition noAttemptsConfig : FetchConfig :=
  {| SCRAPINGDOG_API_KEY := Some (lit "k"); maxAttempts := 0; baseDelayMs := 800 |}.

Definition noKeyConfig : FetchConfig :=
  {| SCRAPINGDOG_API_KEY := None; maxAttempts := 3; baseDelayMs := 800 |}.

Definition demoChannelId : jstr := lit "UCabcdefghijklmnopqrstuv".

Definition demoPage : jstr :=
  lit "<html>" ++ [34%N] ++ lit "channelId" ++ [34%N] ++ lit ":" ++ [34%N]
  ++ demoChannelId ++ [34%N] ++ lit "</html>".

Definition demoFeed : jstr :=
  lit "<feed><title>Chan</title><entry><title>Hello</title><link href="
  ++ [34%N] ++ lit "https://www.youtube.com/watch?v=abc123" ++ [34%N]
  ++ lit "/><published>2024-01-02T00:00:00+00:00</published></entry></feed>".

(** The channel page, its feed, then the sentinel for every transcript. *)
Definition feedWorld : World Z :=
  {| net := fun k => match k with
                     | O => Responded (statusResponse 200 demoPage)
                     | S O => Responded (statusResponse 200 demoFeed)
                     | _ => Responded (okResponse sentinelBody)
                     end;
     random := fun _ => 0%Q |}.

Definition demoChannel : Channel :=
  {| ch_name := lit "Chan"; ch_url := lit "https://www.youtube.com/@chan" |}.

Definition demoPack : Pack :=
  {| pack_label := lit "General News";
     pack_channels := [ {| ch_name := lit "Later"; ch_url := lit "PASTE_URL" |};
                        demoChannel ] |}.

Definition demoFeedConfig : FeedConfig :=
  {| MAX_VIDEOS_PER_CHANNEL := 3; MAX_AGE_DAYS_DAILY := 2;
     MAX_AGE_DAYS_WEEKLY := 9 |}.

Definition demoDateParse (_ : jstr) : option Z := Some 1704153600000.
Definition demoDateNow (_ : State) (_ : nat) : Z := 1704240000000.

Definition demoEntry : FeedEntry :=
  {| fe_title := lit "Hello";
     fe_url := lit "https://www.youtube.com/watch?v=abc123";
     fe_videoId := lit "abc123";
     fe_publishedAt := lit "2024-01-02T00:00:00+00:00" |}.

Definition demoOpenAIConfig : OpenAIConfig :=
  {| OPENAI_API_KEY := Some (lit "sk"); OPENAI_MODEL := lit "gpt-4o-mini" |}.

Definition demoParsed : JsVal Z :=
  JObj [(lit "one_liner", JStr (lit "A talk."));
        (lit "key_points", JArr [JStr (lit " one ")])].

(** A parser that only knows the text [{}]. *)
Definition demoJsonParse (text : jstr) : Exec (JsVal Z) :=
  if str_eqb text (lit "{}") then Ret demoParsed else Throw syntaxError.

(** A parser whose every result is [{"one_liner": {"toString": 1}}]. *)
Definition ownToStringParse (_ : jstr) : Exec (JsVal Z) := Ret ownToStringInput.

Definition modelAnswer : JsVal Z :=
  JObj [(lit "output",
         JArr [JObj [(lit "type", JStr (lit "message"));
                     (lit "content",
                      JArr [JObj [(lit "type", JStr (lit "output_text"));
                                  (lit "text", JStr (lit "Here: {} done"))]])]])].

Definition openaiWorld : World Z := constWorld (Responded (okResponse modelAnswer)).

(** A usable transcript, then a rejected request. *)
Definition summarizerDownWorld : World Z :=
  {| net := fun k => match k with
                     | O => Responded (okResponse longBody)
                     | _ => Rejected fetchFailed
                     end;
     random := fun _ => 0%Q |}.

(** * Properties *)

(** ** Strings and slices *)

Lemma slice0_length_le {A} (n : Z) (l : list A) :
  0 <= n -> Z.of_nat (length (slice0 n l)) <= n.
Proof.
  intros Hn. unfold slice0.
  destruct (Z.ltb_spec n 0) as [Hneg | _]; [lia |].
  rewrite length_firstn. lia.
Qed.

Lemma slice0_nonempty {A} (n : Z) (l : list A) :
  0 < n -> l <> [] -> slice0 n l <> [].
Proof.
  intros Hn Hl. unfold slice0.
  destruct (Z.ltb_spec n 0) as [Hneg | _]; [lia |].
  destruct l as [| x r]; [congruence |].
  assert (Hpos : 0 < Z.min n (Z.of_nat (length (x :: r)))) by (simpl length; lia).
  destruct (Z.to_nat (Z.min n (Z.of_nat (length (x :: r))))) eqn:E; [lia |].
  simpl. discriminate.
Qed.

Lemma slice0_incl {A} (n : Z) (l : list A) (x : A) :
  In x (slice0 n l) -> In x l.
Proof.
  unfold slice0. intros Hin.
  rewrite <- (firstn_skipn (Z.to_nat (if n <? 0
                                       then Z.max (Z.of_nat (length l) + n) 0
                                       else Z.min n (Z.of_nat (length l)))) l).
  apply in_or_app. now left.
Qed.

Lemma slice0_all {A} (n : Z) (l : list A) :
  Z.of_nat (length l) <= n -> slice0 n l = l.
Proof.
  intros Hle. unfold slice0.
  destruct (Z.ltb_spec n 0) as [Hneg | _]; [lia |].
  apply firstn_all2. lia.
Qed.

(** Dropping the fraction of a number that is not negative leaves an
    integer that is not negative and not above the number. *)
Lemma js_trunc_nonneg (q : Q) :
  (0 <= q)%Q -> 0 <= js_trunc q /\ (inject_Z (js_trunc q) <= q)%Q.
Proof.
  intros Hq. unfold js_trunc.
  rewrite (proj2 (Qle_bool_iff 0 q) Hq). split; [| apply Qfloor_le].
  change 0 with (Qfloor 0). now apply Qfloor_resp_le.
Qed.

Lemma js_trunc_whole (z : Z) : js_trunc (inject_Z z) = z.
Proof.
  unfold js_trunc. destruct (Qle_bool 0 (inject_Z z));
    [apply Qfloor_Z | apply Qceiling_Z].
Qed.

Lemma dropwhile_head {A} (p : A -> bool) (l : list A) (x : A) (r : list A) :
  dropwhile p l = x :: r -> p x = false.
Proof.
  induction l as [| y l IH]; simpl; [discriminate |].
  destruct (p y) eqn:Ey; [exact IH |].
  intros E. injection E as -> _. exact Ey.
Qed.

Lemma dropwhile_split {A} (p : A -> bool) (l : list A) :
  exists pre, l = pre ++ dropwhile p l.
Proof.
  induction l as [| y l [pre IH]]; simpl.
  - now exists [].
  - destruct (p y).
    + exists (y :: pre). simpl. now f_equal.
    + now exists [].
Qed.

Lemma trimEnd_last (s : jstr) (c d : N) (r : jstr) :
  trimEnd s = c :: r -> is_ws (last (trimEnd s) d) = false.
Proof.
  unfold trimEnd. intros E.
  destruct (dropwhile is_ws (rev s)) as [| x t] eqn:Ed; [discriminate |].
  simpl rev. rewrite last_last. eapply dropwhile_head; eauto.
Qed.

Lemma trimEnd_prefix (s : jstr) : exists suf, s = trimEnd s ++ suf.
Proof.
  unfold trimEnd.
  destruct (dropwhile_split is_ws (rev s)) as [pre Hpre].
  exists (rev pre).
  rewrite <- rev_app_distr, <- Hpre. now rewrite rev_involutive.
Qed.

Lemma trim_is_trimmed (s : jstr) : is_trimmed (trim s) = true.
Proof.
  unfold trim.
  destruct (trimEnd (trimStart s)) as [| c r] eqn:E; [reflexivity |].
  pose proof (trimEnd_last _ c c r E) as Hlast. rewrite E in Hlast.
  destruct (trimEnd_prefix (trimStart s)) as [suf Hsuf].
  rewrite E in Hsuf. simpl in Hsuf.
  unfold trimStart in Hsuf.
  unfold is_trimmed.
  rewrite Hlast, (dropwhile_head is_ws s c (r ++ suf) Hsuf). reflexivity.
Qed.

Lemma nonempty_true (s : jstr) : nonempty s = true <-> s <> [].
Proof.
  unfold nonempty. destruct s; simpl; split; congruence.
Qed.

Lemma str_or_nonempty (s fallback : jstr) :
  fallback <> [] -> str_or s fallback <> [].
Proof.
  destruct s; simpl; congruence.
Qed.

(** ** The summary normalizer *)

Section NormalizerFacts.
Context {Num : Type} `{JsNumber Num}.

Lemma to_string_ret (v : JsVal Num) :
  stringifies v = true -> to_string v = Ret (render v).
Proof.
  intros Hv. unfold to_string. now rewrite Hv.
Qed.

Lemma to_string_throws (v : JsVal Num) :
  stringifies v = false -> to_string v = Throw typeError.
Proof.
  intros Hv. unfold to_string. now rewrite Hv.
Qed.

(** Converting the entries one by one throws at the first that does not
    convert. *)
Lemma exec_map_to_string (l : list (JsVal Num)) :
  exec_map (fun x => let! s := to_string x in Ret (trim s)) l
  = if forallb stringifies l
    then Ret (map (fun x => trim (render x)) l)
    else Throw typeError.
Proof.
  induction l as [| x l IH]; [reflexivity |].
  cbn [exec_map forallb map]. unfold to_string at 1.
  destruct (stringifies x); cbn [exec_bind andb]; [| reflexivity].
  rewrite IH. destruct (forallb stringifies l); reflexivity.
Qed.

(** [normalizeSummary] throws exactly when one of the values it converts
    does not convert, and returns [summaryOf] otherwise. *)
Lemma normalizeSummary_cases (obj : JsVal Num) (maxBullets : Z) :
  normalizeSummary obj maxBullets
  = if forallb stringifies (summaryTexts obj)
    then Ret (summaryOf obj maxBullets)
    else Throw typeError.
Proof.
  unfold normalizeSummary, summaryTexts, summaryOf. cbn [forallb].
  unfold to_string at 1.
  destruct (stringifies (js_or (get obj "one_liner") (JStr [])));
    cbn [exec_bind andb]; [| reflexivity].
  unfold to_string at 1.
  destruct (stringifies (js_or (get obj "who_should_watch") (JStr [])));
    cbn [exec_bind andb]; [| reflexivity].
  rewrite exec_map_to_string.
  destruct (forallb stringifies _); reflexivity.
Qed.

Lemma coerce_blank (v : JsVal Num) :
  v = JUndef \/ v = JStr [] ->
  trim (render (js_or v (JStr []))) = [].
Proof.
  intros [-> | ->]; reflexivity.
Qed.

(** The summary returned when nothing throws is well formed. *)
Lemma summaryOf_wellformed (obj : JsVal Num) (maxBullets : Z) :
  let s := summaryOf obj maxBullets in
  (one_liner s <> [] /\ Z.of_nat (length (one_liner s)) <= 220)
  /\ ((0 <= maxBullets -> Z.of_nat (length (key_points s)) <= maxBullets)
      /\ Forall (fun p => p <> [] /\ is_trimmed p = true) (key_points s))
  /\ (who_should_watch s <> [] /\ Z.of_nat (length (who_should_watch s)) <= 180)
  /\ (get obj "one_liner" = JUndef \/ get obj "one_liner" = JStr [] ->
      one_liner s = lit "Summary unavailable.")
  /\ (get obj "who_should_watch" = JUndef \/ get obj "who_should_watch" = JStr [] ->
      who_should_watch s = lit "Anyone who wants a neutral overview.").
Proof.
  cbv zeta. unfold summaryOf. cbn [one_liner key_points who_should_watch].
  repeat split.
  - apply slice0_nonempty; [lia |]. apply str_or_nonempty. discriminate.
  - apply slice0_length_le. lia.
  - intros Hmax. apply slice0_length_le. exact Hmax.
  - apply Forall_forall. intros p Hp.
    apply slice0_incl in Hp. apply filter_In in Hp. destruct Hp as [Hin Hne].
    apply in_map_iff in Hin. destruct Hin as [x [<- _]].
    split; [now apply nonempty_true | apply trim_is_trimmed].
  - apply slice0_nonempty; [lia |]. apply str_or_nonempty. discriminate.
  - apply slice0_length_le. lia.
  - intros Hblank. rewrite (coerce_blank _ Hblank). reflexivity.
  - intros Hblank. rewrite (coerce_blank _ Hblank). reflexivity.
Qed.

(** C2, amended: for every input value in which each value handed to
    [String] converts (no object with an own [toString] property among the
    two text fields and the key points, at any depth of arrays) and every
    non-negative [maxBullets], [normalizeSummary] returns a summary whose
    [one_liner] is non-empty and at most 220 code units long, whose
    [key_points] are at most [maxBullets] non-empty strings without leading
    or trailing whitespace, and whose [who_should_watch] is non-empty and at
    most 180 code units long; the fallback texts are used when the input
    field is absent or empty. *)
Theorem normalizeSummary_wellformed (obj : JsVal Num) (maxBullets : Z)
  (Hmax : 0 <= maxBullets)
  (Hconv : forallb stringifies (summaryTexts obj) = true) :
  exists s,
    normalizeSummary obj maxBullets = Ret s
    /\ (one_liner s <> [] /\ Z.of_nat (length (one_liner s)) <= 220)
    /\ (Z.of_nat (length (key_points s)) <= maxBullets
        /\ Forall (fun p => p <> [] /\ is_trimmed p = true) (key_points s))
    /\ (who_should_watch s <> []
        /\ Z.of_nat (length (who_should_watch s)) <= 180)
    /\ (get obj "one_liner" = JUndef \/ get obj "one_liner" = JStr [] ->
        one_liner s = lit "Summary unavailable.")
    /\ (get obj "who_should_watch" = JUndef
        \/ get obj "who_should_watch" = JStr [] ->
        who_should_watch s = lit "Anyone who wants a neutral overview.").
Proof.
  exists (summaryOf obj maxBullets).
  rewrite normalizeSummary_cases, Hconv.
  destruct (summaryOf_wellformed obj maxBullets)
    as [Hone [[Hlen Hpts] [Hwho [Hfb1 Hfb2]]]].
  repeat split; auto; try apply Hone; try apply Hwho.
Qed.

End NormalizerFacts.

Lemma normalizeSummary_wellformed_witness :
  exists s,
    normalizeSummary mixedSummaryInput 3 = Ret s
    /\ one_liner s = lit "A talk about maps."
    /\ key_points s = [lit "first"; lit "null"; lit "7"]
    /\ who_should_watch s = lit "Anyone who wants a neutral overview."
    /\ Forall (fun p => p <> [] /\ is_trimmed p = true) (key_points s).
Proof.
  assert (Hconv : forallb stringifies (summaryTexts mixedSummaryInput) = true)
    by (vm_compute; reflexivity).
  destruct (normalizeSummary_wellformed mixedSummaryInput 3
              ltac:(lia) Hconv) as [s [Hrun [_ [[_ Hpts] _]]]].
  exists s. split; [exact Hrun |].
  vm_compute in Hrun. injection Hrun as <-.
  repeat split; try reflexivity. exact Hpts.
Defined.

(** C2 as stated fails in two ways.  For a negative bound, [slice(0, -1)]
    drops the last entry instead of keeping none, so one key point survives
    where the bound is [-1].  And for the parsed input
    [{"one_liner": {"toString": 1}}], [String] finds the own property
    instead of a function and throws a [TypeError]. *)
Lemma normalizeSummary_not_unconditional :
  (exists s,
     normalizeSummary twoPointsInput (-1) = Ret s
     /\ key_points s = [lit "a"]
     /\ ~ (Z.of_nat (length (key_points s)) <= -1))
  /\ normalizeSummary ownToStringInput 5 = Throw typeError.
Proof.
  split; [| reflexivity].
  eexists. split; [reflexivity |]. split; [reflexivity |].
  vm_compute. intros Hle. apply Hle. reflexivity.
Qed.

(** ** String comparison *)

Lemma str_eqb_eq (a b : jstr) : str_eqb a b = true <-> a = b.
Proof.
  revert b. induction a as [| x a IH]; intros [| y b]; simpl;
    try (split; congruence).
  rewrite andb_true_iff, N.eqb_eq, IH. split.
  - intros [-> ->]. reflexivity.
  - intros E. injection E as -> ->. now split.
Qed.

Lemma str_eqb_refl (a : jstr) : str_eqb a a = true.
Proof. now apply str_eqb_eq. Qed.

Lemma str_eqb_neq (a b : jstr) : str_eqb a b = false <-> a <> b.
Proof.
  rewrite <- str_eqb_eq. destruct (str_eqb a b); split; congruence.
Qed.

Lemma str_lt_asym (a b : jstr) : str_lt a b = true -> str_lt b a = false.
Proof.
  revert b. induction a as [| x a IH]; intros [| y b]; simpl; try congruence.
  rewrite orb_true_iff, andb_true_iff, N.ltb_lt, N.eqb_eq.
  intros [Hlt | [-> Hrec]].
  - apply orb_false_iff. split; [apply N.ltb_ge; lia |].
    apply andb_false_iff. left. apply N.eqb_neq. lia.
  - rewrite N.ltb_irrefl, N.eqb_refl. simpl. now apply IH.
Qed.

Lemma str_lt_trans (a b c : jstr) :
  str_lt a b = true -> str_lt b c = true -> str_lt a c = true.
Proof.
  revert b c. induction a as [| x a IH]; intros [| y b] [| z c]; simpl;
    try congruence.
  rewrite !orb_true_iff, !andb_true_iff, !N.ltb_lt, !N.eqb_eq.
  intros [Hxy | [-> Hab]] [Hyz | [-> Hbc]].
  - left. lia.
  - now left.
  - now left.
  - right. split; [reflexivity | eapply IH; eauto].
Qed.

Lemma str_lt_total (a b : jstr) :
  str_lt a b = false -> str_lt b a = false -> a = b.
Proof.
  revert b. induction a as [| x a IH]; intros [| y b]; simpl; try congruence.
  rewrite !orb_false_iff, !andb_false_iff, !N.ltb_ge, !N.eqb_neq.
  intros [Hyx [Hne | Hab]] [Hxy [Hne' | Hba]]; try lia.
  assert (x = y) by lia. subst y. f_equal. now apply IH.
Qed.

(** "Not published before" is transitive. *)
Lemma str_ge_trans (a b c : jstr) :
  str_lt a b = false -> str_lt b c = false -> str_lt a c = false.
Proof.
  intros Hab Hbc.
  destruct (str_lt a c) eqn:Hac; [| reflexivity].
  destruct (str_lt b a) eqn:Hba.
  - rewrite (str_lt_trans b a c Hba Hac) in Hbc. discriminate.
  - rewrite (str_lt_total a b Hab Hba) in Hac. congruence.
Qed.

(** ** The array sort *)

Section SortFacts.
Context {A : Type}.
Variable cmp : A -> A -> Z.

Lemma sort_insert_perm (x : A) (l : list A) :
  Permutation (sort_insert cmp x l) (x :: l).
Proof.
  induction l as [| y l IH]; simpl; [reflexivity |].
  destruct (cmp x y <? 0); [reflexivity |].
  rewrite IH. apply perm_swap.
Qed.

Lemma js_sort_perm_acc (l acc : list A) :
  Permutation (fold_left (fun acc x => sort_insert cmp x acc) l acc) (acc ++ l).
Proof.
  revert acc. induction l as [| x l IH]; intros acc; simpl.
  - now rewrite app_nil_r.
  - rewrite IH, sort_insert_perm. apply Permutation_middle.
Qed.

Lemma js_sort_perm (l : list A) : Permutation (js_sort cmp l) l.
Proof. unfold js_sort. now rewrite js_sort_perm_acc. Qed.

Lemma js_sort_length (l : list A) : length (js_sort cmp l) = length l.
Proof. apply Permutation_length, js_sort_perm. Qed.

(** The two assumptions say that [putsBefore cmp] is a total preorder. *)
Hypothesis before_total :
  forall x y, (cmp x y <? 0) = false -> putsBefore cmp y x.
Hypothesis before_trans :
  forall x y z, putsBefore cmp x y -> putsBefore cmp y z -> putsBefore cmp x z.

Lemma sort_insert_sorted (x : A) (l : list A) :
  StronglySorted (putsBefore cmp) l ->
  StronglySorted (putsBefore cmp) (sort_insert cmp x l).
Proof.
  induction 1 as [| y l Hs IH Hall]; simpl.
  - repeat constructor.
  - destruct (cmp x y <? 0) eqn:E.
    + constructor; [now constructor |].
      constructor; [exact E |].
      eapply Forall_impl; [| exact Hall].
      intros z Hyz. eapply before_trans; eauto.
    + constructor; [exact IH |].
      apply Forall_forall. intros z Hz.
      apply (Permutation_in _ (sort_insert_perm x l)) in Hz.
      destruct Hz as [<- | Hz]; [now apply before_total |].
      rewrite Forall_forall in Hall. now apply Hall.
Qed.

Lemma js_sort_sorted (l : list A) :
  StronglySorted (putsBefore cmp) (js_sort cmp l).
Proof.
  unfold js_sort.
  assert (Hacc : forall acc,
            StronglySorted (putsBefore cmp) acc ->
            StronglySorted (putsBefore cmp)
              (fold_left (fun acc x => sort_insert cmp x acc) l acc)).
  { induction l as [| x l IH]; intros acc Hs; simpl; [exact Hs |].
    apply IH. now apply sort_insert_sorted. }
  apply Hacc. constructor.
Qed.

End SortFacts.

Lemma StronglySorted_weaken {A} (R R' : A -> A -> Prop) (l : list A) :
  (forall a b, R a b -> R' a b) -> StronglySorted R l -> StronglySorted R' l.
Proof.
  intros Himp. induction 1 as [| a l Hs IH Hall]; constructor; [exact IH |].
  eapply Forall_impl; [| exact Hall]. intros b. apply Himp.
Qed.

Lemma byRecency_sorted {A} (published : A -> jstr) (l : list A) :
  recentFirst published (js_sort (byRecency published) l).
Proof.
  unfold recentFirst.
  apply StronglySorted_weaken with (R := putsBefore (byRecency published)).
  - intros a b. unfold putsBefore, byRecency.
    destruct (str_lt (published a) (published b)); intros Hc;
      [cbv in Hc; discriminate Hc | reflexivity].
  - apply js_sort_sorted.
    + intros x y. unfold putsBefore, byRecency.
      destruct (str_lt (published x) (published y)) eqn:E; intros Hc;
        [| cbv in Hc; discriminate Hc].
      now rewrite (str_lt_asym _ _ E).
    + intros x y z. unfold putsBefore, byRecency.
      destruct (str_lt (published x) (published y)) eqn:Exy; intros Hc;
        [cbv in Hc; discriminate Hc |].
      destruct (str_lt (published y) (published z)) eqn:Eyz; intros Hc';
        [cbv in Hc'; discriminate Hc' |].
      now rewrite (str_ge_trans _ _ _ Exy Eyz).
Qed.

(** ** The deduplication map *)

Section MapFacts.
Context {V : Type}.

Lemma map_get_set (k k' : jstr) (v : V) (m : list (jstr * V)) :
  map_get k (map_set k' v m) = if str_eqb k k' then Some v else map_get k m.
Proof.
  induction m as [| [k2 v2] m IH]; simpl; [reflexivity |].
  destruct (str_eqb k' k2) eqn:E2; simpl.
  - apply str_eqb_eq in E2. subst k2.
    destruct (str_eqb k k'); reflexivity.
  - rewrite IH.
    destruct (str_eqb k k2) eqn:E; [| reflexivity].
    apply str_eqb_eq in E. subst k2.
    destruct (str_eqb k k') eqn:E'; [| reflexivity].
    apply str_eqb_eq in E'. subst k'. rewrite str_eqb_refl in E2. discriminate.
Qed.

Lemma map_set_keys (k : jstr) (v : V) (m : list (jstr * V)) :
  map fst (map_set k v m) =
  if existsb (str_eqb k) (map fst m) then map fst m else map fst m ++ [k].
Proof.
  induction m as [| [k2 v2] m IH]; simpl; [reflexivity |].
  destruct (str_eqb k k2) eqn:E; simpl.
  - apply str_eqb_eq in E. now subst k2.
  - rewrite IH. destruct (existsb (str_eqb k) (map fst m)); reflexivity.
Qed.

Lemma map_set_NoDup (k : jstr) (v : V) (m : list (jstr * V)) :
  NoDup (map fst m) -> NoDup (map fst (map_set k v m)).
Proof.
  intros Hnd. rewrite map_set_keys.
  destruct (existsb (str_eqb k) (map fst m)) eqn:E; [exact Hnd |].
  apply NoDup_app; [exact Hnd | repeat constructor; intros [] |].
  intros x Hx [<- | []].
  assert (Hex : existsb (str_eqb k) (map fst m) = true).
  { apply existsb_exists. exists k. split; [exact Hx | apply str_eqb_refl]. }
  congruence.
Qed.

Lemma map_get_In (k : jstr) (v : V) (m : list (jstr * V)) :
  NoDup (map fst m) -> (In (k, v) m <-> map_get k m = Some v).
Proof.
  induction m as [| [k2 v2] m IH]; simpl; intros Hnd.
  - split; [intros [] | discriminate].
  - inversion Hnd as [| ? ? Hnotin Hnd']; subst.
    destruct (str_eqb k k2) eqn:E.
    + apply str_eqb_eq in E. subst k2. split.
      * intros [Heq | Hin]; [congruence |].
        exfalso. apply Hnotin. apply in_map_iff. now exists (k, v).
      * intros Heq. left. congruence.
    + apply str_eqb_neq in E. rewrite <- (IH Hnd'). split.
      * intros [Heq | Hin]; [congruence | exact Hin].
      * intros Hin. now right.
Qed.

End MapFacts.

Lemma find_snoc {A} (p : A -> bool) (l : list A) (x : A) :
  find p (l ++ [x]) =
  match find p l with
  | Some y => Some y
  | None => if p x then Some x else None
  end.
Proof.
  induction l as [| y l IH]; simpl; [reflexivity |].
  destruct (p y); [reflexivity | exact IH].
Qed.

Lemma dedup_fold_get (id : jstr) (l : list VideoRecord)
  (m0 : list (jstr * VideoRecord)) :
  map_get id (fold_left (fun dedup v => map_set (videoId v) v dedup) l m0) =
  match lastWithId id l with
  | Some v => Some v
  | None => map_get id m0
  end.
Proof.
  revert m0. unfold lastWithId.
  induction l as [| v l IH]; intros m0; simpl; [reflexivity |].
  rewrite IH, find_snoc, map_get_set.
  destruct (find (fun v0 => str_eqb id (videoId v0)) (rev l)); [reflexivity |].
  destruct (str_eqb id (videoId v)); reflexivity.
Qed.

Lemma dedup_fold_NoDup (l : list VideoRecord) (m0 : list (jstr * VideoRecord)) :
  NoDup (map fst m0) ->
  NoDup (map fst (fold_left (fun dedup v => map_set (videoId v) v dedup) l m0)).
Proof.
  revert m0. induction l as [| v l IH]; intros m0 Hnd; simpl; [exact Hnd |].
  apply IH. now apply map_set_NoDup.
Qed.

Lemma lastWithId_id (id : jstr) (l : list VideoRecord) (v : VideoRecord) :
  lastWithId id l = Some v -> videoId v = id /\ In v l.
Proof.
  unfold lastWithId. intros Hf. apply find_some in Hf. destruct Hf as [Hin He].
  apply str_eqb_eq in He. split; [congruence | now apply in_rev].
Qed.

Lemma lastWithId_present (id : jstr) (l : list VideoRecord) :
  In id (map videoId l) -> exists v, lastWithId id l = Some v.
Proof.
  intros Hin. apply in_map_iff in Hin. destruct Hin as [v [Hid Hv]].
  unfold lastWithId.
  destruct (find (fun v0 => str_eqb id (videoId v0)) (rev l)) as [u |] eqn:E;
    [now exists u |].
  exfalso.
  pose proof (find_none _ _ E v (proj1 (in_rev l v) Hv)) as Hn.
  simpl in Hn. rewrite <- Hid, str_eqb_refl in Hn. discriminate.
Qed.

Lemma dedupMap_entries (k : jstr) (v : VideoRecord) (l : list VideoRecord) :
  In (k, v) (dedupMap l) <-> lastWithId k l = Some v.
Proof.
  unfold dedupMap.
  rewrite map_get_In by (apply dedup_fold_NoDup; constructor).
  rewrite dedup_fold_get. simpl.
  destruct (lastWithId k l); split; congruence.
Qed.

Lemma dedupMap_values (v : VideoRecord) (l : list VideoRecord) :
  In v (map_values (dedupMap l)) <-> lastWithId (videoId v) l = Some v.
Proof.
  unfold map_values. rewrite in_map_iff. split.
  - intros [[k u] [Hu Hin]]. simpl in Hu. subst u.
    apply dedupMap_entries in Hin.
    destruct (lastWithId_id _ _ _ Hin) as [<- _]. exact Hin.
  - intros Hl. exists (videoId v, v). split; [reflexivity |].
    now apply dedupMap_entries.
Qed.

Lemma dedupMap_ids (l : list VideoRecord) :
  map videoId (map_values (dedupMap l)) = map fst (dedupMap l).
Proof.
  unfold map_values. rewrite map_map. apply map_ext_in.
  intros [k v] Hin. simpl.
  apply dedupMap_entries in Hin. now destruct (lastWithId_id _ _ _ Hin).
Qed.

(** C5: the deduplicated output holds exactly one record per distinct
    video identifier of the collected sequence, that record is the one
    inserted last under the identifier, and the output is ordered by
    publication timestamp, most recent first. *)
Theorem dedupVideos_last_write_wins (allVideos : list VideoRecord) :
  NoDup (map videoId (dedupVideos allVideos))
  /\ (forall id, In id (map videoId allVideos) <->
                 In id (map videoId (dedupVideos allVideos)))
  /\ (forall v, In v (dedupVideos allVideos) <->
                lastWithId (videoId v) allVideos = Some v)
  /\ recentFirst publishedAt (dedupVideos allVideos).
Proof.
  assert (Hperm : Permutation (dedupVideos allVideos)
                              (map_values (dedupMap allVideos)))
    by apply js_sort_perm.
  assert (Hmem : forall v, In v (dedupVideos allVideos) <->
                           lastWithId (videoId v) allVideos = Some v).
  { intros v. rewrite <- dedupMap_values. split; apply Permutation_in;
      [exact Hperm | now apply Permutation_sym]. }
  split; [| split; [| split]].
  - apply (Permutation_NoDup
             (Permutation_sym (Permutation_map videoId Hperm))).
    rewrite dedupMap_ids. apply dedup_fold_NoDup. constructor.
  - intros id. split.
    + intros Hin. destruct (lastWithId_present id allVideos Hin) as [v Hv].
      destruct (lastWithId_id _ _ _ Hv) as [Hid _].
      apply in_map_iff. exists v. split; [exact Hid |].
      apply Hmem. now rewrite Hid.
    + intros Hin. apply in_map_iff in Hin. destruct Hin as [v [Hid Hv]].
      apply Hmem in Hv. destruct (lastWithId_id _ _ _ Hv) as [_ Hin].
      apply in_map_iff. now exists v.
  - exact Hmem.
  - apply byRecency_sorted.
Qed.

(** ** The transcript fetcher *)

Section FetcherFacts.
Context {Num : Type} `{JsNumber Num}.
Variable w : World Num.
Variable cfg : FetchConfig.

Lemma backoff_and_continue_run (attempt : Z) (st : State) :
  backoff_and_continue w cfg attempt st = (Ret Continue, after_backoff w cfg st attempt).
Proof. reflexivity. Qed.

Lemma safeReadText_total (res : Response Num) (st : State) :
  exists t, safeReadText res st = (Ret t, st).
Proof.
  unfold safeReadText, try_catch, bind, await, ret.
  destruct (res_text res); eauto.
Qed.

Lemma safeReadJson_run (res : Response Num) (st : State) :
  safeReadJson res st =
  (Ret (match res_json res with Ret v => v | Throw _ => JNull end), st).
Proof.
  unfold safeReadJson, try_catch, await, ret.
  destruct (res_json res); reflexivity.
Qed.

Lemma below_true (a : Z) (m : Q) : below a m = true <-> (inject_Z a < m)%Q.
Proof.
  unfold below. rewrite negb_true_iff, <- not_true_iff_false, Qle_bool_iff.
  split; [apply Qnot_le_lt | apply Qlt_not_le].
Qed.

Lemma below_false (a : Z) (m : Q) : below a m = false <-> (m <= inject_Z a)%Q.
Proof.
  unfold below. rewrite negb_false_iff. apply Qle_bool_iff.
Qed.

Lemma below_spec (a : Z) (m : Q) :
  BoolSpec (inject_Z a < m)%Q (m <= inject_Z a)%Q (below a m).
Proof.
  destruct (below a m) eqn:E; constructor;
    [now apply below_true | now apply below_false].
Qed.

(** The attempt numbers of the loop are the integers from 1 that are at
    most [maxAttempts]. *)
Lemma attempt_range_spec (m : Q) (n : Z) :
  In n (attempt_range m) <-> 1 <= n /\ (inject_Z n <= m)%Q.
Proof.
  unfold attempt_range. rewrite in_map_iff. split.
  - intros [k [<- Hk]]. apply in_seq in Hk. split; [lia |].
    apply Qle_trans with (inject_Z (Qfloor m)); [| apply Qfloor_le].
    rewrite <- Zle_Qle. lia.
  - intros [H1 Hle]. exists (Z.to_nat n). split; [lia |].
    apply in_seq. apply Qfloor_resp_le in Hle. rewrite Qfloor_Z in Hle. lia.
Qed.

(** Every reason built inside the loop differs from the one after it. *)
Lemma classifyBody_known (data : JsVal Num) :
  classifyBody data <> Ret unknown_error.
Proof.
  unfold classifyBody, unknown_error.
  destruct (get data "transcripts") as [| | | | | [| first rest] |];
    try discriminate.
  destruct (Nat.eqb (length (first :: rest)) 1 && typeof_string first);
    [discriminate |].
  destruct (negb (typeof_object first)); [discriminate |].
  destruct (fullTextOf (first :: rest)) as [fullText | e]; cbn [exec_bind];
    [| discriminate].
  destruct (negb (nonempty fullText) || (Z.of_nat (length fullText) <? 200));
    discriminate.
Qed.

Lemma formatProviderError_known (status : Z) (bodyText : jstr) :
  (TFail (formatProviderError (lit "scrapingdog") status bodyText)
     : TranscriptResult Num) <> unknown_error.
Proof.
  unfold formatProviderError, unknown_error.
  destruct (includes (lit "<!doctype html>") (map ascii_lower bodyText)
            || includes (lit "<html") (map ascii_lower bodyText));
    [discriminate |].
  destruct (negb (nonempty bodyText)); discriminate.
Qed.

(** One iteration either backs off and continues, which needs a further
    attempt to remain, or returns a result; it never throws. *)
Lemma attempt_body_cases (apiKey videoId : jstr) (attempt : Z) (st : State) :
  ((inject_Z attempt < maxAttempts cfg)%Q
   /\ attempt_body w cfg apiKey videoId attempt st =
      (Ret Continue,
       after_backoff w cfg (after_fetch st apiKey videoId) attempt))
  \/ (exists r,
        attempt_body w cfg apiKey videoId attempt st =
        (Ret (Return r), after_fetch st apiKey videoId)
        /\ r <> unknown_error).
Proof.
  unfold attempt_body, try_catch, bind, fetch.
  destruct (net w (fetches st)) as [res | e].
  - destruct (res_ok res); cbn [negb]; cbv beta iota.
    + rewrite safeReadJson_run.
      destruct (negb (truthy _)).
      * destruct (below_spec attempt (maxAttempts cfg)) as [Hlt | Hge].
        -- left. split; [exact Hlt | now rewrite backoff_and_continue_run].
        -- right. eexists. split; [reflexivity | discriminate].
      * unfold await.
        destruct (classifyBody _) as [r | e] eqn:Hcls.
        -- right. exists r. split; [reflexivity |].
           intros ->. now apply classifyBody_known in Hcls.
        -- destruct (below_spec attempt (maxAttempts cfg)) as [Hlt | Hge].
           ++ left. split; [exact Hlt | now rewrite backoff_and_continue_run].
           ++ right. eexists. split; [reflexivity | discriminate].
    + destruct (safeReadText_total res (after_fetch st apiKey videoId))
        as [t ->].
      destruct (isTransientHttp (res_status res)); cbn [andb].
      * destruct (below_spec attempt (maxAttempts cfg)) as [Hlt | Hge].
        -- left. split; [exact Hlt | now rewrite backoff_and_continue_run].
        -- right. eexists. split; [reflexivity | apply formatProviderError_known].
      * right. eexists. split; [reflexivity | apply formatProviderError_known].
  - destruct (below_spec attempt (maxAttempts cfg)) as [Hlt | Hge].
    + left. split; [exact Hlt | now rewrite backoff_and_continue_run].
    + right. eexists. split; [reflexivity | discriminate].
Qed.

Lemma for_attempts_cons (apiKey videoId : jstr) (attempt : Z) (rest : list Z)
  (st : State) :
  for_attempts w cfg apiKey videoId (attempt :: rest) st =
  match attempt_body w cfg apiKey videoId attempt st with
  | (Ret Continue, st') => for_attempts w cfg apiKey videoId rest st'
  | (Ret (Return r), st') => (Ret (Some r), st')
  | (Throw e, st') => (Throw e, st')
  end.
Proof.
  simpl. unfold bind.
  destruct (attempt_body w cfg apiKey videoId attempt st) as [[[| r] | e] st'];
    reflexivity.
Qed.

(** The loop never throws. *)
Lemma for_attempts_total (apiKey videoId : jstr) (attempts : list Z) (st : State) :
  exists o st', for_attempts w cfg apiKey videoId attempts st = (Ret o, st').
Proof.
  revert st. induction attempts as [| a rest IH]; intros st.
  - simpl. unfold ret. eauto.
  - rewrite for_attempts_cons.
    destruct (attempt_body_cases apiKey videoId a st) as [[_ ->] | [r [-> _]]].
    + apply IH.
    + eauto.
Qed.

(** A loop whose last attempt number reaches [maxAttempts] returns from
    inside. *)
Lemma for_attempts_returns (apiKey videoId : jstr) (attempts : list Z)
  (st : State) :
  attempts <> [] ->
  (maxAttempts cfg <= inject_Z (last attempts 0%Z))%Q ->
  exists r st',
    for_attempts w cfg apiKey videoId attempts st = (Ret (Some r), st')
    /\ r <> unknown_error.
Proof.
  revert st. induction attempts as [| a rest IH]; intros st Hne Hlast;
    [congruence |].
  rewrite for_attempts_cons.
  destruct (attempt_body_cases apiKey videoId a st) as [[Hlt ->] | [r [-> Hr]]].
  - destruct rest as [| b rest'].
    + simpl in Hlast. lra.
    + apply IH; [discriminate | exact Hlast].
  - eauto.
Qed.

(** The range of a whole number of attempts. *)
Lemma attempt_range_whole (q : Q) (m : Z) :
  (q == inject_Z m)%Q ->
  attempt_range q = map Z.of_nat (seq 1 (Z.to_nat m)).
Proof.
  intros Hq. unfold attempt_range. now rewrite (Qfloor_comp _ _ Hq), Qfloor_Z.
Qed.

Lemma attempt_range_last (q : Q) (m : Z) :
  (q == inject_Z m)%Q -> 1 <= m ->
  attempt_range q <> [] /\ last (attempt_range q) 0 = m.
Proof.
  intros Hq Hm. rewrite (attempt_range_whole _ _ Hq).
  destruct (Z.to_nat m) as [| n] eqn:E; [lia |].
  rewrite seq_S, map_app. simpl. split.
  - intros Habs. apply app_eq_nil in Habs. destruct Habs as [_ Habs].
    discriminate.
  - rewrite last_last. lia.
Qed.



(** With the key configured the fetcher returns a result. *)
Lemma fetchTranscript_total (videoId : jstr) (st : State) (c : N) (k : jstr) :
  SCRAPINGDOG_API_KEY cfg = Some (c :: k) ->
  exists r st', fetchTranscriptFromScrapingDog w cfg videoId st = (Ret r, st').
Proof.
  intros Hkey. unfold fetchTranscriptFromScrapingDog. rewrite Hkey. unfold bind.
  destruct (for_attempts_total (c :: k) videoId
              (attempt_range (maxAttempts cfg)) st) as [[r |] [st' ->]];
    unfold ret; eauto.
Qed.

(** C1: for every video identifier, every world (sequence of upstream
    outcomes) and every state, the fetcher throws exactly when
    [SCRAPINGDOG_API_KEY] is missing, and otherwise returns a result of one
    of the two shapes. *)
Theorem fetchTranscript_throws_only_without_key (videoId : jstr) (st : State) :
  if key_missing (SCRAPINGDOG_API_KEY cfg)
  then fetchTranscriptFromScrapingDog w cfg videoId st
       = (Throw (mkError (lit "Error") (lit "Missing SCRAPINGDOG_API_KEY")), st)
  else exists (r : TranscriptResult Num) (st' : State),
         fetchTranscriptFromScrapingDog w cfg videoId st = (Ret r, st')
         /\ ((exists text segments lang, r = TOk text segments lang)
             \/ (exists reason, r = TFail reason)).
Proof.
  destruct (SCRAPINGDOG_API_KEY cfg) as [[| c k] |] eqn:Hkey; simpl key_missing;
    try (unfold fetchTranscriptFromScrapingDog; rewrite Hkey; reflexivity).
  destruct (fetchTranscript_total videoId st c k Hkey) as [r [st' Hrun]].
  exists r, st'. split; [exact Hrun |].
  destruct r; [left | right]; eauto.
Qed.

(** C10, amended: whenever [maxAttempts] is a whole number and at least 1,
    the attempt loop returns from inside on every invocation that enters
    it, so the statement after the loop is not reached: no invocation
    returns [scrapingdog_unknown_error]. *)
Theorem fetchTranscript_returns_in_loop (videoId : jstr) (m : Z)
  (Hwhole : (maxAttempts cfg == inject_Z m)%Q)
  (Hmax : (1 <= maxAttempts cfg)%Q) :
  (forall apiKey st, exists r st',
     for_attempts w cfg apiKey videoId (attempt_range (maxAttempts cfg)) st
     = (Ret (Some r), st'))
  /\ (forall st st',
        fetchTranscriptFromScrapingDog w cfg videoId st
        <> (Ret (TFail (lit "scrapingdog_unknown_error")), st')).
Proof.
  assert (Hm : 1 <= m) by (rewrite Zle_Qle, <- Hwhole; exact Hmax).
  destruct (attempt_range_last _ _ Hwhole Hm) as [Hne Hlast].
  assert (Hloop : forall apiKey st, exists r st',
            for_attempts w cfg apiKey videoId
              (attempt_range (maxAttempts cfg)) st = (Ret (Some r), st')
            /\ r <> unknown_error).
  { intros apiKey st. apply for_attempts_returns; [exact Hne |].
    rewrite Hlast. lra. }
  split.
  - intros apiKey st. destruct (Hloop apiKey st) as [r [st' [Hrun _]]]. eauto.
  - intros st st'. unfold fetchTranscriptFromScrapingDog.
    destruct (SCRAPINGDOG_API_KEY cfg) as [[| c k] |]; try discriminate.
    unfold bind.
    destruct (Hloop (c :: k) st) as [r [st1 [-> Hr]]].
    unfold ret. intros E. injection E as E _. now apply Hr.
Qed.


End FetcherFacts.

(** ** Scenarios of one attempt *)

Section FetcherScenarios.
Context {Num : Type} `{JsNumber Num}.
Variable w : World Num.
Variable cfg : FetchConfig.

Lemma get_array_truthy (data : JsVal Num) (k : String.string)
  (elems : list (JsVal Num)) :
  get data k = JArr elems -> truthy data = true.
Proof. destruct data; simpl; try discriminate. reflexivity. Qed.

Lemma attempt_body_parsed (apiKey videoId : jstr) (n : Z) (st : State)
  (res : Response Num) (data : JsVal Num) (r : TranscriptResult Num) :
  net w (fetches st) = Responded res ->
  res_ok res = true ->
  res_json res = Ret data ->
  truthy data = true ->
  classifyBody data = Ret r ->
  attempt_body w cfg apiKey videoId n st =
  (Ret (Return r), after_fetch st apiKey videoId).
Proof.
  intros Hnet Hok Hjson Htruthy Hcls.
  unfold attempt_body, try_catch, bind, fetch.
  rewrite Hnet, Hok. cbn [negb]. cbv beta iota.
  rewrite safeReadJson_run, Hjson, Htruthy. cbn [negb].
  unfold await. rewrite Hcls. reflexivity.
Qed.

(** A conversion that throws inside the [try] block lands in the [catch]
    like a failed request. *)
Lemma attempt_body_conversion_throws (apiKey videoId : jstr) (n : Z)
  (st : State) (res : Response Num) (data : JsVal Num) (e : JsError) :
  net w (fetches st) = Responded res ->
  res_ok res = true ->
  res_json res = Ret data ->
  truthy data = true ->
  classifyBody data = Throw e ->
  attempt_body w cfg apiKey videoId n st =
  if below n (maxAttempts cfg)
  then (Ret Continue, after_backoff w cfg (after_fetch st apiKey videoId) n)
  else (Ret (Return (TFail (lit "scrapingdog_fetch_error:" ++ safeErrMsg e))),
        after_fetch st apiKey videoId).
Proof.
  intros Hnet Hok Hjson Htruthy Hcls.
  unfold attempt_body, try_catch, bind, fetch.
  rewrite Hnet, Hok. cbn [negb]. cbv beta iota.
  rewrite safeReadJson_run, Hjson, Htruthy. cbn [negb].
  unfold await. rewrite Hcls.
  destruct (below n (maxAttempts cfg)); reflexivity.
Qed.

Lemma attempt_body_unparseable (apiKey videoId : jstr) (n : Z) (st : State)
  (res : Response Num) (e : JsError) :
  net w (fetches st) = Responded res ->
  res_ok res = true ->
  res_json res = Throw e ->
  attempt_body w cfg apiKey videoId n st =
  if below n (maxAttempts cfg)
  then (Ret Continue, after_backoff w cfg (after_fetch st apiKey videoId) n)
  else (Ret (Return (TFail (lit "scrapingdog_invalid_json"))),
        after_fetch st apiKey videoId).
Proof.
  intros Hnet Hok Hjson.
  unfold attempt_body, try_catch, bind, fetch.
  rewrite Hnet, Hok. cbn [negb]. cbv beta iota.
  rewrite safeReadJson_run, Hjson. cbn [truthy negb].
  destruct (below n (maxAttempts cfg)); reflexivity.
Qed.

(** Among truthy values none is [null] or [undefined], so [join] converts
    every one of them. *)
Lemma join_pieces_truthy (l : list (JsVal Num)) :
  map (fun x => match x with
                | JUndef | JNull => []
                | _ => render x
                end) (filter truthy l)
  = map render (filter truthy l).
Proof.
  induction l as [| x l IH]; [reflexivity |].
  cbn [filter]. destruct (truthy x) eqn:Hx; [| exact IH].
  cbn [map]. rewrite IH. destruct x; try reflexivity; discriminate Hx.
Qed.

Lemma fullTextOf_ret (segs : list (JsVal Num)) :
  forallb stringifies (segmentTexts segs) = true ->
  fullTextOf segs
  = Ret (trim (collapse_ws
                 (join_with (lit " ") (map render (segmentTexts segs))))).
Proof.
  intros Hconv. unfold fullTextOf, js_join. rewrite Hconv. cbn [exec_bind].
  unfold segmentTexts. now rewrite join_pieces_truthy.
Qed.

Lemma fullTextOf_throws (segs : list (JsVal Num)) :
  forallb stringifies (segmentTexts segs) = false ->
  fullTextOf segs = Throw typeError.
Proof.
  intros Hconv. unfold fullTextOf, js_join. now rewrite Hconv.
Qed.

Lemma classifyBody_segments (data : JsVal Num) (segs : list (JsVal Num))
  (fullText : jstr) :
  get data "transcripts" = JArr segs ->
  segs <> [] ->
  Forall (fun seg => is_plain_object seg = true) segs ->
  fullTextOf segs = Ret fullText ->
  classifyBody data =
  Ret (if Z.of_nat (length fullText) <? 200
       then TFail (lit "too_short")
       else TOk (decodeHtmlEntities fullText)
                (Z.of_nat (length segs))
                (js_or (get (hd JUndef segs) "lang") JNull)).
Proof.
  intros Hget Hne Hobj Hfull. unfold classifyBody. rewrite Hget.
  destruct segs as [| first rest]; [congruence |].
  inversion Hobj as [| ? ? Hfirst _]; subst.
  destruct first; try discriminate Hfirst.
  cbn [typeof_string typeof_object negb andb hd].
  rewrite andb_false_r, Hfull. cbn [exec_bind].
  destruct fullText as [| ch t]; [reflexivity |].
  cbn [nonempty length Nat.eqb negb orb].
  destruct (Z.of_nat (S (length t)) <? 200); reflexivity.
Qed.

(** C8, amended: for an HTTP success whose [transcripts] array consists of
    segment objects whose texts convert to strings, the fetcher joins the
    segment texts in array order with single spaces, collapses whitespace
    and trims; it returns [too_short] exactly when that text, before any
    entity is decoded, is under 200 code units, and otherwise returns
    success carrying that text with the HTML entities decoded. *)
Theorem segments_joined_and_judged (apiKey videoId : jstr) (n : Z)
  (rest : list Z) (st : State) (res : Response Num) (data : JsVal Num)
  (segs : list (JsVal Num))
  (Hnet : net w (fetches st) = Responded res)
  (Hok : res_ok res = true)
  (Hjson : res_json res = Ret data)
  (Hsegs : get data "transcripts" = JArr segs)
  (Hne : segs <> [])
  (Hobj : Forall (fun seg => is_plain_object seg = true) segs)
  (Hconv : forallb stringifies (segmentTexts segs) = true) :
  let texts := map (fun seg => js_or (get seg "text") (JStr [])) segs in
  let joined := join_with (lit " ") (map render (filter truthy texts)) in
  let cleaned := trim (collapse_ws joined) in
  for_attempts w cfg apiKey videoId (n :: rest) st =
  (Ret (Some (if Z.of_nat (length cleaned) <? 200
              then TFail (lit "too_short")
              else TOk (decodeHtmlEntities cleaned)
                       (Z.of_nat (length segs))
                       (js_or (get (hd JUndef segs) "lang") JNull))),
   after_fetch st apiKey videoId).
Proof.
  cbv zeta.
  rewrite for_attempts_cons.
  rewrite (attempt_body_parsed apiKey videoId n st res data _ Hnet Hok Hjson
             (get_array_truthy _ _ _ Hsegs)
             (classifyBody_segments data segs _ Hsegs Hne Hobj
                (fullTextOf_ret segs Hconv))).
  reflexivity.
Qed.

Lemma attempt_range_first (q : Q) :
  (1 <= q)%Q -> exists rest, attempt_range q = 1 :: rest.
Proof.
  intros Hq. unfold attempt_range.
  apply Qfloor_resp_le in Hq. change (Qfloor 1) with 1 in Hq.
  destruct (Z.to_nat (Qfloor q)) as [| m] eqn:E; [lia |].
  cbn [seq map]. eauto.
Qed.

(** What the fetcher itself does with the sentinel answer. *)
Lemma sentinel_fetch (c : N) (k : jstr) (videoId : jstr) (st : State)
  (res : Response Num) (data : JsVal Num) (s : jstr) :
  SCRAPINGDOG_API_KEY cfg = Some (c :: k) ->
  (1 <= maxAttempts cfg)%Q ->
  net w (fetches st) = Responded res ->
  res_ok res = true ->
  res_json res = Ret data ->
  get data "transcripts" = JArr [JStr s] ->
  fetchTranscriptFromScrapingDog w cfg videoId st =
  (Ret (TFail (lit "no_transcript")), after_fetch st (c :: k) videoId).
Proof.
  intros Hkey Hmax Hnet Hok Hjson Hget.
  unfold fetchTranscriptFromScrapingDog. rewrite Hkey. unfold bind.
  destruct (attempt_range_first _ Hmax) as [rest ->].
  rewrite for_attempts_cons.
  rewrite (attempt_body_parsed (c :: k) videoId _ st res data
             (TFail (lit "no_transcript")) Hnet Hok Hjson
             (get_array_truthy _ _ _ Hget)); [reflexivity |].
  unfold classifyBody. rewrite Hget. reflexivity.
Qed.

End FetcherScenarios.

(** ** The digest assembler *)

Section AssemblerFacts.
Context {Num : Type} `{JsNumber Num}.
Variable w : World Num.
Variable cfg : FetchConfig.
Variable summarizeTranscript : jstr -> jstr -> jstr -> Z -> M Summary.

(** Each scanned video lands in exactly one of the two lists. *)
Lemma scan_video_partition (v : VideoRecord)
  (sm sm' : list SummarizedItem) (sk sk' : list SkippedItem) (st st' : State) :
  scan_video w cfg summarizeTranscript v (sm, sk) st = (Ret (sm', sk'), st') ->
  (exists x, sm' = sm ++ [x] /\ sm_video x = v /\ sk' = sk)
  \/ (exists x, sk' = sk ++ [x] /\ sk_video x = v /\ sm' = sm).
Proof.
  unfold scan_video, bind.
  destruct (fetchTranscriptFromScrapingDog w cfg (videoId v) st)
    as [[[text segs lang | t_reason] | e] st1]; [| | discriminate].
  - destruct (summarizeTranscript (title v) (channelName v) text 5 st1)
      as [[smry | e] st2]; [| discriminate].
    unfold ret. intros E. injection E as <- <- _.
    left. eexists. split; [reflexivity |]. split; reflexivity.
  - unfold ret. intros E. injection E as <- <- _.
    right. eexists. split; [reflexivity |]. split; reflexivity.
Qed.

Lemma scan_videos_partition (videos : list VideoRecord)
  (sm sm' : list SummarizedItem) (sk sk' : list SkippedItem) (st st' : State) :
  scan_videos w cfg summarizeTranscript videos (sm, sk) st
  = (Ret (sm', sk'), st') ->
  Permutation (map sm_video sm' ++ map sk_video sk')
              ((map sm_video sm ++ map sk_video sk) ++ videos).
Proof.
  revert sm sk st.
  induction videos as [| v rest IH]; intros sm sk st; cbn [scan_videos].
  - unfold ret. intros E. injection E as <- <- _. now rewrite app_nil_r.
  - unfold bind.
    destruct (scan_video w cfg summarizeTranscript v (sm, sk) st)
      as [[[sm1 sk1] | e] st1] eqn:Estep; [| discriminate].
    intros Hrest. rewrite (IH _ _ _ Hrest).
    apply Permutation_trans
      with (((map sm_video sm ++ map sk_video sk) ++ [v]) ++ rest);
      [| now rewrite <- app_assoc].
    apply Permutation_app_tail.
    destruct (scan_video_partition _ _ _ _ _ _ _ Estep)
      as [[x [-> [<- ->]]] | [x [-> [<- ->]]]]; rewrite map_app; simpl.
    + rewrite <- !app_assoc. apply Permutation_app_head.
      apply Permutation_app_comm.
    + now rewrite <- !app_assoc.
Qed.

(** What a completed round of [assembleGroup] is made of. *)
Lemma assembleGroup_inv (cap : Q) (packLabel : jstr)
  (allVideos : list VideoRecord) (st st' : State) (d : GroupDigest) :
  assembleGroup w cfg summarizeTranscript cap packLabel allVideos st
  = (Ret d, st') ->
  exists sm sk,
    Permutation (map sm_video sm ++ map sk_video sk) (dedupVideos allVideos)
    /\ totalNew d = Z.of_nat (length (dedupVideos allVideos))
    /\ summarizedCount d = Z.of_nat (length sm)
    /\ skippedCount d = Z.of_nat (length sk)
    /\ items d =
       slice0 (js_trunc cap) (js_sort (byRecency item_publishedAt)
                     (map showSummarized sm ++ map showSkipped sk))
    /\ notShownCount d =
       Z.max 0 (Z.of_nat (length sm + length sk) - Z.of_nat (length (items d))).
Proof.
  unfold assembleGroup, bind.
  destruct (scan_videos w cfg summarizeTranscript (dedupVideos allVideos)
              ([], []) st) as [[[sm sk] | e] st1] eqn:Escan; [| discriminate].
  unfold ret. intros E. injection E as <- _.
  exists sm, sk. cbn [totalNew summarizedCount skippedCount items notShownCount].
  repeat split.
  - apply (scan_videos_partition _ _ _ _ _ _ _ Escan).
  - now rewrite js_sort_length, length_app, !length_map.
Qed.

(** With the key configured and a summarizer that does not throw, every
    round completes with a digest. *)
Lemma assembleGroup_completes (c : N) (k : jstr) (cap : Q) (packLabel : jstr)
  (allVideos : list VideoRecord) (st : State) :
  SCRAPINGDOG_API_KEY cfg = Some (c :: k) ->
  (forall a b t n st0, exists smry st1,
     summarizeTranscript a b t n st0 = (Ret smry, st1)) ->
  exists d st',
    assembleGroup w cfg summarizeTranscript cap packLabel allVideos st
    = (Ret d, st').
Proof.
  intros Hkey Hsum.
  assert (Hstep : forall v acc st0, exists acc' st1,
            scan_video w cfg summarizeTranscript v acc st0 = (Ret acc', st1)).
  { intros v [sm sk] st0. unfold scan_video, bind.
    pose proof (fetchTranscript_total w cfg (videoId v) st0 c k Hkey)
      as [t [st1 ->]].
    destruct t as [text segs lang | t_reason]; unfold ret; [| eauto].
    destruct (Hsum (title v) (channelName v) text 5 st1) as [smry [st2 ->]].
    eauto. }
  assert (Hscan : forall videos acc st0, exists acc' st1,
            scan_videos w cfg summarizeTranscript videos acc st0
            = (Ret acc', st1)).
  { induction videos as [| v rest IH]; intros acc st0; cbn [scan_videos].
    - unfold ret. eauto.
    - unfold bind. destruct (Hstep v acc st0) as [acc1 [st1 ->]]. apply IH. }
  unfold assembleGroup, bind.
  destruct (Hscan (dedupVideos allVideos) ([], []) st) as [[sm sk] [st1 ->]].
  unfold ret. eauto.
Qed.

(** C3: in the digest of a group, [summarizedCount + skippedCount] equals
    the size of the considered set, whatever the display cap; the
    summarized and the skipped videos together are exactly the considered
    videos, each counted once. *)
Theorem counts_cover_considered (cap : Q) (packLabel : jstr)
  (allVideos : list VideoRecord) (st st' : State) (d : GroupDigest)
  (Hrun : assembleGroup w cfg summarizeTranscript cap packLabel allVideos st
          = (Ret d, st')) :
  summarizedCount d + skippedCount d
  = Z.of_nat (length (dedupVideos allVideos))
  /\ totalNew d = Z.of_nat (length (dedupVideos allVideos))
  /\ exists summarizedVideos skippedVideos,
       Permutation (summarizedVideos ++ skippedVideos) (dedupVideos allVideos)
       /\ summarizedCount d = Z.of_nat (length summarizedVideos)
       /\ skippedCount d = Z.of_nat (length skippedVideos).
Proof.
  destruct (assembleGroup_inv _ _ _ _ _ _ Hrun)
    as [sm [sk [Hperm [Htotal [Hsm [Hsk _]]]]]].
  pose proof (Permutation_length Hperm) as Hlen.
  rewrite length_app, !length_map in Hlen.
  split; [lia |]. split; [exact Htotal |].
  exists (map sm_video sm), (map sk_video sk).
  rewrite !length_map. auto.
Qed.

(** C4, amended: for every group and every configured cap that is not
    negative, the displayed items are at most [cap]; and for every cap,
    [notShownCount] is [max(0, considered - displayed)]. *)
Theorem display_cap_respected (dc : DigestConfig) (packLabel : jstr)
  (allVideos : list VideoRecord) (st st' : State) (d : GroupDigest)
  (Hrun : assembleGroup w cfg summarizeTranscript (getCapPerSection dc)
            packLabel allVideos st = (Ret d, st')) :
  ((0 <= getCapPerSection dc)%Q ->
   (inject_Z (Z.of_nat (length (items d))) <= getCapPerSection dc)%Q)
  /\ notShownCount d
     = Z.max 0 (Z.of_nat (length (dedupVideos allVideos))
                - Z.of_nat (length (items d))).
Proof.
  destruct (assembleGroup_inv _ _ _ _ _ _ Hrun)
    as [sm [sk [Hperm [_ [_ [_ [Hitems Hnot]]]]]]].
  pose proof (Permutation_length Hperm) as Hlen.
  rewrite length_app, !length_map in Hlen.
  split.
  - intros Hcap. rewrite Hitems.
    destruct (js_trunc_nonneg _ Hcap) as [H0 Hle].
    apply Qle_trans with (inject_Z (js_trunc (getCapPerSection dc)));
      [| exact Hle].
    rewrite <- Zle_Qle. now apply slice0_length_le.
  - rewrite Hnot. now rewrite Hlen.
Qed.

(** C9: when the provider answers 2xx with
    [{transcripts: ["This video has no transcripts"]}], the fetch result is
    the failure [no_transcript] after a single request and no sleep, the
    video is pushed as a skipped item with the reason text
    "This video has no transcript/captions available on YouTube.", and the
    digest of a group made of that video shows exactly this item. *)
Theorem sentinel_yields_skipped_item (c : N) (k : jstr) (v : VideoRecord)
  (acc : list SummarizedItem * list SkippedItem) (st : State)
  (res : Response Num) (data : JsVal Num) (cap : Q) (packLabel : jstr)
  (Hkey : SCRAPINGDOG_API_KEY cfg = Some (c :: k))
  (Hmax : (1 <= maxAttempts cfg)%Q)
  (Hnet : net w (fetches st) = Responded res)
  (Hok : res_ok res = true)
  (Hjson : res_json res = Ret data)
  (Hget : get data "transcripts"
          = JArr [JStr (lit "This video has no transcripts")])
  (Hcap : (1 <= cap)%Q) :
  let text :=
    lit "This video has no transcript/captions available on YouTube." in
  let st1 := after_fetch st (c :: k) (videoId v) in
  fetchTranscriptFromScrapingDog w cfg (videoId v) st
  = (Ret (TFail (lit "no_transcript")), st1)
  /\ scan_video w cfg summarizeTranscript v acc st
     = (Ret (fst acc, snd acc ++ [ {| sk_reason := text; sk_video := v |} ]),
        st1)
  /\ assembleGroup w cfg summarizeTranscript cap packLabel [v] st
     = (Ret {| label := packLabel;
               totalNew := 1;
               summarizedCount := 0;
               skippedCount := 1;
               notShownCount := 0;
               items := [ {| status := skipped;
                             item_videoId := videoId v;
                             item_title := title v;
                             item_channelName := channelName v;
                             item_url := url v;
                             item_publishedAt := publishedAt v;
                             summary := None;
                             reason := Some text |} ] |},
        st1).
Proof.
  cbv zeta.
  pose proof (sentinel_fetch w cfg c k (videoId v) st res data _
                Hkey Hmax Hnet Hok Hjson Hget) as Hfetch.
  assert (Hstep : forall acc0,
            scan_video w cfg summarizeTranscript v acc0 st
            = (Ret (fst acc0,
                    snd acc0 ++
                    [ {| sk_reason :=
                           lit "This video has no transcript/captions available on YouTube.";
                         sk_video := v |} ]),
               after_fetch st (c :: k) (videoId v))).
  { intros [sm sk]. unfold scan_video, bind. rewrite Hfetch. reflexivity. }
  split; [exact Hfetch |]. split; [apply Hstep |].
  unfold assembleGroup, bind.
  change (dedupVideos [v]) with [v].
  cbn [scan_videos]. unfold bind. rewrite Hstep. unfold ret.
  cbn [fst snd app map length].
  change (js_sort (byRecency item_publishedAt)
            [showSkipped {| sk_reason :=
                              lit "This video has no transcript/captions available on YouTube.";
                            sk_video := v |}])
    with [showSkipped {| sk_reason :=
                           lit "This video has no transcript/captions available on YouTube.";
                         sk_video := v |}].
  assert (Htrunc : 1 <= js_trunc cap).
  { unfold js_trunc.
    rewrite (proj2 (Qle_bool_iff 0 cap)) by lra.
    change 1 with (Qfloor 1). now apply Qfloor_resp_le. }
  rewrite slice0_all by (simpl; lia).
  reflexivity.
Qed.

End AssemblerFacts.

(** ** Concrete runs *)

Lemma counts_cover_considered_witness :
  match assembleGroup mixedWorld demoConfig demoSummarize 1 (lit "G")
          demoVideos initState with
  | (Ret d, _) =>
      summarizedCount d = 1 /\ skippedCount d = 1
      /\ summarizedCount d + skippedCount d
         = Z.of_nat (length (dedupVideos demoVideos))
  | (Throw _, _) => False
  end.
Proof.
  destruct (assembleGroup mixedWorld demoConfig demoSummarize 1 (lit "G")
              demoVideos initState) as [[d | e] st'] eqn:Hrun.
  - split; [| split].
    + vm_compute in Hrun. injection Hrun as <- _. reflexivity.
    + vm_compute in Hrun. injection Hrun as <- _. reflexivity.
    + exact (proj1 (counts_cover_considered mixedWorld demoConfig demoSummarize
                      1 (lit "G") demoVideos initState st' d Hrun)).
  - vm_compute in Hrun. discriminate Hrun.
Defined.

Lemma display_cap_respected_witness :
  match assembleGroup mixedWorld demoConfig demoSummarize
          (getCapPerSection singleCapConfig) (lit "G") demoVideos
          initState with
  | (Ret d, _) =>
      (inject_Z (Z.of_nat (length (items d)))
       <= getCapPerSection singleCapConfig)%Q
      /\ notShownCount d = 1
  | (Throw _, _) => False
  end.
Proof.
  destruct (assembleGroup mixedWorld demoConfig demoSummarize
              (getCapPerSection singleCapConfig) (lit "G") demoVideos
              initState) as [[d | e] st'] eqn:Hrun.
  - destruct (display_cap_respected mixedWorld demoConfig demoSummarize
                singleCapConfig (lit "G") demoVideos initState st' d Hrun)
      as [Hcap Hnot].
    split; [apply Hcap; vm_compute; discriminate |].
    vm_compute in Hrun. injection Hrun as <- _. reflexivity.
  - vm_compute in Hrun. discriminate Hrun.
Defined.

(** C4 as stated fails for a negative cap: with the cap configured as [-1],
    [slice(0, -1)] drops only the last of the two items, and one item is
    displayed. *)
Lemma negative_cap_shows_items :
  match assembleGroup sentinelWorld demoConfig demoSummarize
          (getCapPerSection negativeCapConfig) (lit "G")
          [demoVideo "a" "2024-01-01"; demoVideo "b" "2024-01-03"]
          initState with
  | (Ret d, _) =>
      length (items d) = 1%nat
      /\ ~ (inject_Z (Z.of_nat (length (items d)))
            <= getCapPerSection negativeCapConfig)%Q
  | (Throw _, _) => False
  end.
Proof.
  vm_compute. split; [reflexivity |]. intros Hle. apply Hle. reflexivity.
Qed.

Lemma fetchTranscript_returns_in_loop_witness :
  (exists r st',
     for_attempts invalidJsonWorld demoConfig (lit "k") (lit "abc")
       (attempt_range (maxAttempts demoConfig)) initState
     = (Ret (Some r), st'))
  /\ fetchTranscriptFromScrapingDog invalidJsonWorld demoConfig (lit "abc")
       initState
     <> (Ret (TFail (lit "scrapingdog_unknown_error")), initState).
Proof.
  assert (Hwhole : (maxAttempts demoConfig == inject_Z 3)%Q) by reflexivity.
  assert (Hmax : (1 <= maxAttempts demoConfig)%Q) by (vm_compute; discriminate).
  destruct (fetchTranscript_returns_in_loop invalidJsonWorld demoConfig
              (lit "abc") 3 Hwhole Hmax) as [Hloop Hnever].
  split; [apply Hloop | apply Hnever].
Defined.

(** C10 as stated fails for an attempt budget that is no whole number: with
    [maxAttempts = 1.5] and an upstream answering 503, attempt 1 passes
    [1 < 1.5] and backs off, [2 <= 1.5] ends the loop, and the statement
    after the loop returns [scrapingdog_unknown_error]. *)
Lemma fallback_reached_with_fractional_attempts :
  (1 <= maxAttempts fractionalConfig)%Q
  /\ fetchTranscriptFromScrapingDog unavailableWorld fractionalConfig
       (lit "abc") initState
     = (Ret (TFail (lit "scrapingdog_unknown_error")),
        {| fetches := 1; randoms := 1;
           log := [EvFetch (lit "k") (lit "abc"); EvSleep 800] |}).
Proof.
  split; [vm_compute; discriminate | reflexivity].
Qed.



(** C7: with the default three attempts and an upstream whose 2xx bodies
    never parse, the fetcher does not stop after one retry: it issues three
    requests, sleeping after the first and after the second, before it
    returns [scrapingdog_invalid_json]. *)
Theorem invalid_json_retried_twice :
  fetchTranscriptFromScrapingDog invalidJsonWorld demoConfig (lit "abc")
    initState
  = (Ret (TFail (lit "scrapingdog_invalid_json")),
     {| fetches := 3; randoms := 2;
        log := [EvFetch (lit "k") (lit "abc"); EvSleep 800;
                EvFetch (lit "k") (lit "abc"); EvSleep 1600;
                EvFetch (lit "k") (lit "abc")] |})
  /\ maxAttempts demoConfig = 3%Q.
Proof.
  split; reflexivity.
Qed.

Lemma segments_joined_and_judged_witness :
  for_attempts (constWorld (Responded (okResponse spokenBody))) demoConfig
    (lit "k") (lit "abc") [1; 2; 3] initState
  = (Ret (Some (TOk (lit "Tom & Jerry " ++ repeat 97%N 100 ++ [32%N]
                     ++ repeat 98%N 100 ++ lit " it's done")
                    4 (JStr (lit "en")))),
     after_fetch initState (lit "k") (lit "abc")).
Proof.
  pose proof (segments_joined_and_judged
                (constWorld (Responded (okResponse spokenBody))) demoConfig
                (lit "k") (lit "abc") 1 [2; 3] initState
                (okResponse spokenBody) spokenBody
                [textSegment (lit "  Tom &amp; Jerry  ");
                 textSegment (repeat 97%N 100 ++ [10; 10]%N ++ repeat 98%N 100);
                 JObj [(lit "start", JNum 3)];
                 textSegment (lit "it&#39;s   done ")]
                eq_refl eq_refl eq_refl eq_refl
                ltac:(discriminate)
                ltac:(repeat constructor)
                ltac:(vm_compute; reflexivity)) as Hrun.
  cbv zeta in Hrun. rewrite Hrun. vm_compute. reflexivity.
Defined.

(** C8 as stated fails when entities are present: 140 letters followed by
    ten [&quot;] pass the length test with 200 code units, and the fetcher
    returns success carrying a cleaned text of 150 code units instead of
    [too_short]. *)
Lemma decoded_text_below_threshold :
  fetchTranscriptFromScrapingDog
    (constWorld (Responded (okResponse entityPaddedBody))) demoConfig
    (lit "abc") initState
  = (Ret (TOk (repeat 97%N 140 ++ repeat 34%N 10) 1 (JStr (lit "en"))),
     after_fetch initState (lit "k") (lit "abc"))
  /\ Z.of_nat (length (repeat 97%N 140 ++ repeat 34%N 10)) = 150
  /\ decodeHtmlEntities entityPaddedText = repeat 97%N 140 ++ repeat 34%N 10.
Proof.
  split; [vm_compute; reflexivity |].
  split; vm_compute; reflexivity.
Qed.

(** A segment text that does not convert makes the [join] throw inside
    the [try] block: each attempt lands in the [catch], and after the last
    one the failure carries the message of the [TypeError]. *)
Example conversion_error_is_caught :
  fetchTranscriptFromScrapingDog
    (constWorld (Responded (okResponse ownToStringBody))) demoConfig
    (lit "abc") initState
  = (Ret (TFail (lit "scrapingdog_fetch_error:Cannot convert object to primitive value")),
     {| fetches := 3; randoms := 2;
        log := [EvFetch (lit "k") (lit "abc"); EvSleep 800;
                EvFetch (lit "k") (lit "abc"); EvSleep 1600;
                EvFetch (lit "k") (lit "abc")] |}).
Proof. reflexivity. Qed.

(** The scenario of two channels carrying the same identifier: the copy
    inserted last (channel B) survives. *)
Example dedup_keeps_channel_B :
  dedupVideos
    [ {| title := lit "T"; url := lit "u"; videoId := lit "abc123";
         publishedAt := lit "2024-01-01T00:00:00+00:00";
         channelName := lit "A" |};
      {| title := lit "T"; url := lit "u"; videoId := lit "abc123";
         publishedAt := lit "2024-01-01T00:00:00+00:00";
         channelName := lit "B" |} ]
  = [ {| title := lit "T"; url := lit "u"; videoId := lit "abc123";
         publishedAt := lit "2024-01-01T00:00:00+00:00";
         channelName := lit "B" |} ].
Proof. reflexivity. Qed.

Lemma sentinel_yields_skipped_item_witness :
  assembleGroup sentinelWorld demoConfig demoSummarize 7 (lit "G")
    [demoVideo "a" "2024-01-01"] initState
  = (Ret {| label := lit "G";
            totalNew := 1;
            summarizedCount := 0;
            skippedCount := 1;
            notShownCount := 0;
            items :=
              [ {| status := skipped;
                   item_videoId := lit "a";
                   item_title := lit "T";
                   item_channelName := lit "A";
                   item_url := lit "u";
                   item_publishedAt := lit "2024-01-01";
                   summary := None;
                   reason :=
                     Some (lit "This video has no transcript/captions available on YouTube.") |} ] |},
     after_fetch initState (lit "k") (lit "a")).
Proof.
  exact (proj2 (proj2
    (sentinel_yields_skipped_item sentinelWorld demoConfig demoSummarize
       107%N [] (demoVideo "a" "2024-01-01") ([], []) initState
       (okResponse sentinelBody) sentinelBody 7 (lit "G")
       eq_refl ltac:(vm_compute; discriminate) eq_refl eq_refl eq_refl eq_refl
       ltac:(vm_compute; discriminate)))).
Defined.

(** * Further properties of the code *)

(** ** Tidy strings *)

Lemma single_spaced_app (a b : jstr) :
  single_spaced (a ++ b) = true ->
  single_spaced a = true /\ single_spaced b = true.
Proof.
  induction a as [| c a IH]; simpl; [auto |].
  rewrite !andb_true_iff. intros [[Hc Hadj] Hrest].
  destruct (IH Hrest) as [Ha Hb]. split; [| exact Hb].
  repeat split; [exact Hc | | exact Ha].
  destruct a as [| d a']; [| exact Hadj].
  destruct (is_ws c); reflexivity.
Qed.

Lemma collapse_from_tidy (in_run : bool) (s : jstr) :
  single_spaced (collapse_from in_run s) = true
  /\ (in_run = true ->
      match collapse_from in_run s with
      | d :: _ => is_ws d = false
      | [] => True
      end).
Proof.
  revert in_run. induction s as [| c r IH]; intros in_run; simpl; [auto |].
  destruct (is_ws c) eqn:Ec.
  - destruct in_run.
    + apply IH.
    + destruct (IH true) as [Hs Hh]. split; [| discriminate].
      simpl. rewrite Hs, andb_true_r.
      specialize (Hh eq_refl).
      destruct (collapse_from true r) as [| d t]; [reflexivity |].
      now rewrite Hh.
  - destruct (IH false) as [Hs _]. split; [| intros _; exact Ec].
    simpl. rewrite Ec, Hs. reflexivity.
Qed.

Lemma collapse_ws_single (s : jstr) : single_spaced (collapse_ws s) = true.
Proof. apply collapse_from_tidy. Qed.

Lemma collapse_from_length (in_run : bool) (s : jstr) :
  (length (collapse_from in_run s) <= length s)%nat.
Proof.
  revert in_run. induction s as [| c r IH]; intros in_run; simpl; [lia |].
  pose proof (IH true). pose proof (IH false).
  destruct (is_ws c); [destruct in_run |]; simpl; lia.
Qed.

Lemma dropwhile_length {A} (p : A -> bool) (l : list A) :
  (length (dropwhile p l) <= length l)%nat.
Proof.
  destruct (dropwhile_split p l) as [pre Hpre].
  rewrite Hpre at 2. rewrite length_app. lia.
Qed.

Lemma trim_length (s : jstr) : (length (trim s) <= length s)%nat.
Proof.
  unfold trim, trimEnd, trimStart. rewrite length_rev.
  etransitivity; [apply dropwhile_length |].
  rewrite length_rev. apply dropwhile_length.
Qed.

Lemma trim_single (s : jstr) :
  single_spaced s = true -> single_spaced (trim s) = true.
Proof.
  intros Hs. unfold trim.
  destruct (dropwhile_split is_ws s) as [pre Hpre].
  rewrite Hpre in Hs. apply single_spaced_app in Hs. destruct Hs as [_ Hs].
  destruct (trimEnd_prefix (trimStart s)) as [suf Hsuf].
  unfold trimStart in *. rewrite Hsuf in Hs.
  now apply single_spaced_app in Hs.
Qed.

Lemma slice0_prefix {A} (n : Z) (l : list A) :
  exists rest, l = slice0 n l ++ rest.
Proof.
  unfold slice0. eexists. symmetry. apply firstn_skipn.
Qed.

Lemma slice0_single (n : Z) (s : jstr) :
  single_spaced s = true -> single_spaced (slice0 n s) = true.
Proof.
  intros Hs. destruct (slice0_prefix n s) as [rest Hrest].
  rewrite Hrest in Hs. now apply single_spaced_app in Hs.
Qed.

Lemma slice0_length_nat {A} (n : nat) (l : list A) :
  (length (slice0 (Z.of_nat n) l) <= n)%nat.
Proof.
  pose proof (slice0_length_le (Z.of_nat n) l ltac:(lia)). lia.
Qed.

Lemma starts_with_length (pat s : jstr) :
  starts_with pat s = true -> (length pat <= length s)%nat.
Proof.
  revert s. induction pat as [| p pat IH]; intros [| c s]; simpl;
    try discriminate; try lia.
  rewrite andb_true_iff. intros [_ Hrest]. specialize (IH _ Hrest). lia.
Qed.

Lemma replaceAll_from_length (skip : nat) (pat rep s : jstr) :
  (length rep <= length pat)%nat ->
  (length (replaceAll_from skip pat rep s) + Nat.min skip (length s)
   <= length s)%nat.
Proof.
  intros Hrep. revert skip.
  induction s as [| c r IH]; intros skip; simpl; [lia |].
  destruct skip as [| k].
  - destruct (starts_with pat (c :: r)) eqn:E.
    + apply starts_with_length in E. simpl in E.
      rewrite length_app. specialize (IH (pred (length pat))). lia.
    + simpl. specialize (IH O). lia.
  - specialize (IH k). lia.
Qed.

Lemma replaceAll_length (pat rep s : jstr) :
  (length rep <= length pat)%nat ->
  (length (replaceAll pat rep s) <= length s)%nat.
Proof.
  intros Hrep. pose proof (replaceAll_from_length O pat rep s Hrep).
  unfold replaceAll. lia.
Qed.

(** X1: the text [decodeHtmlEntities] returns has no leading or trailing
    whitespace, contains no whitespace but single spaces, and is never
    longer than its input. *)
Theorem decodeHtmlEntities_tidy (input : jstr) :
  is_trimmed (decodeHtmlEntities input) = true
  /\ single_spaced (decodeHtmlEntities input) = true
  /\ (length (decodeHtmlEntities input) <= length input)%nat.
Proof.
  unfold decodeHtmlEntities. cbv zeta.
  split; [apply trim_is_trimmed |].
  split; [apply trim_single, collapse_ws_single |].
  etransitivity; [apply trim_length |].
  etransitivity; [apply collapse_from_length |].
  repeat (etransitivity; [apply replaceAll_length; simpl; lia |]).
  apply Nat.le_refl.
Qed.

(** ** The retry policy of the transcript fetcher *)

Lemma int_to_string_status_length (status : Z) :
  0 <= status <= 999 -> (length (int_to_string status) <= 3)%nat.
Proof.
  intros Hs.
  assert (Hall : forallb
            (fun n => Nat.leb (length (int_to_string (Z.of_nat n))) 3)
            (seq 0 1000) = true) by (vm_compute; reflexivity).
  rewrite forallb_forall in Hall.
  specialize (Hall (Z.to_nat status)).
  rewrite Z2Nat.id in Hall by lia.
  apply Nat.leb_le, Hall, in_seq. lia.
Qed.

Lemma formatProviderError_length (provider : jstr) (status : Z) (bodyText : jstr) :
  (length (formatProviderError provider status bodyText)
   <= length provider + 6 + length (int_to_string status) + 121)%nat.
Proof.
  unfold formatProviderError.
  destruct (includes (lit "<!doctype html>") (map ascii_lower bodyText)
            || includes (lit "<html") (map ascii_lower bodyText));
    [rewrite !length_app; simpl; lia |].
  destruct (negb (nonempty bodyText)); rewrite !length_app; simpl; [lia |].
  pose proof (slice0_length_nat 120 (collapse_ws bodyText)) as Hsn.
  change (Z.of_nat 120) with 120 in Hsn. lia.
Qed.

Lemma safeErrMsg_length (err : JsError) : (length (safeErrMsg err) <= 200)%nat.
Proof.
  unfold safeErrMsg.
  pose proof (slice0_length_nat 200
                (collapse_ws (str_or (err_message err) (error_to_string err))))
    as Hsn.
  change (Z.of_nat 200) with 200 in Hsn. exact Hsn.
Qed.

Section RetryPolicy.
Context {Num : Type} `{JsNumber Num}.
Variable w : World Num.
Variable cfg : FetchConfig.

Lemma safeReadText_run (res : Response Num) (st : State) :
  safeReadText res st = (Ret (bodySnippet res), st).
Proof.
  unfold safeReadText, bodySnippet, try_catch, bind, await, ret.
  destruct (res_text res); reflexivity.
Qed.

Lemma attempt_body_http_failure (apiKey videoId : jstr) (n : Z) (st : State)
  (res : Response Num) :
  net w (fetches st) = Responded res ->
  res_ok res = false ->
  attempt_body w cfg apiKey videoId n st =
  if isTransientHttp (res_status res) && below n (maxAttempts cfg)
  then (Ret Continue, after_backoff w cfg (after_fetch st apiKey videoId) n)
  else (Ret (Return (TFail (formatProviderError (lit "scrapingdog")
                              (res_status res) (bodySnippet res)))),
        after_fetch st apiKey videoId).
Proof.
  intros Hnet Hok.
  unfold attempt_body, try_catch, bind, fetch.
  rewrite Hnet, Hok. cbn [negb]. cbv beta iota.
  rewrite safeReadText_run.
  destruct (isTransientHttp (res_status res) && below n (maxAttempts cfg));
    reflexivity.
Qed.

Lemma attempt_body_rejected (apiKey videoId : jstr) (n : Z) (st : State)
  (e : JsError) :
  net w (fetches st) = Rejected e ->
  attempt_body w cfg apiKey videoId n st =
  if below n (maxAttempts cfg)
  then (Ret Continue, after_backoff w cfg (after_fetch st apiKey videoId) n)
  else (Ret (Return (TFail (lit "scrapingdog_fetch_error:" ++ safeErrMsg e))),
        after_fetch st apiKey videoId).
Proof.
  intros Hnet. unfold attempt_body, try_catch, bind, fetch. rewrite Hnet.
  destruct (below n (maxAttempts cfg)); reflexivity.
Qed.

Lemma attempt_body_falsy (apiKey videoId : jstr) (n : Z) (st : State)
  (res : Response Num) (data : JsVal Num) :
  net w (fetches st) = Responded res ->
  res_ok res = true ->
  res_json res = Ret data ->
  truthy data = false ->
  attempt_body w cfg apiKey videoId n st =
  if below n (maxAttempts cfg)
  then (Ret Continue, after_backoff w cfg (after_fetch st apiKey videoId) n)
  else (Ret (Return (TFail (lit "scrapingdog_invalid_json"))),
        after_fetch st apiKey videoId).
Proof.
  intros Hnet Hok Hjson Hfalsy.
  unfold attempt_body, try_catch, bind, fetch.
  rewrite Hnet, Hok. cbn [negb]. cbv beta iota.
  rewrite safeReadJson_run, Hjson, Hfalsy. cbn [negb].
  destruct (below n (maxAttempts cfg)); reflexivity.
Qed.

(** While attempts remain, a retryable outcome makes the loop go on. *)
Lemma attempt_body_retryable (apiKey videoId : jstr) (n : Z) (st : State) :
  retryable (net w (fetches st)) = true ->
  (inject_Z n < maxAttempts cfg)%Q ->
  attempt_body w cfg apiKey videoId n st =
  (Ret Continue, after_backoff w cfg (after_fetch st apiKey videoId) n).
Proof.
  intros Hretry Hn. apply below_true in Hn.
  unfold retryable in Hretry.
  destruct (net w (fetches st)) as [res | e] eqn:Hnet.
  - destruct (res_ok res) eqn:Hok.
    + destruct (res_json res) as [data | e] eqn:Hjson.
      * destruct (truthy data) eqn:Ht; cbn [negb orb] in Hretry.
        -- destruct (classifyBody data) as [r | e] eqn:Hcls;
             [discriminate Hretry |].
           rewrite (attempt_body_conversion_throws w cfg _ _ _ _ _ _ _
                      Hnet Hok Hjson Ht Hcls), Hn.
           reflexivity.
        -- rewrite (attempt_body_falsy _ _ _ _ _ _ Hnet Hok Hjson Ht), Hn.
           reflexivity.
      * rewrite (attempt_body_unparseable w cfg _ _ _ _ _ _ Hnet Hok Hjson), Hn.
        reflexivity.
    + rewrite (attempt_body_http_failure _ _ _ _ _ Hnet Hok), Hretry, Hn.
      reflexivity.
  - rewrite (attempt_body_rejected _ _ _ _ _ Hnet), Hn. reflexivity.
Qed.

(** The results an iteration can return. *)
Lemma attempt_body_return_shape (apiKey videoId : jstr) (n : Z)
  (st st' : State) (r : TranscriptResult Num) :
  attempt_body w cfg apiKey videoId n st = (Ret (Return r), st') ->
  (exists res, net w (fetches st) = Responded res
               /\ res_ok res = false
               /\ r = TFail (formatProviderError (lit "scrapingdog")
                               (res_status res) (bodySnippet res)))
  \/ r = TFail (lit "scrapingdog_invalid_json")
  \/ (exists data, classifyBody data = Ret r)
  \/ (exists e, r = TFail (lit "scrapingdog_fetch_error:" ++ safeErrMsg e)).
Proof.
  destruct (net w (fetches st)) as [res | e] eqn:Hnet.
  - destruct (res_ok res) eqn:Hok.
    + destruct (res_json res) as [data | e] eqn:Hjson.
      * destruct (truthy data) eqn:Ht.
        -- destruct (classifyBody data) as [r0 | e] eqn:Hcls.
           ++ rewrite (attempt_body_parsed w cfg _ _ _ _ _ _ _
                         Hnet Hok Hjson Ht Hcls).
              intros E. injection E as <- _. right. right. left.
              now exists data.
           ++ rewrite (attempt_body_conversion_throws w cfg _ _ _ _ _ _ _
                         Hnet Hok Hjson Ht Hcls).
              destruct (below n (maxAttempts cfg)); intros E;
                [discriminate E |].
              injection E as <- _. right. right. right. now exists e.
        -- rewrite (attempt_body_falsy _ _ _ _ _ _ Hnet Hok Hjson Ht).
           destruct (below n (maxAttempts cfg)); intros E; [discriminate E |].
           injection E as <- _. right. now left.
      * rewrite (attempt_body_unparseable w cfg _ _ _ _ _ _ Hnet Hok Hjson).
        destruct (below n (maxAttempts cfg)); intros E; [discriminate E |].
        injection E as <- _. right. now left.
    + rewrite (attempt_body_http_failure _ _ _ _ _ Hnet Hok).
      destruct (isTransientHttp (res_status res) && below n (maxAttempts cfg));
        intros E; [discriminate E |].
      injection E as <- _. left. exists res. auto.
  - rewrite (attempt_body_rejected _ _ _ _ _ Hnet).
    destruct (below n (maxAttempts cfg)); intros E; [discriminate E |].
    injection E as <- _. right. right. right. now exists e.
Qed.

(** A result of the loop is the result some iteration returned. *)
Lemma for_attempts_result (apiKey videoId : jstr) (attempts : list Z)
  (st st' : State) (r : TranscriptResult Num) :
  for_attempts w cfg apiKey videoId attempts st = (Ret (Some r), st') ->
  exists n st0 st1,
    attempt_body w cfg apiKey videoId n st0 = (Ret (Return r), st1).
Proof.
  revert st. induction attempts as [| a rest IH]; intros st.
  - simpl. unfold ret. discriminate.
  - rewrite for_attempts_cons.
    destruct (attempt_body w cfg apiKey videoId a st)
      as [[[| r0] | e] st1] eqn:Ebody.
    + apply IH.
    + intros E. injection E as <- _. eauto.
    + discriminate.
Qed.


(** X2: a failed answer whose status is not one of 429, 500, 502, 503, 504
    is never retried: whatever the attempt number and however many attempts
    remain, the loop returns the provider failure after that one request,
    without sleeping. *)
Theorem permanent_http_failure_not_retried (apiKey videoId : jstr) (n : Z)
  (rest : list Z) (st : State) (res : Response Num)
  (Hnet : net w (fetches st) = Responded res)
  (Hok : res_ok res = false)
  (Hperm : isTransientHttp (res_status res) = false) :
  for_attempts w cfg apiKey videoId (n :: rest) st =
  (Ret (Some (TFail (formatProviderError (lit "scrapingdog")
                       (res_status res) (bodySnippet res)))),
   after_fetch st apiKey videoId).
Proof.
  rewrite for_attempts_cons, (attempt_body_http_failure _ _ _ _ _ Hnet Hok),
    Hperm.
  reflexivity.
Qed.

(** X3: a failed answer with a transient status (429, 500, 502, 503, 504)
    is retried after one backoff while attempts remain, and on the last
    attempt it becomes the provider failure carrying that status. *)
Theorem transient_http_failure_retried (apiKey videoId : jstr) (n : Z)
  (rest : list Z) (st : State) (res : Response Num)
  (Hnet : net w (fetches st) = Responded res)
  (Hok : res_ok res = false)
  (Htrans : isTransientHttp (res_status res) = true) :
  ((inject_Z n < maxAttempts cfg)%Q ->
   for_attempts w cfg apiKey videoId (n :: rest) st =
   for_attempts w cfg apiKey videoId rest
     (after_backoff w cfg (after_fetch st apiKey videoId) n))
  /\ ((maxAttempts cfg <= inject_Z n)%Q ->
      for_attempts w cfg apiKey videoId (n :: rest) st =
      (Ret (Some (TFail (formatProviderError (lit "scrapingdog")
                           (res_status res) (bodySnippet res)))),
       after_fetch st apiKey videoId)).
Proof.
  rewrite for_attempts_cons, (attempt_body_http_failure _ _ _ _ _ Hnet Hok),
    Htrans.
  split; intros Hn.
  - destruct (below_spec n (maxAttempts cfg)); [reflexivity | lra].
  - destruct (below_spec n (maxAttempts cfg)); [lra | reflexivity].
Qed.

(** X4: a rejected request (network error) is caught and retried after one
    backoff while attempts remain; on the last attempt the fetcher returns
    the failure [scrapingdog_fetch_error:] followed by what [safeErrMsg]
    makes of the error, which for an error with a message is that message
    with whitespace collapsed, cut to 200 code units. *)
Theorem network_error_retried (apiKey videoId : jstr) (n : Z)
  (rest : list Z) (st : State) (e : JsError)
  (Hnet : net w (fetches st) = Rejected e) :
  ((inject_Z n < maxAttempts cfg)%Q ->
   for_attempts w cfg apiKey videoId (n :: rest) st =
   for_attempts w cfg apiKey videoId rest
     (after_backoff w cfg (after_fetch st apiKey videoId) n))
  /\ ((maxAttempts cfg <= inject_Z n)%Q ->
      for_attempts w cfg apiKey videoId (n :: rest) st =
      (Ret (Some (TFail (lit "scrapingdog_fetch_error:" ++ safeErrMsg e))),
       after_fetch st apiKey videoId)
      /\ (err_message e <> [] ->
          safeErrMsg e = slice0 200 (collapse_ws (err_message e)))
      /\ (length (safeErrMsg e) <= 200)%nat
      /\ single_spaced (safeErrMsg e) = true).
Proof.
  rewrite for_attempts_cons, (attempt_body_rejected _ _ _ _ _ Hnet).
  split; intros Hn.
  - destruct (below_spec n (maxAttempts cfg)); [reflexivity | lra].
  - destruct (below_spec n (maxAttempts cfg)); [lra |].
    split; [reflexivity |]. split; [| split].
    + intros Hmsg. unfold safeErrMsg.
      destruct (err_message e); [congruence | reflexivity].
    + apply safeErrMsg_length.
    + unfold safeErrMsg. apply slice0_single, collapse_ws_single.
Qed.

End RetryPolicy.

Section FetcherRuns.
Context {Num : Type} `{JsNumber Num}.
Variable w : World Num.
Variable cfg : FetchConfig.

(** [k] retryable outcomes followed by a parsed body that classifies: the
    loop over the attempts [a, a + 1, ...] returns that classification. *)
Lemma for_attempts_recovers (apiKey videoId : jstr) (res : Response Num)
  (data : JsVal Num) (r : TranscriptResult Num) (k : nat) :
  forall (a len : nat) (st : State),
    (forall i, (i < k)%nat -> retryable (net w (fetches st + i)) = true) ->
    net w (fetches st + k) = Responded res ->
    res_ok res = true ->
    res_json res = Ret data ->
    truthy data = true ->
    classifyBody data = Ret r ->
    (k < len)%nat ->
    (inject_Z (Z.of_nat (a + k)) <= maxAttempts cfg)%Q ->
    exists st',
      for_attempts w cfg apiKey videoId (map Z.of_nat (seq a len)) st
      = (Ret (Some r), st')
      /\ fetches st' = (fetches st + k + 1)%nat
      /\ randoms st' = (randoms st + k)%nat
      /\ length (log st') = (length (log st) + 2 * k + 1)%nat.
Proof.
  induction k as [| k IH];
    intros a len st Hretry Hnet Hok Hjson Ht Hcls Hlen Hmax.
  - destruct len as [| len]; [lia |]. cbn [seq map].
    rewrite for_attempts_cons. rewrite Nat.add_0_r in Hnet.
    rewrite (attempt_body_parsed w cfg _ _ _ _ _ _ _ Hnet Hok Hjson Ht Hcls).
    eexists. split; [reflexivity |]. simpl. rewrite length_app. simpl.
    repeat split; lia.
  - destruct len as [| len]; [lia |]. cbn [seq map].
    rewrite for_attempts_cons.
    rewrite attempt_body_retryable.
    + destruct (IH (S a) len
                  (after_backoff w cfg (after_fetch st apiKey videoId)
                     (Z.of_nat a))) as [st' [Hrun [Hf [Hr Hl]]]].
      * intros i Hi. simpl. rewrite <- Nat.add_succ_r. apply Hretry. lia.
      * simpl. rewrite <- Nat.add_succ_r. exact Hnet.
      * exact Hok.
      * exact Hjson.
      * exact Ht.
      * exact Hcls.
      * lia.
      * replace (S a + k)%nat with (a + S k)%nat by lia. exact Hmax.
      * exists st'. split; [exact Hrun |].
        simpl in Hf, Hr, Hl. rewrite !length_app in Hl. simpl in Hl.
        repeat split; lia.
    + specialize (Hretry O ltac:(lia)). now rewrite Nat.add_0_r in Hretry.
    + apply Qlt_le_trans with (inject_Z (Z.of_nat (a + S k))); [| exact Hmax].
      rewrite <- Zlt_Qlt. lia.
Qed.

(** X5: if the first [k] answers are retryable (rejected request,
    transient status, unparseable or falsy body, segment text that does not
    convert to a string) with [k + 1 <= maxAttempts], and the next answer is
    a 2xx with a parsed body that classifies without throwing, the fetcher
    returns that classification after exactly [k + 1] requests and [k]
    sleeps. *)
Theorem fetch_recovers_after_retries (c : N) (key : jstr) (videoId : jstr)
  (st : State) (k : nat) (res : Response Num) (data : JsVal Num)
  (r : TranscriptResult Num)
  (Hkey : SCRAPINGDOG_API_KEY cfg = Some (c :: key))
  (Hbudget : (inject_Z (Z.of_nat k + 1) <= maxAttempts cfg)%Q)
  (Hretry : forall i, (i < k)%nat ->
                      retryable (net w (fetches st + i)) = true)
  (Hnet : net w (fetches st + k) = Responded res)
  (Hok : res_ok res = true)
  (Hjson : res_json res = Ret data)
  (Htruthy : truthy data = true)
  (Hcls : classifyBody data = Ret r) :
  exists st',
    fetchTranscriptFromScrapingDog w cfg videoId st = (Ret r, st')
    /\ fetches st' = (fetches st + k + 1)%nat
    /\ randoms st' = (randoms st + k)%nat
    /\ length (log st') = (length (log st) + 2 * k + 1)%nat.
Proof.
  assert (Hfloor : Z.of_nat k + 1 <= Qfloor (maxAttempts cfg)).
  { apply Qfloor_resp_le in Hbudget. now rewrite Qfloor_Z in Hbudget. }
  destruct (for_attempts_recovers (c :: key) videoId res data r k 1
              (Z.to_nat (Qfloor (maxAttempts cfg))) st
              Hretry Hnet Hok Hjson Htruthy Hcls)
    as [st' [Hrun Hcounts]]; [lia | |].
  { replace (Z.of_nat (1 + k)) with (Z.of_nat k + 1) by lia. exact Hbudget. }
  exists st'. split; [| exact Hcounts].
  unfold fetchTranscriptFromScrapingDog. rewrite Hkey. unfold bind, attempt_range.
  now rewrite Hrun.
Qed.

(** X6: with [maxAttempts] configured as zero or less the loop body never
    runs: the fetcher issues no request and returns
    [scrapingdog_unknown_error]. *)
Theorem no_attempts_no_request (c : N) (key : jstr) (videoId : jstr)
  (st : State)
  (Hkey : SCRAPINGDOG_API_KEY cfg = Some (c :: key))
  (Hmax : (maxAttempts cfg <= 0)%Q) :
  fetchTranscriptFromScrapingDog w cfg videoId st
  = (Ret (TFail (lit "scrapingdog_unknown_error")), st).
Proof.
  unfold fetchTranscriptFromScrapingDog. rewrite Hkey. unfold attempt_range.
  apply Qfloor_resp_le in Hmax. change (Qfloor 0) with 0 in Hmax.
  replace (Z.to_nat (Qfloor (maxAttempts cfg))) with O by lia. reflexivity.
Qed.


(** X8: when every answered status lies in [0, 999], every failure the
    fetcher returns carries a reason of at most 224 code units. *)
Theorem failure_reason_bounded (videoId : jstr) (st st' : State)
  (reason : jstr)
  (Hstatus : forall i res, net w i = Responded res ->
                           0 <= res_status res <= 999)
  (Hrun : fetchTranscriptFromScrapingDog w cfg videoId st
          = (Ret (TFail reason), st')) :
  (length reason <= 224)%nat.
Proof.
  unfold fetchTranscriptFromScrapingDog in Hrun.
  destruct (SCRAPINGDOG_API_KEY cfg) as [[| c key] |]; try discriminate Hrun.
  unfold bind in Hrun.
  destruct (for_attempts w cfg (c :: key) videoId
              (attempt_range (maxAttempts cfg)) st)
    as [[[r |] | e] st1] eqn:Hloop; try discriminate Hrun.
  - unfold ret in Hrun. injection Hrun as -> _.
    destruct (for_attempts_result w cfg _ _ _ _ _ _ Hloop)
      as [n [st0 [st2 Hbody]]].
    destruct (attempt_body_return_shape w cfg _ _ _ _ _ _ Hbody)
      as [[res [Hnet [_ Hr]]] | [Hr | [[data Hr] | [e Hr]]]].
    + injection Hr as ->.
      pose proof (formatProviderError_length (lit "scrapingdog")
                    (res_status res) (bodySnippet res)) as Hlen.
      pose proof (int_to_string_status_length _ (Hstatus _ _ Hnet)) as Hdig.
      simpl length in Hlen at 2. lia.
    + injection Hr as ->. simpl. lia.
    + unfold classifyBody in Hr.
      destruct (get data "transcripts") as [| | | | | [| first rest] |];
        try (injection Hr as <-; simpl; lia).
      destruct (Nat.eqb (length (first :: rest)) 1 && typeof_string first);
        [injection Hr as <-; simpl; lia |].
      destruct (negb (typeof_object first));
        [injection Hr as <-; simpl; lia |].
      destruct (fullTextOf (first :: rest)) as [fullText | e0];
        cbn [exec_bind] in Hr; [| discriminate Hr].
      destruct (negb (nonempty fullText)
                || (Z.of_nat (length fullText) <? 200));
        [injection Hr as <-; simpl; lia | discriminate Hr].
    + injection Hr as Hr. apply (f_equal (@length N)) in Hr.
      pose proof (safeErrMsg_length e). simpl in Hr. lia.
  - unfold ret in Hrun. injection Hrun as <- _. simpl. lia.
Qed.

(** X9: a success carries a text without leading or trailing whitespace
    and without whitespace other than single spaces, at least one segment,
    and it came from a text of at least 200 code units before decoding. *)
Theorem success_text_tidy (videoId : jstr) (st st' : State)
  (text : jstr) (segments : Z) (lang : JsVal Num)
  (Hrun : fetchTranscriptFromScrapingDog w cfg videoId st
          = (Ret (TOk text segments lang), st')) :
  is_trimmed text = true
  /\ single_spaced text = true
  /\ 1 <= segments
  /\ exists fullText,
       text = decodeHtmlEntities fullText
       /\ 200 <= Z.of_nat (length fullText)
       /\ (length text <= length fullText)%nat.
Proof.
  unfold fetchTranscriptFromScrapingDog in Hrun.
  destruct (SCRAPINGDOG_API_KEY cfg) as [[| c key] |]; try discriminate Hrun.
  unfold bind in Hrun.
  destruct (for_attempts w cfg (c :: key) videoId
              (attempt_range (maxAttempts cfg)) st)
    as [[[r |] | e] st1] eqn:Hloop; try discriminate Hrun.
  unfold ret in Hrun. injection Hrun as -> _.
  destruct (for_attempts_result w cfg _ _ _ _ _ _ Hloop)
    as [n [st0 [st2 Hbody]]].
  destruct (attempt_body_return_shape w cfg _ _ _ _ _ _ Hbody)
    as [[res [_ [_ Hr]]] | [Hr | [[data Hr] | [e Hr]]]];
    try discriminate Hr.
  unfold classifyBody in Hr.
  destruct (get data "transcripts") as [| | | | | [| first rest] |];
    try discriminate Hr.
  destruct (Nat.eqb (length (first :: rest)) 1 && typeof_string first);
    [discriminate Hr |].
  destruct (negb (typeof_object first)); [discriminate Hr |].
  destruct (fullTextOf (first :: rest)) as [fullText | e0];
    cbn [exec_bind] in Hr; [| discriminate Hr].
  destruct (negb (nonempty fullText) || (Z.of_nat (length fullText) <? 200))
    eqn:Eshort; [discriminate Hr |].
  injection Hr as <- <- _.
  apply orb_false_iff in Eshort. destruct Eshort as [_ Elen].
  apply Z.ltb_ge in Elen.
  split; [apply trim_is_trimmed |].
  split; [apply trim_single, collapse_ws_single |].
  split; [simpl length; lia |].
  exists fullText. split; [reflexivity |].
  split; [exact Elen |].
  unfold decodeHtmlEntities. cbv zeta.
  etransitivity; [apply trim_length |].
  etransitivity; [apply collapse_from_length |].
  repeat (etransitivity; [apply replaceAll_length; simpl; lia |]).
  apply Nat.le_refl.
Qed.

End FetcherRuns.

(** ** The assembled digest *)

Lemma slice0_length_exact {A} (n : Z) (l : list A) :
  Z.of_nat (length (slice0 n l)) =
  if n <? 0
  then Z.max (Z.of_nat (length l) + n) 0
  else Z.min n (Z.of_nat (length l)).
Proof.
  unfold slice0. rewrite length_firstn.
  destruct (Z.ltb_spec n 0); lia.
Qed.

Lemma itemVideo_showSummarized (x : SummarizedItem) :
  itemVideo (showSummarized x) = sm_video x.
Proof. destruct x as [smry [t u i p c]]. reflexivity. Qed.

Lemma itemVideo_showSkipped (x : SkippedItem) :
  itemVideo (showSkipped x) = sk_video x.
Proof. destruct x as [rsn [t u i p c]]. reflexivity. Qed.

Lemma dedupVideos_ids_NoDup (allVideos : list VideoRecord) :
  NoDup (map videoId (dedupVideos allVideos)).
Proof.
  apply (Permutation_NoDup
           (Permutation_sym
              (Permutation_map videoId
                 (js_sort_perm (byRecency publishedAt)
                    (map_values (dedupMap allVideos)))))).
  rewrite dedupMap_ids. apply dedup_fold_NoDup. constructor.
Qed.

Lemma dedupVideos_nonempty (v : VideoRecord) (rest : list VideoRecord) :
  dedupVideos (v :: rest) <> [].
Proof.
  destruct (lastWithId_present (videoId v) (v :: rest)) as [u Hu];
    [now left |].
  destruct (lastWithId_id _ _ _ Hu) as [Hid _].
  rewrite <- Hid in Hu. apply dedupMap_values in Hu.
  apply (Permutation_in _
           (Permutation_sym (js_sort_perm (byRecency publishedAt) _))) in Hu.
  intros Hnil. unfold dedupVideos in Hnil. rewrite Hnil in Hu. destruct Hu.
Qed.

Lemma StronglySorted_app_inv {A} (R : A -> A -> Prop) (l1 l2 : list A) :
  StronglySorted R (l1 ++ l2) ->
  StronglySorted R l1
  /\ StronglySorted R l2
  /\ (forall x y, In x l1 -> In y l2 -> R x y).
Proof.
  induction l1 as [| a l1 IH]; simpl; intros Hs.
  - repeat split; [constructor | exact Hs | intros x y []].
  - inversion Hs as [| ? ? Hs' Hall]; subst.
    destruct (IH Hs') as [H1 [H2 H12]].
    rewrite Forall_forall in Hall.
    repeat split; [| exact H2 |].
    + constructor; [exact H1 |]. apply Forall_forall. intros x Hx.
      apply Hall, in_or_app. now left.
    + intros x y [<- | Hx] Hy; [| now apply H12].
      apply Hall, in_or_app. now right.
Qed.

Section DigestFacts.
Context {Num : Type} `{JsNumber Num}.
Variable w : World Num.
Variable cfg : FetchConfig.
Variable summarizeTranscript : jstr -> jstr -> jstr -> Z -> M Summary.

Lemma scan_video_reasons (v : VideoRecord)
  (sm sm' : list SummarizedItem) (sk sk' : list SkippedItem) (st st' : State) :
  scan_video w cfg summarizeTranscript v (sm, sk) st = (Ret (sm', sk'), st') ->
  Forall (fun x => exists r, sk_reason x = skipReason r) sk ->
  Forall (fun x => exists r, sk_reason x = skipReason r) sk'.
Proof.
  unfold scan_video, bind.
  destruct (fetchTranscriptFromScrapingDog w cfg (videoId v) st)
    as [[[text segs lang | t_reason] | e] st1]; [| | discriminate].
  - destruct (summarizeTranscript (title v) (channelName v) text 5 st1)
      as [[smry | e] st2]; [| discriminate].
    unfold ret. intros E. injection E as _ <- _. auto.
  - unfold ret. intros E Hsk. injection E as _ <- _.
    apply Forall_app. split; [exact Hsk |].
    constructor; [| constructor]. now exists t_reason.
Qed.

Lemma scan_videos_reasons (videos : list VideoRecord)
  (sm sm' : list SummarizedItem) (sk sk' : list SkippedItem) (st st' : State) :
  scan_videos w cfg summarizeTranscript videos (sm, sk) st
  = (Ret (sm', sk'), st') ->
  Forall (fun x => exists r, sk_reason x = skipReason r) sk ->
  Forall (fun x => exists r, sk_reason x = skipReason r) sk'.
Proof.
  revert sm sk st.
  induction videos as [| v rest IH]; intros sm sk st; cbn [scan_videos].
  - unfold ret. intros E. injection E as _ <- _. auto.
  - unfold bind.
    destruct (scan_video w cfg summarizeTranscript v (sm, sk) st)
      as [[[sm1 sk1] | e] st1] eqn:Estep; [| discriminate].
    intros Hrest Hsk. apply (IH _ _ _ Hrest).
    apply (scan_video_reasons _ _ _ _ _ _ _ Estep Hsk).
Qed.

(** The displayed items are the head of the sorted list of all items; the
    rest of that list is what is not shown. *)
Lemma assembleGroup_layout (cap : Q) (packLabel : jstr)
  (allVideos : list VideoRecord) (st st' : State) (d : GroupDigest) :
  assembleGroup w cfg summarizeTranscript cap packLabel allVideos st
  = (Ret d, st') ->
  exists sm sk hidden,
    items d ++ hidden
    = js_sort (byRecency item_publishedAt)
        (map showSummarized sm ++ map showSkipped sk)
    /\ Permutation (map itemVideo (items d ++ hidden)) (dedupVideos allVideos)
    /\ Forall (fun x => exists r, sk_reason x = skipReason r) sk
    /\ notShownCount d = Z.of_nat (length hidden)
    /\ items d
       = slice0 (js_trunc cap) (js_sort (byRecency item_publishedAt)
                       (map showSummarized sm ++ map showSkipped sk))
    /\ label d = packLabel.
Proof.
  unfold assembleGroup, bind.
  destruct (scan_videos w cfg summarizeTranscript (dedupVideos allVideos)
              ([], []) st) as [[[sm sk] | e] st1] eqn:Escan; [| discriminate].
  unfold ret. intros E. injection E as <- _.
  cbn [items notShownCount label].
  set (combined := js_sort (byRecency item_publishedAt)
                     (map showSummarized sm ++ map showSkipped sk)).
  destruct (slice0_prefix (js_trunc cap) combined) as [hidden Hsplit].
  exists sm, sk, hidden.
  split; [now rewrite <- Hsplit |].
  split.
  - rewrite <- Hsplit. unfold combined.
    rewrite (Permutation_map itemVideo (js_sort_perm _ _)).
    rewrite map_app, !map_map.
    rewrite (map_ext _ _ itemVideo_showSummarized).
    rewrite (map_ext _ _ itemVideo_showSkipped).
    apply (scan_videos_partition _ _ _ _ _ _ _ _ _ _ Escan).
  - split; [apply (scan_videos_reasons _ _ _ _ _ _ _ Escan); constructor |].
    split; [| split; reflexivity].
    rewrite Hsplit at 1. rewrite length_app. lia.
Qed.

(** X10: the displayed items are ordered most recent first, and the cap
    cuts from the old end: together with the videos not shown they make up
    the considered set, no video not shown was published later than a
    displayed one, and [notShownCount] is the number of videos not shown. *)
Theorem displayed_are_the_most_recent (cap : Q) (packLabel : jstr)
  (allVideos : list VideoRecord) (st st' : State) (d : GroupDigest)
  (Hrun : assembleGroup w cfg summarizeTranscript cap packLabel allVideos st
          = (Ret d, st')) :
  recentFirst item_publishedAt (items d)
  /\ exists hiddenVideos,
       Permutation (map itemVideo (items d) ++ hiddenVideos)
                   (dedupVideos allVideos)
       /\ (forall i h, In i (items d) -> In h hiddenVideos ->
                       str_lt (item_publishedAt i) (publishedAt h) = false)
       /\ notShownCount d = Z.of_nat (length hiddenVideos).
Proof.
  destruct (assembleGroup_layout _ _ _ _ _ _ Hrun)
    as [sm [sk [hidden [Hsplit [Hperm [_ [Hnot _]]]]]]].
  pose proof (byRecency_sorted item_publishedAt
                (map showSummarized sm ++ map showSkipped sk)) as Hsorted.
  rewrite <- Hsplit in Hsorted. unfold recentFirst in Hsorted.
  apply StronglySorted_app_inv in Hsorted.
  destruct Hsorted as [Hitems [_ Hcross]].
  split; [exact Hitems |].
  exists (map itemVideo hidden).
  split; [now rewrite <- map_app |].
  split; [| now rewrite length_map].
  intros i h Hi Hh. apply in_map_iff in Hh. destruct Hh as [x [<- Hx]].
  apply (Hcross i x Hi Hx).
Qed.

(** X11: every displayed item carries the identifier, title, URL, channel
    and timestamp of one considered video, and no video is displayed
    twice. *)
Theorem displayed_are_distinct_considered (cap : Q) (packLabel : jstr)
  (allVideos : list VideoRecord) (st st' : State) (d : GroupDigest)
  (Hrun : assembleGroup w cfg summarizeTranscript cap packLabel allVideos st
          = (Ret d, st')) :
  NoDup (map item_videoId (items d))
  /\ forall i, In i (items d) -> In (itemVideo i) (dedupVideos allVideos).
Proof.
  destruct (assembleGroup_layout _ _ _ _ _ _ Hrun)
    as [sm [sk [hidden [_ [Hperm _]]]]].
  split.
  - pose proof (Permutation_NoDup
                  (Permutation_sym (Permutation_map videoId Hperm))
                  (dedupVideos_ids_NoDup allVideos)) as Hnd.
    rewrite map_map, map_app in Hnd.
    apply NoDup_app_remove_r in Hnd. exact Hnd.
  - intros i Hi. apply (Permutation_in _ Hperm).
    apply in_map. apply in_or_app. now left.
Qed.

(** X12: every displayed item is either summarized, with a summary and no
    reason, or skipped, with no summary and one of the two fixed reason
    texts: no provider reason or payload reaches the digest. *)
Theorem displayed_items_shape (cap : Q) (packLabel : jstr)
  (allVideos : list VideoRecord) (st st' : State) (d : GroupDigest)
  (Hrun : assembleGroup w cfg summarizeTranscript cap packLabel allVideos st
          = (Ret d, st')) :
  Forall
    (fun i =>
       (status i = summarized /\ summary i <> None /\ reason i = None)
       \/ (status i = skipped /\ summary i = None
           /\ (reason i
               = Some (lit "This video has no transcript/captions available on YouTube.")
               \/ reason i = Some (lit "Transcript unavailable or too short."))))
    (items d).
Proof.
  destruct (assembleGroup_layout _ _ _ _ _ _ Hrun)
    as [sm [sk [hidden [_ [_ [Hreasons [_ [Hitems _]]]]]]]].
  apply Forall_forall. intros i Hi.
  rewrite Hitems in Hi. apply slice0_incl in Hi.
  apply (Permutation_in _ (js_sort_perm _ _)) in Hi.
  apply in_app_or in Hi. destruct Hi as [Hi | Hi];
    apply in_map_iff in Hi; destruct Hi as [x [<- Hx]].
  - left. simpl. repeat split. discriminate.
  - right. simpl. repeat split.
    rewrite Forall_forall in Hreasons.
    destruct (Hreasons x Hx) as [r ->]. unfold skipReason.
    destruct (str_eqb r (lit "no_transcript")); auto.
Qed.

(** X13: [slice] drops the fraction of the cap, towards zero; with [n]
    the cap so truncated, the number of displayed items is
    [min(n, considered)] for an [n] that is not negative, and
    [max(considered + n, 0)] for a negative one; [notShownCount] is the
    rest of the considered set. *)
Theorem displayed_count_exact (cap : Q) (packLabel : jstr)
  (allVideos : list VideoRecord) (st st' : State) (d : GroupDigest)
  (Hrun : assembleGroup w cfg summarizeTranscript cap packLabel allVideos st
          = (Ret d, st')) :
  Z.of_nat (length (items d))
  = (if js_trunc cap <? 0
     then Z.max (Z.of_nat (length (dedupVideos allVideos)) + js_trunc cap) 0
     else Z.min (js_trunc cap) (Z.of_nat (length (dedupVideos allVideos))))
  /\ notShownCount d
     = Z.of_nat (length (dedupVideos allVideos)) - Z.of_nat (length (items d)).
Proof.
  destruct (assembleGroup_layout _ _ _ _ _ _ Hrun)
    as [sm [sk [hidden [Hsplit [Hperm [_ [Hnot [Hitems _]]]]]]]].
  pose proof (Permutation_length Hperm) as Hlen.
  rewrite length_map, length_app in Hlen.
  assert (Hcombined :
            length (js_sort (byRecency item_publishedAt)
                      (map showSummarized sm ++ map showSkipped sk))
            = length (dedupVideos allVideos)).
  { rewrite <- Hsplit, length_app. exact Hlen. }
  split.
  - rewrite Hitems at 1. rewrite slice0_length_exact, Hcombined. reflexivity.
  - rewrite Hnot. lia.
Qed.

(** X14: without a configured key, a group with at least one collected
    video makes the whole round throw [Missing SCRAPINGDOG_API_KEY] before
    any request, while a group without videos still yields an empty digest
    with all counts zero. *)
Theorem missing_key_aborts_nonempty_group (cap : Q) (packLabel : jstr)
  (v : VideoRecord) (rest : list VideoRecord) (st : State)
  (Hkey : key_missing (SCRAPINGDOG_API_KEY cfg) = true) :
  assembleGroup w cfg summarizeTranscript cap packLabel (v :: rest) st
  = (Throw (mkError (lit "Error") (lit "Missing SCRAPINGDOG_API_KEY")), st)
  /\ assembleGroup w cfg summarizeTranscript cap packLabel [] st
     = (Ret {| label := packLabel; totalNew := 0; summarizedCount := 0;
               skippedCount := 0; notShownCount := 0; items := [] |}, st).
Proof.
  split.
  - unfold assembleGroup, bind.
    destruct (dedupVideos (v :: rest)) as [| u us] eqn:Ed;
      [now apply dedupVideos_nonempty in Ed |].
    cbn [scan_videos]. unfold bind, scan_video, bind.
    unfold fetchTranscriptFromScrapingDog.
    destruct (SCRAPINGDOG_API_KEY cfg) as [[| c k] |];
      try discriminate Hkey; reflexivity.
  - unfold assembleGroup, bind.
    change (dedupVideos []) with (@nil VideoRecord).
    cbn [scan_videos]. unfold ret. cbn [map app].
    change (js_sort (byRecency item_publishedAt) []) with (@nil DisplayItem).
    unfold slice0. rewrite firstn_nil. reflexivity.
Qed.

End DigestFacts.

(** ** The feed reader *)

Lemma starts_with_split (text s : jstr) :
  starts_with text s = true -> s = text ++ skipn (length text) s.
Proof.
  revert s. induction text as [| p text IH]; intros [| c s]; simpl;
    try discriminate; try reflexivity.
  rewrite andb_true_iff, N.eqb_eq. intros [-> Hrest].
  f_equal. now apply IH.
Qed.

Lemma starts_with_prefix (text rest : jstr) :
  starts_with text (text ++ rest) = true.
Proof.
  induction text as [| p text IH]; simpl; [reflexivity |].
  now rewrite N.eqb_refl, IH.
Qed.

(** What a repetition consumed when the match succeeds. *)
Lemma re_star_sound (cls : N -> bool) (lazy : bool)
  (k : jstr -> option jstr) (r : jstr) (s : jstr) :
  forall min,
    re_star cls lazy k min s = Some r ->
    exists taken rest,
      s = taken ++ rest
      /\ forallb cls taken = true
      /\ (min <= length taken)%nat
      /\ k rest = Some r.
Proof.
  induction s as [| c s IH]; intros min; simpl.
  - destruct min; [| discriminate]. intros Hk.
    exists [], []. repeat split; auto.
  - destruct (cls c) eqn:Ec.
    + assert (Hgo : forall m, re_star cls lazy k m s = Some r ->
                (m = pred min \/ (min = S m)) ->
                exists taken rest,
                  c :: s = taken ++ rest /\ forallb cls taken = true
                  /\ (min <= length taken)%nat /\ k rest = Some r).
      { intros m Hm Hrel. destruct (IH m Hm) as [taken [rest [-> [Hc [Hlen Hk]]]]].
        exists (c :: taken), rest. simpl. rewrite Ec, Hc.
        repeat split; auto. destruct Hrel; lia. }
      assert (Hstop : min = O -> k (c :: s) = Some r ->
                exists taken rest,
                  c :: s = taken ++ rest /\ forallb cls taken = true
                  /\ (min <= length taken)%nat /\ k rest = Some r).
      { intros -> Hk. exists [], (c :: s). repeat split; auto. }
      destruct lazy.
      * destruct min as [| m].
        -- destruct (k (c :: s)) as [x |] eqn:Hk.
           ++ intros E. injection E as ->. now apply Hstop.
           ++ intros Hm. apply (Hgo O Hm). now left.
        -- intros Hm. apply (Hgo m Hm). now right.
      * destruct (re_star cls false k (pred min) s) as [x |] eqn:Hm.
        -- intros E. injection E as ->. apply (Hgo (pred min) Hm). now left.
        -- destruct min; [| discriminate]. now apply Hstop.
    + destruct min; [| discriminate]. intros Hk.
      exists [], (c :: s). repeat split; auto.
Qed.

(** A successful search matched at some position of the input. *)
Lemma re_search_sound (atoms : list ReAtom) (s r : jstr) :
  re_search atoms s = Some r ->
  exists before from,
    s = before ++ from /\ re_atoms atoms [] [] from = Some r.
Proof.
  induction s as [| c s IH]; simpl.
  - destruct (re_atoms atoms [] [] []) eqn:E; [| discriminate].
    intros E'. injection E' as ->. now exists [], [].
  - destruct (re_atoms atoms [] [] (c :: s)) eqn:E.
    + intros E'. injection E' as ->. now exists [], (c :: s).
    + intros Hs. destruct (IH Hs) as [before [from [-> Hm]]].
      now exists (c :: before), from.
Qed.

Lemma firstn_app_length {A} (a b : list A) :
  firstn (length (a ++ b) - length b) (a ++ b) = a.
Proof.
  rewrite length_app. replace (length a + length b - length b)%nat
    with (length a) by lia.
  rewrite firstn_app, Nat.sub_diag, firstn_all. simpl. apply app_nil_r.
Qed.

(** The link pattern captures a non-empty text without double quote that
    stands in the block between [href=] with its opening quote and a
    closing quote. *)
Lemma linkPattern_sound (block link : jstr) :
  re_search linkPattern block = Some link ->
  link <> []
  /\ forallb (not_unit 34) link = true
  /\ exists before after,
       block = before ++ lit "href=" ++ [34%N] ++ link ++ [34%N] ++ after.
Proof.
  intros Hs. apply re_search_sound in Hs.
  destruct Hs as [before [from [-> Hm]]].
  unfold linkPattern in Hm. cbn [re_atoms] in Hm.
  destruct (starts_with (lit "<link") from) eqn:E1; [| discriminate].
  apply starts_with_split in E1.
  apply re_star_sound in Hm.
  destruct Hm as [attrs [rest [Hfrom [_ [_ Hk]]]]].
  cbn [re_atoms] in Hk.
  destruct (starts_with (lit "href=" ++ [34%N]) rest) eqn:E2; [| discriminate].
  apply starts_with_split in E2.
  apply re_star_sound in Hk.
  destruct Hk as [taken [rest2 [Hrest [Hcls [Hlen Hk]]]]].
  cbn [re_atoms] in Hk.
  destruct (starts_with [34%N] rest2) eqn:E3; [| discriminate].
  apply starts_with_split in E3.
  rewrite Hrest, firstn_app_length in Hk. injection Hk as <-.
  split; [destruct taken; [simpl in Hlen; lia | discriminate] |].
  split; [exact Hcls |].
  exists (before ++ lit "<link" ++ attrs), (skipn (length [34%N]) rest2).
  rewrite E1, Hfrom, E2, Hrest. rewrite E3 at 1.
  rewrite <- !app_assoc. reflexivity.
Qed.

(** Both channel patterns capture [UC] followed by at least twenty code
    units of [[a-zA-Z0-9_-]]. *)
Lemma channelId_capture (before : list ReAtom) (after : list ReAtom)
  (html m : jstr) :
  (before = [ReLit ([34%N] ++ lit "channelId" ++ [34%N] ++ lit ":" ++ [34%N])]
   /\ after = [ReLit [34%N]])
  \/ (before = [ReLit (lit "https://www.youtube.com/channel/")]
      /\ after = []) ->
  re_search (before ++ [ReOpen; ReLit (lit "UC");
                        ReStar channel_id_unit 20 false; ReClose] ++ after)
    html = Some m ->
  exists tail,
    m = lit "UC" ++ tail
    /\ (20 <= length tail)%nat
    /\ forallb channel_id_unit tail = true.
Proof.
  intros Hshape Hs. apply re_search_sound in Hs.
  destruct Hs as [pre [from [_ Hm]]].
  assert (Hgroup : forall opened after0,
            (after0 = [ReLit [34%N]] \/ after0 = []) ->
            re_atoms ([ReOpen; ReLit (lit "UC");
                       ReStar channel_id_unit 20 false; ReClose] ++ after0)
              [] [] opened = Some m ->
            exists tail, m = lit "UC" ++ tail /\ (20 <= length tail)%nat
                         /\ forallb channel_id_unit tail = true).
  { intros opened after0 Hafter Hg. cbn [app re_atoms] in Hg.
    destruct (starts_with (lit "UC") opened) eqn:E1; [| discriminate].
    apply starts_with_split in E1.
    apply re_star_sound in Hg.
    destruct Hg as [tail [rest [Hsk [Hcls [Hlen Hk]]]]].
    exists tail. split; [| split; assumption].
    assert (Hcap : firstn (length opened - length rest) opened
                   = lit "UC" ++ tail).
    { rewrite E1, Hsk, app_assoc. apply firstn_app_length. }
    destruct Hafter as [-> | ->]; cbn [re_atoms] in Hk.
    - destruct (starts_with [34%N] rest); [| discriminate].
      rewrite Hcap in Hk. now injection Hk as <-.
    - rewrite Hcap in Hk. now injection Hk as <-. }
  assert (Hlit : forall text rest0 s0,
            re_atoms (ReLit text :: rest0) [] [] s0 =
            if starts_with text s0
            then re_atoms rest0 [] [] (skipn (length text) s0)
            else None) by reflexivity.
  destruct Hshape as [[-> ->] | [-> ->]];
    change ([ReLit ?t] ++ ?l)
      with (ReLit t :: l) in Hm;
    rewrite Hlit in Hm.
  - destruct (starts_with _ from); [| discriminate].
    refine (Hgroup _ [ReLit [34%N]] _ Hm). now left.
  - destruct (starts_with _ from); [| discriminate].
    refine (Hgroup _ [] _ Hm). now right.
Qed.

Lemma split_from_skip (sep current : jstr) (s : jstr) :
  forall skip,
    (skip <= length s)%nat ->
    split_from skip sep current s = split_from O sep current (skipn skip s).
Proof.
  induction s as [| c s IH]; intros skip Hlen.
  - simpl in Hlen. replace skip with O by lia. reflexivity.
  - destruct skip as [| k]; [reflexivity |].
    simpl in Hlen. cbn [split_from skipn]. apply IH. lia.
Qed.

(** The first piece of a split, and where the other pieces come from. *)
Lemma split_from_first (sep : jstr) (s : jstr) :
  sep <> [] ->
  forall current,
  exists piece rest pieces,
    split_from O sep current s = (current ++ piece) :: pieces
    /\ s = piece ++ rest
    /\ (forall p1 p2, piece = p1 ++ p2 -> p2 <> [] ->
                      starts_with sep (p2 ++ rest) = false)
    /\ ((rest = [] /\ pieces = [])
        \/ (starts_with sep rest = true
            /\ pieces = split_from O sep [] (skipn (length sep) rest))).
Proof.
  intros Hsep. induction s as [| c s IH]; intros current.
  - exists [], [], []. rewrite app_nil_r.
    split; [reflexivity |]. split; [reflexivity |]. split; [| now left].
    intros p1 p2 E Hne. apply eq_sym, app_eq_nil in E. tauto.
  - cbn [split_from].
    destruct (starts_with sep (c :: s)) eqn:E.
    + exists [], (c :: s), (split_from (pred (length sep)) sep [] s).
      rewrite app_nil_r.
      split; [reflexivity |]. split; [reflexivity |]. split.
      * intros p1 p2 E' Hne. apply eq_sym, app_eq_nil in E'. tauto.
      * right. split; [exact E |].
        pose proof (starts_with_length _ _ E) as Hlen. simpl in Hlen.
        rewrite split_from_skip by lia.
        destruct sep as [| x sep']; [congruence | reflexivity].
    + destruct (IH (current ++ [c]))
        as [piece [rest [pieces [Hs [Hsplit [Hno Hrest]]]]]].
      exists (c :: piece), rest, pieces.
      rewrite Hs, <- app_assoc.
      split; [reflexivity |]. split; [simpl; now f_equal |].
      split; [| exact Hrest].
      intros p1 p2 E' Hne. destruct p1 as [| x p1].
      * simpl in E'. subst p2. simpl app. rewrite <- Hsplit. exact E.
      * injection E' as _ E'. now apply (Hno p1 p2).
Qed.

Lemma split_first_no_unit (c : N) (s : jstr) :
  exists rest, s = hd [] (split [c] s) ++ rest /\ ~ In c (hd [] (split [c] s)).
Proof.
  destruct (split_from_first [c] s ltac:(discriminate) [])
    as [piece [rest [pieces [Hs [Hsplit [Hno _]]]]]].
  unfold split. rewrite Hs. simpl. exists rest. split; [exact Hsplit |].
  intros Hin. apply in_split in Hin. destruct Hin as [p1 [p2 E]].
  specialize (Hno p1 (c :: p2) E ltac:(discriminate)).
  simpl in Hno. now rewrite N.eqb_refl in Hno.
Qed.

Lemma split_second (sep s piece : jstr) :
  sep <> [] ->
  nth_error (split sep s) 1 = Some piece ->
  exists before after, s = before ++ sep ++ piece ++ after.
Proof.
  intros Hsep Hnth.
  destruct (split_from_first sep s Hsep [])
    as [p0 [rest [pieces [Hs [Hsplit [_ Hrest]]]]]].
  unfold split in Hnth. rewrite Hs in Hnth. simpl in Hnth.
  destruct Hrest as [[_ ->] | [Hstart ->]]; [discriminate |].
  destruct (split_from_first sep (skipn (length sep) rest) Hsep [])
    as [p1 [rest1 [pieces1 [Hs1 [Hsplit1 _]]]]].
  rewrite Hs1 in Hnth. simpl in Hnth. injection Hnth as <-.
  exists p0, rest1. rewrite Hsplit.
  rewrite (starts_with_split _ _ Hstart) at 1. now rewrite Hsplit1.
Qed.

Lemma videoIdOfLink_sound (link videoId : jstr) :
  videoIdOfLink (Some link) = Some videoId ->
  ~ In 38%N videoId
  /\ exists before after, link = before ++ lit "v=" ++ videoId ++ after.
Proof.
  unfold videoIdOfLink.
  destruct (nth_error (split (lit "v=") link) 1) as [piece |] eqn:Hnth;
    [| discriminate].
  intros E. injection E as <-.
  assert (Hsep : lit "v=" <> []) by discriminate.
  destruct (split_second _ _ _ Hsep Hnth) as [before [after Hlink]].
  destruct (split_first_no_unit 38 piece) as [rest [Hpiece Hno]].
  split; [exact Hno |].
  exists before, (rest ++ after).
  rewrite Hlink. rewrite Hpiece at 1. now rewrite <- !app_assoc.
Qed.

Lemma replaceAll_nonempty (pat rep s : jstr) :
  rep <> [] -> s <> [] -> replaceAll pat rep s <> [].
Proof.
  intros Hrep Hs. destruct s as [| c r]; [congruence |].
  unfold replaceAll. simpl.
  destruct (starts_with pat (c :: r)); [| discriminate].
  destruct rep; [congruence | discriminate].
Qed.

Lemma decodeXml_nonempty (s : jstr) : s <> [] -> decodeXml s <> [].
Proof.
  intros Hs. unfold decodeXml. cbv zeta.
  repeat (apply replaceAll_nonempty; [discriminate |]). exact Hs.
Qed.

Lemma extractXml_tidy (block tag t : jstr) :
  extractXml block tag = Some t -> t <> [] /\ is_trimmed t = true.
Proof.
  unfold extractXml.
  destruct (re_search (xmlPattern tag) block) as [m |]; [| discriminate].
  destruct (trim m) as [| c u] eqn:E; [discriminate |].
  intros E'. injection E' as <-. split; [discriminate |].
  rewrite <- E. apply trim_is_trimmed.
Qed.

(** What a pushed entry is made of. *)
Lemma parseEntry_sound (block : jstr) (e : FeedEntry) :
  parseEntry block = Some e ->
  fe_title e <> []
  /\ (fe_publishedAt e <> [] /\ is_trimmed (fe_publishedAt e) = true)
  /\ (fe_url e <> [] /\ ~ In 34%N (fe_url e))
  /\ (fe_videoId e <> [] /\ ~ In 38%N (fe_videoId e))
  /\ exists before after,
       fe_url e = before ++ lit "v=" ++ fe_videoId e ++ after.
Proof.
  unfold parseEntry. cbv zeta.
  destruct (extractXml block (lit "title")) as [t |] eqn:Et; [| discriminate].
  destruct (re_search linkPattern block) as [[| l0 l] |] eqn:El;
    try discriminate.
  destruct (extractXml block (lit "published")) as [p |] eqn:Ep;
    [| discriminate].
  destruct (videoIdOfLink _) as [[| v0 v] |] eqn:Ev; try discriminate.
  intros E. injection E as <-. cbn [fe_title fe_url fe_videoId fe_publishedAt].
  destruct (extractXml_tidy _ _ _ Et) as [Ht _].
  destruct (extractXml_tidy _ _ _ Ep) as [Hp Hpt].
  destruct (linkPattern_sound _ _ El) as [_ [Hq _]].
  destruct (videoIdOfLink_sound _ _ Ev) as [Hamp Hin].
  split; [now apply decodeXml_nonempty |].
  split; [now split |].
  split; [split; [discriminate |] |].
  - intros Hin34. rewrite forallb_forall in Hq. specialize (Hq _ Hin34).
    unfold not_unit in Hq. now rewrite N.eqb_refl in Hq.
  - split; [split; [discriminate | exact Hamp] | exact Hin].
Qed.

Lemma pushEntries_spec (blocks : list jstr) :
  forall entries,
  exists added,
    pushEntries blocks entries = entries ++ added
    /\ (length added <= length blocks)%nat
    /\ Forall (fun e => exists block, In block blocks
                                       /\ parseEntry block = Some e) added.
Proof.
  induction blocks as [| block rest IH]; intros entries; simpl.
  - exists []. rewrite app_nil_r. repeat split; auto.
  - destruct (parseEntry block) as [e |] eqn:E.
    + destruct (IH (entries ++ [e])) as [added [-> [Hlen Hall]]].
      exists (e :: added). rewrite <- app_assoc. simpl.
      repeat split; [lia |].
      constructor; [exists block; auto |].
      eapply Forall_impl; [| exact Hall].
      intros x [b [Hb Hx]]. exists b. auto.
    + destruct (IH entries) as [added [-> [Hlen Hall]]].
      exists added. repeat split; [lia |].
      eapply Forall_impl; [| exact Hall].
      intros x [b [Hb Hx]]. exists b. auto.
Qed.

(** X15: the entries [parseYouTubeRss] returns are ordered most recent
    first and are no more than the blocks that follow an [<entry>] tag; each
    has a non-empty title, a non-empty trimmed timestamp, a URL without
    double quote, and a non-empty video identifier without ampersand that
    stands in the URL right after a [v=]. *)
Theorem parseYouTubeRss_entries (xml : jstr) :
  recentFirst fe_publishedAt (parseYouTubeRss xml)
  /\ (length (parseYouTubeRss xml) <= length (entryBlocks xml))%nat
  /\ Forall
       (fun e =>
          fe_title e <> []
          /\ (fe_publishedAt e <> [] /\ is_trimmed (fe_publishedAt e) = true)
          /\ (fe_url e <> [] /\ ~ In 34%N (fe_url e))
          /\ (fe_videoId e <> [] /\ ~ In 38%N (fe_videoId e))
          /\ exists before after,
               fe_url e = before ++ lit "v=" ++ fe_videoId e ++ after)
       (parseYouTubeRss xml).
Proof.
  unfold parseYouTubeRss.
  destruct (pushEntries_spec (entryBlocks xml) []) as [added [Hpush [Hlen Hall]]].
  simpl in Hpush. rewrite Hpush.
  split; [apply byRecency_sorted |].
  split; [now rewrite js_sort_length |].
  apply Forall_forall. intros e He.
  apply (Permutation_in _ (js_sort_perm _ _)) in He.
  rewrite Forall_forall in Hall. destruct (Hall e He) as [block [_ Hparse]].
  now apply parseEntry_sound in Hparse.
Qed.

Lemma none_start_spec (pat before rest : jstr) :
  none_start pat before rest = true ->
  forall b1 b2, before = b1 ++ b2 -> b2 <> [] ->
                starts_with pat (b2 ++ rest) = false.
Proof.
  induction before as [| c before IH]; intros Hnone b1 b2 E Hne.
  - apply eq_sym, app_eq_nil in E. tauto.
  - cbn [none_start] in Hnone. apply andb_true_iff in Hnone.
    destruct Hnone as [Hhere Hlater]. apply negb_true_iff in Hhere.
    destruct b1 as [| x b1].
    + simpl in E. subst b2. exact Hhere.
    + injection E as _ E. now apply (IH Hlater b1 b2).
Qed.

Lemma re_search_skip (atoms : list ReAtom) (before s : jstr) :
  (forall b1 b2, before = b1 ++ b2 -> b2 <> [] ->
                 re_atoms atoms [] [] (b2 ++ s) = None) ->
  re_search atoms (before ++ s) = re_search atoms s.
Proof.
  induction before as [| c before IH]; intros Hnone; [reflexivity |].
  cbn [app re_search].
  pose proof (Hnone [] (c :: before) eq_refl ltac:(discriminate)) as Hhere.
  cbn [app] in Hhere. rewrite Hhere.
  apply IH. intros b1 b2 E Hne. apply (Hnone (c :: b1) b2); [| exact Hne].
  simpl. now f_equal.
Qed.

Lemma re_search_here (atoms : list ReAtom) (s m : jstr) :
  re_atoms atoms [] [] s = Some m -> re_search atoms s = Some m.
Proof. intros Hm. destruct s; simpl; now rewrite Hm. Qed.

Lemma lazy_scan (k : jstr -> option jstr) (m : jstr) (rest : jstr) :
  k rest = Some m ->
  forall t,
    (forall t1 t2, t = t1 ++ t2 -> t2 <> [] -> k (t2 ++ rest) = None) ->
    re_star any_unit true k O (t ++ rest) = Some m.
Proof.
  intros Hk. induction t as [| c t IH]; intros Hnone.
  - simpl. destruct rest as [| c r]; simpl; now rewrite Hk.
  - cbn [app re_star any_unit].
    pose proof (Hnone [] (c :: t) eq_refl ltac:(discriminate)) as Hhere.
    cbn [app] in Hhere. rewrite Hhere.
    apply IH. intros t1 t2 E Hne. apply (Hnone (c :: t1) t2); [| exact Hne].
    simpl. now f_equal.
Qed.

Lemma skipn_app_exact {A} (a b : list A) : skipn (length a) (a ++ b) = b.
Proof. induction a; simpl; auto. Qed.

(** X16: for a tag that holds no syntax character of regular
    expressions, so that the pattern built from it reads it literally,
    [extractXml] returns the trimmed text between the first opening tag and
    the first closing tag after it, and nothing when that text is blank. *)
Theorem extractXml_first_pair (tag before text after : jstr)
  (Htag : forallb regex_literal tag = true)
  (Hopen : none_start (lit "<" ++ tag ++ lit ">") before
             ((lit "<" ++ tag ++ lit ">") ++ text
              ++ (lit "</" ++ tag ++ lit ">") ++ after) = true)
  (Hclose : none_start (lit "</" ++ tag ++ lit ">") text
              ((lit "</" ++ tag ++ lit ">") ++ after) = true) :
  extractXml (before ++ (lit "<" ++ tag ++ lit ">") ++ text
              ++ (lit "</" ++ tag ++ lit ">") ++ after) tag
  = match trim text with
    | [] => None
    | t => Some t
    end.
Proof.
  set (open := lit "<" ++ tag ++ lit ">") in *.
  set (close := lit "</" ++ tag ++ lit ">") in *.
  assert (Hmatch : re_search (xmlPattern tag)
                     (before ++ open ++ text ++ close ++ after) = Some text).
  { rewrite re_search_skip.
    - apply re_search_here. unfold xmlPattern. fold open. fold close.
      cbn [re_atoms]. rewrite starts_with_prefix, skipn_app_exact.
      apply lazy_scan.
      + cbn [re_atoms]. rewrite starts_with_prefix. f_equal.
        apply firstn_app_length.
      + intros t1 t2 E Hne. cbn [re_atoms].
        now rewrite (none_start_spec _ _ _ Hclose t1 t2 E Hne).
    - intros b1 b2 E Hne. unfold xmlPattern. fold open. cbn [re_atoms].
      now rewrite (none_start_spec _ _ _ Hopen b1 b2 E Hne). }
  unfold extractXml. rewrite Hmatch. reflexivity.
Qed.

Lemma extractXml_first_pair_witness :
  extractXml (lit "<id>x</id><title> Hello </title><title>no</title>")
    (lit "title")
  = Some (lit "Hello").
Proof.
  exact (extractXml_first_pair (lit "title") (lit "<id>x</id>")
           (lit " Hello ") (lit "<title>no</title>") eq_refl eq_refl eq_refl).
Defined.

(** ** Reading the channels of a pack *)

Section FeedFacts.
Context {Num : Type} `{JsNumber Num}.
Variable w : World Num.
Variable dc : DigestConfig.
Variable fc : FeedConfig.
Variable Date_parse : jstr -> option Z.
Variable Date_now : State -> nat -> Z.

Lemma fetchUrl_run (url : jstr) (st : State) :
  fetchUrl w url st =
  match net w (fetches st) with
  | Responded res => (Ret res, after_fetch st [] url)
  | Rejected e => (Throw e, after_fetch st [] url)
  end.
Proof. reflexivity. Qed.

(** [resolveChannelId] makes one request whatever happens, and succeeds
    only on a 2xx page in which one of the two patterns matches. *)
Lemma resolveChannelId_inv (channelUrl : jstr) (st st' : State)
  (x : Exec jstr) :
  resolveChannelId w channelUrl st = (x, st') ->
  st' = after_fetch st [] channelUrl
  /\ forall id, x = Ret id ->
       exists res html,
         net w (fetches st) = Responded res
         /\ res_ok res = true
         /\ res_text res = Ret html
         /\ (re_search channelIdPattern html = Some id
             \/ re_search channelLinkPattern html = Some id).
Proof.
  unfold resolveChannelId, bind. rewrite fetchUrl_run.
  destruct (net w (fetches st)) as [res | e].
  - destruct (res_ok res) eqn:Hok; cbn [negb].
    + unfold await, bind.
      destruct (res_text res) as [html | e] eqn:Htext.
      * destruct (re_search channelIdPattern html) as [[| c m1] |] eqn:E1.
        -- destruct (re_search channelLinkPattern html) as [[| c m2] |] eqn:E2;
             unfold throw, ret; intros E; injection E as <- <-;
             (split; [reflexivity |]); intros id Hid; try discriminate Hid.
           injection Hid as <-. exists res, html. auto.
        -- unfold ret. intros E. injection E as <- <-.
           split; [reflexivity |]. intros id Hid. injection Hid as <-.
           exists res, html. auto.
        -- destruct (re_search channelLinkPattern html) as [[| c m2] |] eqn:E2;
             unfold throw, ret; intros E; injection E as <- <-;
             (split; [reflexivity |]); intros id Hid; try discriminate Hid.
           injection Hid as <-. exists res, html. auto.
      * intros E. injection E as <- <-. split; [reflexivity |].
        intros id Hid. discriminate Hid.
    + unfold throw. intros E. injection E as <- <-. split; [reflexivity |].
      intros id Hid. discriminate Hid.
  - intros E. injection E as <- <-. split; [reflexivity |].
    intros id Hid. discriminate Hid.
Qed.

Lemma resolveChannelId_id_shape (channelUrl : jstr) (st st' : State)
  (id : jstr) :
  resolveChannelId w channelUrl st = (Ret id, st') ->
  st' = after_fetch st [] channelUrl
  /\ exists tail,
       id = lit "UC" ++ tail
       /\ (20 <= length tail)%nat
       /\ forallb channel_id_unit tail = true.
Proof.
  intros Hrun. destruct (resolveChannelId_inv _ _ _ _ Hrun) as [Hst Hid].
  split; [exact Hst |].
  destruct (Hid id eq_refl) as [res [html [_ [_ [_ [Hm | Hm]]]]]].
  - apply (channelId_capture _ _ html id
             (or_introl (conj eq_refl eq_refl)) Hm).
  - apply (channelId_capture _ _ html id
             (or_intror (conj eq_refl eq_refl)) Hm).
Qed.

(** X17: when [resolveChannelId] returns, it has issued exactly one
    request, for the channel page, which was answered 2xx, and the
    identifier it returns is [UC] followed by at least twenty code units
    out of [[a-zA-Z0-9_-]]. *)
Theorem resolveChannelId_shape (channelUrl : jstr) (st st' : State)
  (id : jstr)
  (Hrun : resolveChannelId w channelUrl st = (Ret id, st')) :
  log st' = log st ++ [EvFetch [] channelUrl]
  /\ (exists res, net w (fetches st) = Responded res /\ res_ok res = true)
  /\ exists tail,
       id = lit "UC" ++ tail
       /\ (20 <= length tail)%nat
       /\ forallb channel_id_unit tail = true.
Proof.
  destruct (resolveChannelId_id_shape _ _ _ _ Hrun) as [-> Hshape].
  destruct (resolveChannelId_inv _ _ _ _ Hrun) as [_ Hid].
  destruct (Hid id eq_refl) as [res [html [Hnet [Hok _]]]].
  split; [reflexivity |]. split; [now exists res | exact Hshape].
Qed.

(** What a run of [fetchLatestVideosFromChannelUrl] does. *)
Lemma fetchLatest_inv (channelUrl : jstr) (st st' : State)
  (x : Exec (list FeedEntry)) :
  fetchLatestVideosFromChannelUrl w fc channelUrl st = (x, st') ->
  (fetches st < fetches st' <= fetches st + 2)%nat
  /\ randoms st' = randoms st
  /\ forall vids, x = Ret vids ->
       exists id xml,
         st' = after_fetch (after_fetch st [] channelUrl) []
                 (lit "https://www.youtube.com/feeds/videos.xml?channel_id="
                  ++ id)
         /\ (exists tail, id = lit "UC" ++ tail /\ (20 <= length tail)%nat
                          /\ forallb channel_id_unit tail = true)
         /\ vids = slice0 (MAX_VIDEOS_PER_CHANNEL fc) (parseYouTubeRss xml)
         /\ resolveChannelId w channelUrl st
            = (Ret id, after_fetch st [] channelUrl)
         /\ exists feed,
              net w (S (fetches st)) = Responded feed
              /\ res_ok feed = true
              /\ res_text feed = Ret xml.
Proof.
  unfold fetchLatestVideosFromChannelUrl, bind.
  destruct (resolveChannelId w channelUrl st) as [[id | e] st1] eqn:Hres.
  - destruct (resolveChannelId_id_shape _ _ _ _ Hres) as [-> Hshape].
    rewrite fetchUrl_run. cbn [fetches after_fetch].
    destruct (net w (S (fetches st))) as [res | e].
    + destruct (res_ok res) eqn:Hok; cbn [negb].
      * unfold await, bind. destruct (res_text res) as [xml | e] eqn:Htext;
          unfold ret; intros E; injection E as <- <-;
          cbn [fetches randoms after_fetch];
          (split; [lia |]); (split; [reflexivity |]);
          intros vids Hv; [| discriminate Hv].
        injection Hv as <-. exists id, xml.
        split; [reflexivity |]. split; [exact Hshape |].
        split; [reflexivity |]. split; [reflexivity |].
        exists res. auto.
      * unfold throw. intros E. injection E as <- <-.
        cbn [fetches randoms after_fetch].
        split; [lia |]. split; [reflexivity |]. intros vids Hv. discriminate Hv.
    + intros E. injection E as <- <-. cbn [fetches randoms after_fetch].
      split; [lia |]. split; [reflexivity |]. intros vids Hv. discriminate Hv.
  - destruct (resolveChannelId_inv _ _ _ _ Hres) as [-> _].
    intros E. injection E as <- <-. cbn [fetches randoms after_fetch].
    split; [lia |]. split; [reflexivity |]. intros vids Hv. discriminate Hv.
Qed.

(** X18: when [fetchLatestVideosFromChannelUrl] returns, it has issued
    exactly two requests: the channel page, and then the feed URL built
    from the identifier [resolveChannelId] returned for that page.  The
    second request was answered 2xx, and the entries are the first ones of
    those [parseYouTubeRss] reads from its body: ordered most recent first
    and, for a [MAX_VIDEOS_PER_CHANNEL] that is not negative, at most that
    many. *)
Theorem fetchLatest_two_requests (channelUrl : jstr) (st st' : State)
  (vids : list FeedEntry)
  (Hrun : fetchLatestVideosFromChannelUrl w fc channelUrl st
          = (Ret vids, st')) :
  (exists id,
     resolveChannelId w channelUrl st
     = (Ret id, after_fetch st [] channelUrl)
     /\ log st' = log st
                  ++ [EvFetch [] channelUrl;
                      EvFetch []
                        (lit "https://www.youtube.com/feeds/videos.xml?channel_id="
                         ++ id)]
     /\ fetches st' = (fetches st + 2)%nat)
  /\ (exists feed xml later,
        net w (S (fetches st)) = Responded feed
        /\ res_ok feed = true
        /\ res_text feed = Ret xml
        /\ parseYouTubeRss xml = vids ++ later)
  /\ recentFirst fe_publishedAt vids
  /\ (0 <= MAX_VIDEOS_PER_CHANNEL fc ->
      Z.of_nat (length vids) <= MAX_VIDEOS_PER_CHANNEL fc).
Proof.
  destruct (fetchLatest_inv _ _ _ _ Hrun) as [_ [_ Hv]].
  destruct (Hv vids eq_refl)
    as [id [xml [-> [_ [-> [Hres [feed [Hnet [Hok Htext]]]]]]]]].
  split.
  { exists id. split; [exact Hres |].
    simpl. rewrite <- app_assoc. split; [reflexivity | lia]. }
  destruct (slice0_prefix (MAX_VIDEOS_PER_CHANNEL fc) (parseYouTubeRss xml))
    as [rest Hrest].
  split; [exists feed, xml, rest; auto |].
  split.
  - pose proof (byRecency_sorted fe_publishedAt
                  (pushEntries (entryBlocks xml) [])) as Hsorted.
    fold (parseYouTubeRss xml) in Hsorted. unfold recentFirst in *.
    rewrite Hrest in Hsorted. now apply StronglySorted_app_inv in Hsorted.
  - intros Hmax. now apply slice0_length_le.
Qed.

Lemma filterFresh_spec (st : State) (vids : list FeedEntry) :
  forall i,
    (length (filterFresh dc fc Date_parse Date_now st i vids)
     <= length vids)%nat
    /\ Forall
         (fun v =>
            In v vids
            /\ exists ms st0 i0,
                 Date_parse (fe_publishedAt v) = Some ms
                 /\ isWithinMaxAge dc fc (Some ms) (Date_now st0 i0) = true)
         (filterFresh dc fc Date_parse Date_now st i vids).
Proof.
  induction vids as [| v rest IH]; intros i; simpl; [auto |].
  destruct (IH (S i)) as [Hlen Hall].
  assert (Hrest : Forall
            (fun v0 =>
               (v = v0 \/ In v0 rest)
               /\ exists ms st0 i0,
                    Date_parse (fe_publishedAt v0) = Some ms
                    /\ isWithinMaxAge dc fc (Some ms) (Date_now st0 i0) = true)
            (filterFresh dc fc Date_parse Date_now st (S i) rest)).
  { eapply Forall_impl; [| exact Hall]. intros x [Hin Hx]. auto. }
  destruct (isWithinMaxAge dc fc (Date_parse (fe_publishedAt v))
              (Date_now st i)) eqn:E.
  - split; [simpl; lia |]. constructor; [| exact Hrest].
    split; [now left |].
    destruct (Date_parse (fe_publishedAt v)) as [ms |]; [| discriminate E].
    now exists ms, st, i.
  - split; [lia | exact Hrest].
Qed.

(** What reading one channel does: it never throws. *)
Lemma collectChannel_spec (ch : Channel) (allVideos : list VideoRecord)
  (st : State) :
  exists added st',
    collectChannel w dc fc Date_parse Date_now ch allVideos st
    = (Ret (allVideos ++ added), st')
    /\ (fetches st < fetches st' <= fetches st + 2)%nat
    /\ (0 <= MAX_VIDEOS_PER_CHANNEL fc ->
        Z.of_nat (length added) <= MAX_VIDEOS_PER_CHANNEL fc)
    /\ Forall
         (fun v =>
            channelName v = ch_name ch
            /\ exists ms st0 i0,
                 Date_parse (publishedAt v) = Some ms
                 /\ isWithinMaxAge dc fc (Some ms) (Date_now st0 i0) = true)
         added
    /\ (forall e st1,
          fetchLatestVideosFromChannelUrl w fc (ch_url ch) st = (Throw e, st1) ->
          added = [] /\ st' = st1).
Proof.
  unfold collectChannel, try_catch, bind.
  destruct (fetchLatestVideosFromChannelUrl w fc (ch_url ch) st)
    as [[vids | e] st1] eqn:Hrun;
    destruct (fetchLatest_inv _ _ _ _ Hrun) as [Hf [_ Hv]].
  - destruct (Hv vids eq_refl) as [id [xml [_ [_ [Hvids _]]]]].
    destruct (filterFresh_spec st1 vids O) as [Hlen Hall].
    eexists. exists st1. split; [reflexivity |]. split; [exact Hf |].
    split; [| split; [| intros e0 st2 E; discriminate E]].
    + intros Hmax. rewrite length_map.
      pose proof (slice0_length_le (MAX_VIDEOS_PER_CHANNEL fc)
                    (parseYouTubeRss xml) Hmax).
      rewrite <- Hvids in *. lia.
    + apply Forall_forall. intros v Hin. apply in_map_iff in Hin.
      destruct Hin as [x [<- Hx]]. rewrite Forall_forall in Hall.
      destruct (Hall x Hx) as [_ Hfresh]. split; [reflexivity | exact Hfresh].
  - exists [], st1. rewrite app_nil_r. unfold ret.
    split; [reflexivity |]. split; [exact Hf |].
    split; [simpl; lia |]. split; [constructor |].
    intros e0 st2 E. injection E as _ <-. auto.
Qed.

(** X19: a channel whose page or feed cannot be read (rejected request,
    non-2xx answer, unreadable body, no channel identifier found) adds
    nothing: the collection goes on with the next channel and the list
    collected so far. *)
Theorem failed_channel_is_skipped (ch : Channel) (rest : list Channel)
  (allVideos : list VideoRecord) (st st1 : State) (e : JsError)
  (Hreal : isPlaceholder ch = false)
  (Hfail : fetchLatestVideosFromChannelUrl w fc (ch_url ch) st
           = (Throw e, st1)) :
  collectVideos w dc fc Date_parse Date_now (ch :: rest) allVideos st
  = collectVideos w dc fc Date_parse Date_now rest allVideos st1.
Proof.
  cbn [collectVideos]. rewrite Hreal. unfold bind.
  destruct (collectChannel_spec ch allVideos st)
    as [added [st' [-> [_ [_ [_ Hthrow]]]]]].
  destruct (Hthrow e st1 Hfail) as [-> ->]. now rewrite app_nil_r.
Qed.

(** The collection as a whole. *)
Lemma collectVideos_spec (channels : list Channel) :
  forall (allVideos : list VideoRecord) (st : State),
  exists added st',
    collectVideos w dc fc Date_parse Date_now channels allVideos st
    = (Ret (allVideos ++ added), st')
    /\ (fetches st <= fetches st'
        <= fetches st
           + 2 * length (filter (fun ch => negb (isPlaceholder ch)) channels))%nat
    /\ (0 <= MAX_VIDEOS_PER_CHANNEL fc ->
        Z.of_nat (length added)
        <= Z.of_nat (length (filter (fun ch => negb (isPlaceholder ch))
                               channels))
           * MAX_VIDEOS_PER_CHANNEL fc)
    /\ Forall
         (fun v =>
            (exists ch, In ch channels /\ isPlaceholder ch = false
                        /\ channelName v = ch_name ch)
            /\ exists ms st0 i0,
                 Date_parse (publishedAt v) = Some ms
                 /\ isWithinMaxAge dc fc (Some ms) (Date_now st0 i0) = true)
         added.
Proof.
  induction channels as [| ch rest IH]; intros allVideos st.
  - exists [], st. rewrite app_nil_r. simpl. unfold ret.
    repeat split; try lia. constructor.
  - cbn [collectVideos filter]. destruct (isPlaceholder ch) eqn:Hp; cbn [negb].
    + destruct (IH allVideos st) as [added [st' [Hrun [Hf [Hlen Hall]]]]].
      exists added, st'. split; [exact Hrun |]. split; [exact Hf |].
      split; [exact Hlen |].
      eapply Forall_impl; [| exact Hall].
      intros v [[c [Hc Hv]] Hfresh]. split; [| exact Hfresh].
      exists c. split; [now right | exact Hv].
    + unfold bind.
      destruct (collectChannel_spec ch allVideos st)
        as [added1 [st1 [-> [Hf1 [Hlen1 [Hall1 _]]]]]].
      destruct (IH (allVideos ++ added1) st1)
        as [added2 [st' [Hrun [Hf2 [Hlen2 Hall2]]]]].
      exists (added1 ++ added2), st'.
      split; [now rewrite app_assoc |].
      split; [simpl length; lia |].
      split.
      * intros Hmax. specialize (Hlen1 Hmax). specialize (Hlen2 Hmax).
        rewrite length_app. simpl length. lia.
      * apply Forall_app. split.
        -- eapply Forall_impl; [| exact Hall1].
           intros v [Hname Hfresh]. split; [| exact Hfresh].
           exists ch. split; [now left | now split].
        -- eapply Forall_impl; [| exact Hall2].
           intros v [[c [Hc Hv]] Hfresh]. split; [| exact Hfresh].
           exists c. split; [now right | exact Hv].
Qed.

(** X20: collecting the videos of a pack never throws; it keeps what was
    collected before, and issues at most two requests per channel that is
    not a placeholder (none for an entry without URL or with a [PASTE_]
    URL). *)
Theorem collectVideos_never_throws (channels : list Channel)
  (allVideos : list VideoRecord) (st : State) :
  exists added st',
    collectVideos w dc fc Date_parse Date_now channels allVideos st
    = (Ret (allVideos ++ added), st')
    /\ (fetches st <= fetches st'
        <= fetches st
           + 2 * length (filter (fun ch => negb (isPlaceholder ch)) channels))%nat.
Proof.
  destruct (collectVideos_spec channels allVideos st)
    as [added [st' [Hrun [Hf _]]]].
  now exists added, st'.
Qed.

(** X21: every collected video has a timestamp that [Date.parse] reads
    and that lies within the age limit at a reading of the clock, and
    carries the name of a channel of the pack that is not a placeholder;
    for a [MAX_VIDEOS_PER_CHANNEL] that is not negative, the videos
    collected are at most that many per such channel. *)
Theorem collected_videos_fresh_and_tagged (channels : list Channel)
  (st st' : State) (allVideos : list VideoRecord)
  (Hrun : collectVideos w dc fc Date_parse Date_now channels [] st
          = (Ret allVideos, st')) :
  Forall
    (fun v =>
       (exists ch, In ch channels /\ isPlaceholder ch = false
                   /\ channelName v = ch_name ch)
       /\ exists ms st0 i0,
            Date_parse (publishedAt v) = Some ms
            /\ Date_now st0 i0 - getMaxAgeDays dc fc * 24 * 60 * 60 * 1000
               <= ms)
    allVideos
  /\ (0 <= MAX_VIDEOS_PER_CHANNEL fc ->
      Z.of_nat (length allVideos)
      <= Z.of_nat (length (filter (fun ch => negb (isPlaceholder ch)) channels))
         * MAX_VIDEOS_PER_CHANNEL fc).
Proof.
  destruct (collectVideos_spec channels [] st)
    as [added [st1 [Hspec [_ [Hlen Hall]]]]].
  rewrite Hspec in Hrun. injection Hrun as <- _. simpl app.
  split; [| exact Hlen].
  eapply Forall_impl; [| exact Hall].
  intros v [Hch [ms [st0 [i0 [Hparse Hfresh]]]]]. split; [exact Hch |].
  exists ms, st0, i0. split; [exact Hparse |].
  unfold isWithinMaxAge in Hfresh. now apply Z.leb_le in Hfresh.
Qed.

End FeedFacts.

(** ** The summarizer *)

Lemma dropwhile_keeps_last {A} (p : A -> bool) (l : list A) (c : A) :
  p c = false -> dropwhile p (l ++ [c]) <> [].
Proof.
  intros Hc. induction l as [| x l IH]; simpl.
  - rewrite Hc. discriminate.
  - destruct (p x); [exact IH | discriminate].
Qed.

Lemma trim_head_kept (c : N) (s : jstr) :
  is_ws c = false -> trim (c :: s) <> [].
Proof.
  intros Hc. unfold trim, trimStart, trimEnd. cbn [dropwhile]. rewrite Hc.
  cbn [rev]. intros Hnil.
  apply (f_equal (@rev N)) in Hnil. rewrite rev_involutive in Hnil.
  now apply (dropwhile_keeps_last is_ws (rev s) c Hc).
Qed.

Lemma indexOf_first (c : N) (before rest : jstr) :
  ~ In c before -> indexOf c (before ++ c :: rest) = Some (length before).
Proof.
  induction before as [| x before IH]; simpl; intros Hno.
  - now rewrite N.eqb_refl.
  - destruct (N.eqb_spec x c) as [-> | _]; [exfalso; apply Hno; now left |].
    rewrite IH; [reflexivity |]. intros Hin. apply Hno. now right.
Qed.

Section SummarizerFacts.
Context {Num : Type} `{JsNumber Num}.
Variable w : World Num.
Variable ocfg : OpenAIConfig.
Variable JSON_parse : jstr -> Exec (JsVal Num).

(** Whatever happens once the key is found, one request is made. *)
Lemma summarizeTranscript_run (c : N) (k : jstr)
  (title channelName transcriptText : jstr) (maxBullets : Z) (st : State) :
  OPENAI_API_KEY ocfg = Some (c :: k) ->
  summarizeTranscript w ocfg JSON_parse title channelName transcriptText
    maxBullets st
  = let st1 := after_fetch st (c :: k)
                 (userPrompt title channelName (slice0 18000 transcriptText)) in
    match net w (fetches st) with
    | Rejected e => (Throw e, st1)
    | Responded resp =>
        if res_ok resp
        then match res_json resp with
             | Throw e => (Throw e, st1)
             | Ret data =>
                 let out := trim (extractResponseText data) in
                 if negb (nonempty out) then (Ret emptyOutputSummary, st1)
                 else if negb (truthy (safeJsonParse JSON_parse out))
                 then (Ret badFormatSummary, st1)
                 else (normalizeSummary (safeJsonParse JSON_parse out)
                         maxBullets, st1)
             end
        else (Ret (apiErrorSummary (res_status resp)
                     (match res_text resp with
                      | Ret t => t
                      | Throw _ => []
                      end)), st1)
    end.
Proof.
  intros Hkey. unfold summarizeTranscript. rewrite Hkey. cbv zeta.
  unfold bind, fetch.
  destruct (net w (fetches st)) as [resp | e]; [| reflexivity].
  destruct (res_ok resp); cbn [negb].
  - unfold await. destruct (res_json resp) as [data | e]; [| reflexivity].
    destruct (negb (nonempty (trim (extractResponseText data))));
      [reflexivity |].
    destruct (negb (truthy (safeJsonParse JSON_parse
                              (trim (extractResponseText data)))));
      reflexivity.
  - unfold try_catch, await. destruct (res_text resp); reflexivity.
Qed.

(** X22: with the key configured, the summarizer throws in exactly three
    cases: a rejected request, a 2xx answer whose body [res.json()] cannot
    read, and a 2xx answer whose model output parses to a truthy value in
    which a value [normalizeSummary] hands to [String] does not convert.  A
    non-2xx answer yields the API-error placeholder with no key points. *)
Theorem summarizer_exceptions (c : N) (k : jstr)
  (title channelName transcriptText : jstr) (maxBullets : Z) (st : State)
  (Hkey : OPENAI_API_KEY ocfg = Some (c :: k)) :
  ((exists e st', summarizeTranscript w ocfg JSON_parse title channelName
                    transcriptText maxBullets st = (Throw e, st'))
   <-> ((exists e, net w (fetches st) = Rejected e)
        \/ (exists resp e, net w (fetches st) = Responded resp
                           /\ res_ok resp = true
                           /\ res_json resp = Throw e)
        \/ (exists resp data,
              net w (fetches st) = Responded resp
              /\ res_ok resp = true
              /\ res_json resp = Ret data
              /\ trim (extractResponseText data) <> []
              /\ truthy (safeJsonParse JSON_parse
                           (trim (extractResponseText data))) = true
              /\ forallb stringifies
                   (summaryTexts
                      (safeJsonParse JSON_parse
                         (trim (extractResponseText data)))) = false)))
  /\ (forall resp,
        net w (fetches st) = Responded resp ->
        res_ok resp = false ->
        exists text st',
          summarizeTranscript w ocfg JSON_parse title channelName
            transcriptText maxBullets st
          = (Ret (apiErrorSummary (res_status resp) text), st')).
Proof.
  rewrite (summarizeTranscript_run c k _ _ _ _ _ Hkey). cbv zeta.
  destruct (net w (fetches st)) as [resp | e] eqn:Hnet.
  - destruct (res_ok resp) eqn:Hok.
    + destruct (res_json resp) as [data | e] eqn:Hjson.
      * split; [| intros r E; injection E as <-; congruence].
        set (out := trim (extractResponseText data)).
        set (parsed := safeJsonParse JSON_parse out).
        rewrite normalizeSummary_cases.
        destruct (nonempty out) eqn:Hout; cbn [negb].
        -- destruct (truthy parsed) eqn:Hparsed; cbn [negb].
           ++ destruct (forallb stringifies (summaryTexts parsed)) eqn:Hconv.
              ** split; [intros [e [st' E]]; discriminate E |].
                 intros [[e E] | [[r [e [E [_ Hj]]]]
                                 | [r [d [E [_ [Hj [_ [_ Hc]]]]]]]]].
                 --- discriminate E.
                 --- injection E as <-. congruence.
                 --- injection E as <-. rewrite Hjson in Hj.
                     injection Hj as <-. fold out parsed in Hc. congruence.
              ** split; [| intros _; eauto].
                 intros _. right. right. exists resp, data.
                 split; [reflexivity |]. split; [exact Hok |].
                 split; [exact Hjson |].
                 split; [now apply nonempty_true |]. split; assumption.
           ++ split; [intros [e [st' E]]; discriminate E |].
              intros [[e E] | [[r [e [E [_ Hj]]]]
                              | [r [d [E [_ [Hj [_ [Ht _]]]]]]]]].
              ** discriminate E.
              ** injection E as <-. congruence.
              ** injection E as <-. rewrite Hjson in Hj.
                 injection Hj as <-. fold out parsed in Ht. congruence.
        -- split; [intros [e [st' E]]; discriminate E |].
           intros [[e E] | [[r [e [E [_ Hj]]]]
                           | [r [d [E [_ [Hj [Hne _]]]]]]]].
           ++ discriminate E.
           ++ injection E as <-. congruence.
           ++ injection E as <-. rewrite Hjson in Hj.
              injection Hj as <-. fold out in Hne.
              apply nonempty_true in Hne. congruence.
      * split; [| intros r E; injection E as <-; congruence].
        split; [| intros _; eauto].
        intros _. right. left. exists resp, e. auto.
    + split.
      * split.
        -- intros [e [st' E]]. discriminate E.
        -- intros [[e E] | [[r [e [E [Hok' _]]]]
                           | [r [d [E [Hok' _]]]]]];
             [discriminate E | |]; injection E as <-; congruence.
      * intros r E _. injection E as <-. eauto.
  - split; [| intros r E; discriminate E].
    split; [| intros _; eauto].
    intros _. left. now exists e.
Qed.

(** X23: every summary the summarizer returns, placeholder or normalized,
    has a non-empty one-liner of at most 220 code units, a non-empty
    audience text, and key points that are non-empty, trimmed and, for a
    [maxBullets] that is not negative, at most [maxBullets]. *)
Theorem summarizer_result_wellformed
  (title channelName transcriptText : jstr) (maxBullets : Z)
  (st st' : State) (s : Summary)
  (Hrun : summarizeTranscript w ocfg JSON_parse title channelName
            transcriptText maxBullets st = (Ret s, st')) :
  (one_liner s <> [] /\ Z.of_nat (length (one_liner s)) <= 220)
  /\ who_should_watch s <> []
  /\ (0 <= maxBullets -> Z.of_nat (length (key_points s)) <= maxBullets)
  /\ Forall (fun p => p <> [] /\ is_trimmed p = true) (key_points s).
Proof.
  assert (Hfixed : forall one who,
            one <> [] -> Z.of_nat (length one) <= 220 -> who <> [] ->
            let s0 := {| one_liner := one; key_points := [];
                         who_should_watch := who |} in
            (one_liner s0 <> [] /\ Z.of_nat (length (one_liner s0)) <= 220)
            /\ who_should_watch s0 <> []
            /\ (0 <= maxBullets ->
                Z.of_nat (length (key_points s0)) <= maxBullets)
            /\ Forall (fun p => p <> [] /\ is_trimmed p = true)
                 (key_points s0)).
  { intros one who H1 H2 H3. simpl. repeat split; auto. }
  destruct (OPENAI_API_KEY ocfg) as [[| c k] |] eqn:Hkey;
    try (unfold summarizeTranscript in Hrun; rewrite Hkey in Hrun;
         discriminate Hrun).
  rewrite (summarizeTranscript_run c k _ _ _ _ _ Hkey) in Hrun.
  cbv zeta in Hrun.
  destruct (net w (fetches st)) as [resp | e]; [| discriminate Hrun].
  destruct (res_ok resp).
  - destruct (res_json resp) as [data | e]; [| discriminate Hrun].
    destruct (negb (nonempty (trim (extractResponseText data)))).
    + injection Hrun as <- _.
      apply Hfixed; [discriminate | vm_compute; discriminate | discriminate].
    + destruct (negb (truthy (safeJsonParse JSON_parse
                                (trim (extractResponseText data))))).
      * injection Hrun as <- _.
        apply Hfixed; [discriminate | vm_compute; discriminate | discriminate].
      * rewrite normalizeSummary_cases in Hrun.
        destruct (forallb stringifies _); [| discriminate Hrun].
        injection Hrun as <- _.
        destruct (summaryOf_wellformed
                    (safeJsonParse JSON_parse
                       (trim (extractResponseText data))) maxBullets)
          as [Hone [[Hlen Hpts] [[Hwho _] _]]].
        auto.
  - injection Hrun as <- _. unfold apiErrorSummary.
    apply Hfixed; [discriminate | vm_compute; discriminate |].
    apply trim_head_kept. reflexivity.
Qed.

(** X24: the summarizer issues exactly one request whatever the outcome,
    and the user message it sends carries a prefix of the transcript of at
    most 18000 code units. *)
Theorem summarizer_clips_transcript (c : N) (k : jstr)
  (title channelName transcriptText : jstr) (maxBullets : Z)
  (st st' : State) (x : Exec Summary)
  (Hkey : OPENAI_API_KEY ocfg = Some (c :: k))
  (Hrun : summarizeTranscript w ocfg JSON_parse title channelName
            transcriptText maxBullets st = (x, st')) :
  exists clipped rest,
    transcriptText = clipped ++ rest
    /\ Z.of_nat (length clipped) <= 18000
    /\ (Z.of_nat (length transcriptText) <= 18000 -> rest = [])
    /\ log st' = log st
                 ++ [EvFetch (c :: k) (userPrompt title channelName clipped)]
    /\ fetches st' = S (fetches st).
Proof.
  rewrite (summarizeTranscript_run c k _ _ _ _ _ Hkey) in Hrun.
  cbv zeta in Hrun.
  destruct (slice0_prefix 18000 transcriptText) as [rest Hrest].
  exists (slice0 18000 transcriptText), rest.
  split; [exact Hrest |].
  split; [apply slice0_length_le; lia |].
  split.
  - intros Hshort. rewrite (slice0_all _ _ Hshort) in Hrest.
    apply (f_equal (@length N)) in Hrest. rewrite length_app in Hrest.
    destruct rest; [reflexivity | simpl in Hrest; lia].
  - assert (Hst : st' = after_fetch st (c :: k)
                          (userPrompt title channelName
                             (slice0 18000 transcriptText))).
    { destruct (net w (fetches st)) as [resp | e];
        [destruct (res_ok resp);
         [destruct (res_json resp);
          [destruct (negb (nonempty _));
           [| destruct (negb (truthy _))] |] |] |];
        now injection Hrun as _ <-. }
    rewrite Hst. split; reflexivity.
Qed.

(** X25: when the model output does not parse as a whole, [safeJsonParse]
    parses the span from the first opening brace to the last closing brace;
    it yields [null] when that span does not parse either. *)
Theorem safeJsonParse_recovers_object (before middle after : jstr)
  (e : JsError)
  (Hbefore : ~ In 123%N before)
  (Hafter : ~ In 125%N after)
  (Hfail : JSON_parse (before ++ [123%N] ++ middle ++ [125%N] ++ after)
           = Throw e) :
  safeJsonParse JSON_parse (before ++ [123%N] ++ middle ++ [125%N] ++ after)
  = match JSON_parse ([123%N] ++ middle ++ [125%N]) with
    | Ret v => v
    | Throw _ => JNull
    end.
Proof.
  set (text := before ++ [123%N] ++ middle ++ [125%N] ++ after).
  assert (Hne : nonempty text = true).
  { unfold text. destruct before; reflexivity. }
  assert (Hfirst : indexOf 123 text = Some (length before)).
  { unfold text. simpl app. now apply indexOf_first. }
  assert (Hlast : lastIndexOf 125 text
                  = Some (length before + length middle + 1)%nat).
  { assert (Hlen : length text
                   = (length before + length middle + length after + 2)%nat).
    { unfold text. rewrite !length_app. simpl. lia. }
    unfold lastIndexOf. rewrite Hlen. unfold text.
    replace (rev (before ++ [123%N] ++ middle ++ [125%N] ++ after))
      with (rev after ++ 125%N :: rev (before ++ [123%N] ++ middle)).
    - rewrite indexOf_first.
      + simpl option_map. f_equal. rewrite length_rev. lia.
      + intros Hin. apply Hafter. now apply in_rev.
    - replace (before ++ [123%N] ++ middle ++ [125%N] ++ after)
        with ((before ++ [123%N] ++ middle) ++ 125%N :: after)
        by (now rewrite <- !app_assoc).
      rewrite (rev_app_distr (before ++ [123%N] ++ middle)).
      change (rev (125%N :: after)) with (rev after ++ [125%N]).
      now rewrite <- app_assoc. }
  unfold safeJsonParse. rewrite Hne. cbn [negb]. fold text in Hfail.
  rewrite Hfail, Hfirst, Hlast.
  replace (Nat.ltb (length before) (length before + length middle + 1))
    with true by (symmetry; apply Nat.ltb_lt; lia).
  replace (sliceSpan (length before) (length before + length middle + 1) text)
    with ([123%N] ++ middle ++ [125%N]); [reflexivity |].
  unfold sliceSpan, text. rewrite skipn_app_exact.
  replace (length before + length middle + 1 + 1 - length before)%nat
    with (length ([123%N] ++ middle ++ [125%N]))
    by (rewrite !length_app; simpl; lia).
  replace ([123%N] ++ middle ++ [125%N] ++ after)
    with (([123%N] ++ middle ++ [125%N]) ++ after)
    by (now rewrite <- !app_assoc).
  rewrite firstn_app, Nat.sub_diag, firstn_all. simpl firstn.
  now rewrite app_nil_r.
Qed.

End SummarizerFacts.

(** ** The rounds of a run *)

Section RunFacts.
Context {Num : Type} `{JsNumber Num}.
Variable w : World Num.
Variable cfg : FetchConfig.
Variable dc : DigestConfig.
Variable fc : FeedConfig.
Variable Date_parse : jstr -> option Z.
Variable Date_now : State -> nat -> Z.
Variable summarizeTranscript : jstr -> jstr -> jstr -> Z -> M Summary.

Lemma runPack_label (cap : Q) (pack : Pack) (st st' : State)
  (d : GroupDigest) :
  runPack w cfg dc fc Date_parse Date_now summarizeTranscript cap pack st
  = (Ret d, st') ->
  label d = pack_label pack.
Proof.
  unfold runPack, bind.
  destruct (collectVideos w dc fc Date_parse Date_now (pack_channels pack) [] st)
    as [[allVideos | e] st1]; [| discriminate].
  intros Hrun.
  destruct (assembleGroup_layout _ _ _ _ _ _ _ _ _ Hrun)
    as [sm [sk [hidden [_ [_ [_ [_ [_ Hlabel]]]]]]]].
  exact Hlabel.
Qed.

Lemma runPacks_labels (cap : Q) (packs : list Pack) :
  forall (sectionsOut sections : list GroupDigest) (st st' : State),
    runPacks w cfg dc fc Date_parse Date_now summarizeTranscript cap packs
      sectionsOut st = (Ret sections, st') ->
    map label sections = map label sectionsOut ++ map pack_label packs.
Proof.
  induction packs as [| pack rest IH]; intros sectionsOut sections st st';
    cbn [runPacks].
  - unfold ret. intros E. injection E as <- _. now rewrite app_nil_r.
  - unfold bind.
    destruct (runPack w cfg dc fc Date_parse Date_now summarizeTranscript
                cap pack st) as [[d | e] st1] eqn:Hpack; [| discriminate].
    intros Hrest. rewrite (IH _ _ _ _ Hrest), map_app. simpl.
    rewrite (runPack_label _ _ _ _ _ Hpack), <- app_assoc. reflexivity.
Qed.

(** X26: when a run gets through its rounds, there is one section per
    configured pack, in configuration order, each under its pack's label. *)
Theorem sections_follow_packs (packs : list Pack) (st st' : State)
  (sections : list GroupDigest)
  (Hrun : runSections w cfg dc fc Date_parse Date_now summarizeTranscript
            packs st = (Ret sections, st')) :
  map label sections = map pack_label packs
  /\ length sections = length packs.
Proof.
  pose proof (runPacks_labels _ _ _ _ _ _ Hrun) as Hlabels.
  simpl in Hlabels. split; [exact Hlabels |].
  apply (f_equal (@length jstr)) in Hlabels. now rewrite !length_map in Hlabels.
Qed.

(** X27: with the transcript key configured and a summarizer that does
    not throw, a run gets through all its rounds whatever the network does:
    failing channels, failing transcript requests and malformed answers do
    not abort it. *)
Theorem run_completes (c : N) (k : jstr) (packs : list Pack) (st : State)
  (Hkey : SCRAPINGDOG_API_KEY cfg = Some (c :: k))
  (Hsum : forall a b t n st0, exists smry st1,
            summarizeTranscript a b t n st0 = (Ret smry, st1)) :
  exists sections st',
    runSections w cfg dc fc Date_parse Date_now summarizeTranscript packs st
    = (Ret sections, st').
Proof.
  unfold runSections. generalize (@nil GroupDigest) as sectionsOut.
  revert st. induction packs as [| pack rest IH]; intros st sectionsOut;
    cbn [runPacks].
  - unfold ret. eauto.
  - unfold bind, runPack, bind.
    destruct (collectVideos_spec w dc fc Date_parse Date_now
                (pack_channels pack) [] st) as [added [st1 [-> _]]].
    destruct (assembleGroup_completes w cfg summarizeTranscript c k
                (getCapPerSection dc) (pack_label pack) ([] ++ added) st1
                Hkey Hsum) as [d [st2 ->]].
    apply IH.
Qed.

End RunFacts.

Section SummarizerInRun.
Context {Num : Type} `{JsNumber Num}.
Variable w : World Num.
Variable cfg : FetchConfig.
Variable ocfg : OpenAIConfig.
Variable JSON_parse : jstr -> Exec (JsVal Num).

(** X28: the summarizer's exceptions are not caught by the assembler: if
    the most recent considered video has a usable transcript and the
    request to the summarization service is rejected, the whole round
    throws that error and no digest is produced for the group. *)
Theorem summarizer_failure_aborts_round (c : N) (k : jstr) (cap : Q)
  (packLabel : jstr) (allVideos rest : list VideoRecord) (v : VideoRecord)
  (st st1 : State) (text : jstr) (segments : Z) (lang : JsVal Num)
  (e : JsError)
  (Hkey : OPENAI_API_KEY ocfg = Some (c :: k))
  (Hfirst : dedupVideos allVideos = v :: rest)
  (Htranscript : fetchTranscriptFromScrapingDog w cfg (videoId v) st
                 = (Ret (TOk text segments lang), st1))
  (Hnet : net w (fetches st1) = Rejected e) :
  assembleGroup w cfg (summarizeTranscript w ocfg JSON_parse) cap packLabel
    allVideos st
  = (Throw e,
     after_fetch st1 (c :: k)
       (userPrompt (title v) (channelName v) (slice0 18000 text))).
Proof.
  unfold assembleGroup, bind. rewrite Hfirst. cbn [scan_videos].
  unfold bind, scan_video, bind. rewrite Htranscript.
  rewrite (summarizeTranscript_run w ocfg JSON_parse c k _ _ _ _ _ Hkey).
  cbv zeta. rewrite Hnet. reflexivity.
Qed.

End SummarizerInRun.

(** ** Rendering *)

Lemma replaceAll_unit_In (c d : N) (rep s : jstr) :
  In d (replaceAll [c] rep s) -> In d rep \/ (In d s /\ d <> c).
Proof.
  unfold replaceAll. induction s as [| x r IH]; simpl; [tauto |].
  rewrite andb_true_r.
  destruct (N.eqb_spec c x) as [<- | Hne].
  - intros Hin. apply in_app_or in Hin. destruct Hin as [Hin | Hin];
      [now left |].
    destruct (IH Hin) as [Hrep | [Hs Hd]]; [now left | right; auto].
  - intros [<- | Hin]; [right; split; [now left | congruence] |].
    destruct (IH Hin) as [Hrep | [Hs Hd]]; [now left | right; auto].
Qed.

(** X29: the text [escapeHtml] returns contains none of the characters
    [<], [>], double quote and single quote. *)
Theorem escapeHtml_no_markup (str : jstr) :
  ~ In 60%N (escapeHtml str)
  /\ ~ In 62%N (escapeHtml str)
  /\ ~ In 34%N (escapeHtml str)
  /\ ~ In 39%N (escapeHtml str).
Proof.
  assert (Hstep : forall d,
            In d (escapeHtml str) ->
            d <> 39%N /\ d <> 34%N /\ d <> 62%N /\ d <> 60%N).
  { intros d Hin. unfold escapeHtml in Hin. cbv zeta in Hin.
    apply (replaceAll_unit_In 39 d) in Hin.
    destruct Hin as [Hrep | [Hin H39]];
      [simpl in Hrep; repeat (destruct Hrep as [<- | Hrep];
         [repeat split; discriminate |]); destruct Hrep |].
    apply (replaceAll_unit_In 34 d) in Hin.
    destruct Hin as [Hrep | [Hin H34]];
      [simpl in Hrep; repeat (destruct Hrep as [<- | Hrep];
         [repeat split; discriminate |]); destruct Hrep |].
    apply (replaceAll_unit_In 62 d) in Hin.
    destruct Hin as [Hrep | [Hin H62]];
      [simpl in Hrep; repeat (destruct Hrep as [<- | Hrep];
         [repeat split; discriminate |]); destruct Hrep |].
    apply (replaceAll_unit_In 60 d) in Hin.
    destruct Hin as [Hrep | [Hin H60]];
      [simpl in Hrep; repeat (destruct Hrep as [<- | Hrep];
         [repeat split; discriminate |]); destruct Hrep |].
    repeat split; assumption. }
  repeat split; intros Hin; apply Hstep in Hin; tauto.
Qed.

Section RenderingFacts.
Variable toLowerCase : jstr -> jstr.

(** X30: for the two reason texts the assembler gives to skipped items,
    [formatReason] renders [No transcript/captions available on YouTube.]
    for the first and leaves the second as it is: none of its branches for
    provider errors is reached from a digest.  [toLowerCase] only needs to
    lower-case ASCII letters on text made of ASCII code units. *)
Theorem formatReason_on_digest_reasons (t_reason : jstr)
  (Hascii : forall s, forallb (fun c => (c <? 128)%N) s = true ->
                      toLowerCase s = map ascii_lower s) :
  formatReason toLowerCase (Some (skipReason t_reason))
  = (if str_eqb t_reason (lit "no_transcript")
     then lit "No transcript/captions available on YouTube."
     else lit "Transcript unavailable or too short.").
Proof.
  unfold skipReason, formatReason. cbv zeta.
  destruct (str_eqb t_reason (lit "no_transcript")).
  - rewrite Hascii by (vm_compute; reflexivity). vm_compute. reflexivity.
  - rewrite Hascii by (vm_compute; reflexivity). vm_compute. reflexivity.
Qed.

End RenderingFacts.

(** ** Concrete runs of the further properties *)

Lemma permanent_http_failure_not_retried_witness :
  for_attempts notFoundWorld demoConfig (lit "k") (lit "abc") [1; 2; 3]
    initState
  = (Ret (Some (TFail (lit "scrapingdog_http_404:Not found"))),
     after_fetch initState (lit "k") (lit "abc")).
Proof.
  exact (permanent_http_failure_not_retried notFoundWorld demoConfig (lit "k")
           (lit "abc") 1 [2; 3] initState
           (statusResponse 404 (lit "Not found"))
           eq_refl eq_refl eq_refl).
Defined.

Lemma transient_http_failure_retried_witness :
  for_attempts unavailableWorld demoConfig (lit "k") (lit "abc") [1; 2; 3]
    initState
  = for_attempts unavailableWorld demoConfig (lit "k") (lit "abc") [2; 3]
      (after_backoff unavailableWorld demoConfig
         (after_fetch initState (lit "k") (lit "abc")) 1).
Proof.
  apply (transient_http_failure_retried unavailableWorld demoConfig (lit "k")
           (lit "abc") 1 [2; 3] initState
           (statusResponse 503 (lit "Service  Unavailable"))
           eq_refl eq_refl eq_refl).
  vm_compute. reflexivity.
Defined.

Lemma network_error_retried_witness :
  for_attempts rejectingWorld demoConfig (lit "k") (lit "abc") [1; 2; 3]
    initState
  = for_attempts rejectingWorld demoConfig (lit "k") (lit "abc") [2; 3]
      (after_backoff rejectingWorld demoConfig
         (after_fetch initState (lit "k") (lit "abc")) 1)
  /\ for_attempts rejectingWorld demoConfig (lit "k") (lit "abc") [3]
       initState
     = (Ret (Some (TFail (lit "scrapingdog_fetch_error:fetch failed"))),
        after_fetch initState (lit "k") (lit "abc")).
Proof.
  split.
  - apply (network_error_retried rejectingWorld demoConfig (lit "k")
             (lit "abc") 1 [2; 3] initState fetchFailed eq_refl).
    vm_compute. reflexivity.
  - apply (network_error_retried rejectingWorld demoConfig (lit "k")
             (lit "abc") 3 [] initState fetchFailed eq_refl).
    vm_compute. discriminate.
Defined.

Lemma fetch_recovers_after_retries_witness :
  exists st',
    fetchTranscriptFromScrapingDog stubbornWorld demoConfig (lit "abc")
      initState
    = (Ret (TOk (repeat 97%N 200) 1 (JStr (lit "en"))), st')
    /\ fetches st' = 3%nat /\ randoms st' = 2%nat
    /\ length (log st') = 5%nat.
Proof.
  apply (fetch_recovers_after_retries stubbornWorld demoConfig 107%N []
           (lit "abc") initState 2 (okResponse longBody) longBody).
  - reflexivity.
  - vm_compute. discriminate.
  - intros [| [| i]] Hi; [reflexivity | reflexivity | lia].
  - reflexivity.
  - reflexivity.
  - reflexivity.
  - reflexivity.
  - vm_compute. reflexivity.
Defined.

Lemma no_attempts_no_request_witness :
  fetchTranscriptFromScrapingDog rejectingWorld noAttemptsConfig (lit "abc")
    initState
  = (Ret (TFail (lit "scrapingdog_unknown_error")), initState).
Proof.
  apply (no_attempts_no_request rejectingWorld noAttemptsConfig 107%N []
           (lit "abc") initState).
  - reflexivity.
  - vm_compute. discriminate.
Defined.


Lemma failure_reason_bounded_witness :
  match fetchTranscriptFromScrapingDog unavailableWorld demoConfig (lit "abc")
          initState with
  | (Ret (TFail reason), _) => (length reason <= 224)%nat
  | _ => False
  end.
Proof.
  destruct (fetchTranscriptFromScrapingDog unavailableWorld demoConfig
              (lit "abc") initState) as [[[text segs lang | reason] | e] st']
    eqn:Hrun.
  - vm_compute in Hrun. discriminate Hrun.
  - apply (failure_reason_bounded unavailableWorld demoConfig (lit "abc")
             initState st' reason); [| exact Hrun].
    intros i res Hres. vm_compute in Hres. injection Hres as <-.
    vm_compute. split; discriminate.
  - vm_compute in Hrun. discriminate Hrun.
Defined.

Lemma success_text_tidy_witness :
  match fetchTranscriptFromScrapingDog recoveringWorld demoConfig (lit "abc")
          initState with
  | (Ret (TOk text segments _), _) =>
      is_trimmed text = true /\ single_spaced text = true /\ 1 <= segments
  | _ => False
  end.
Proof.
  destruct (fetchTranscriptFromScrapingDog recoveringWorld demoConfig
              (lit "abc") initState) as [[[text segs lang | reason] | e] st']
    eqn:Hrun.
  - destruct (success_text_tidy recoveringWorld demoConfig (lit "abc")
                initState st' text segs lang Hrun) as (Ht & Hs & Hn & _).
    auto.
  - vm_compute in Hrun. discriminate Hrun.
  - vm_compute in Hrun. discriminate Hrun.
Defined.

Lemma displayed_are_the_most_recent_witness :
  match assembleGroup mixedWorld demoConfig demoSummarize 1 (lit "G")
          demoVideos initState with
  | (Ret d, _) =>
      recentFirst item_publishedAt (items d)
      /\ exists hiddenVideos,
           Permutation (map itemVideo (items d) ++ hiddenVideos)
             (dedupVideos demoVideos)
           /\ (forall i h, In i (items d) -> In h hiddenVideos ->
                 str_lt (item_publishedAt i) (publishedAt h) = false)
           /\ notShownCount d = Z.of_nat (length hiddenVideos)
  | (Throw _, _) => False
  end.
Proof.
  destruct (assembleGroup mixedWorld demoConfig demoSummarize 1 (lit "G")
              demoVideos initState) as [[d | e] st'] eqn:Hrun.
  - exact (displayed_are_the_most_recent mixedWorld demoConfig demoSummarize
             1 (lit "G") demoVideos initState st' d Hrun).
  - vm_compute in Hrun. discriminate Hrun.
Defined.

Lemma displayed_are_distinct_considered_witness :
  match assembleGroup mixedWorld demoConfig demoSummarize 5 (lit "G")
          demoVideos initState with
  | (Ret d, _) =>
      NoDup (map item_videoId (items d))
      /\ forall i, In i (items d) -> In (itemVideo i) (dedupVideos demoVideos)
  | (Throw _, _) => False
  end.
Proof.
  destruct (assembleGroup mixedWorld demoConfig demoSummarize 5 (lit "G")
              demoVideos initState) as [[d | e] st'] eqn:Hrun.
  - exact (displayed_are_distinct_considered mixedWorld demoConfig
             demoSummarize 5 (lit "G") demoVideos initState st' d Hrun).
  - vm_compute in Hrun. discriminate Hrun.
Defined.

Lemma displayed_items_shape_witness :
  match assembleGroup mixedWorld demoConfig demoSummarize 5 (lit "G")
          demoVideos initState with
  | (Ret d, _) =>
      length (items d) = 2%nat
      /\ Forall (fun i => status i = summarized \/ status i = skipped)
           (items d)
  | (Throw _, _) => False
  end.
Proof.
  destruct (assembleGroup mixedWorld demoConfig demoSummarize 5 (lit "G")
              demoVideos initState) as [[d | e] st'] eqn:Hrun.
  - split.
    + vm_compute in Hrun. injection Hrun as <- _. reflexivity.
    + eapply Forall_impl;
        [| exact (displayed_items_shape mixedWorld demoConfig demoSummarize
                    5 (lit "G") demoVideos initState st' d Hrun)].
      intros i [[Hi _] | [Hi _]]; auto.
  - vm_compute in Hrun. discriminate Hrun.
Defined.

Lemma displayed_count_exact_witness :
  match assembleGroup sentinelWorld demoConfig demoSummarize
          (getCapPerSection fractionalCapConfig) (lit "G") threeVideos
          initState with
  | (Ret d, _) =>
      Z.of_nat (length (items d)) = 2 /\ notShownCount d = 1
  | (Throw _, _) => False
  end.
Proof.
  destruct (assembleGroup sentinelWorld demoConfig demoSummarize
              (getCapPerSection fractionalCapConfig) (lit "G") threeVideos
              initState) as [[d | e] st'] eqn:Hrun.
  - destruct (displayed_count_exact sentinelWorld demoConfig demoSummarize
                (getCapPerSection fractionalCapConfig) (lit "G") threeVideos
                initState st' d Hrun) as [Hn Hh].
    rewrite Hh, Hn. split; reflexivity.
  - vm_compute in Hrun. discriminate Hrun.
Defined.

Lemma missing_key_aborts_nonempty_group_witness :
  assembleGroup mixedWorld noKeyConfig demoSummarize 7 (lit "G") demoVideos
    initState
  = (Throw (mkError (lit "Error") (lit "Missing SCRAPINGDOG_API_KEY")),
     initState).
Proof.
  exact (proj1 (missing_key_aborts_nonempty_group mixedWorld noKeyConfig
                  demoSummarize 7 (lit "G") (demoVideo "a" "2024-01-01")
                  [demoVideo "b" "2024-01-03"; demoVideo "a" "2024-01-05"]
                  initState eq_refl)).
Defined.

Lemma resolveChannelId_shape_witness :
  match resolveChannelId feedWorld (ch_url demoChannel) initState with
  | (Ret id, st') =>
      log st' = [EvFetch [] (ch_url demoChannel)]
      /\ exists tail, id = lit "UC" ++ tail /\ (20 <= length tail)%nat
  | (Throw _, _) => False
  end.
Proof.
  destruct (resolveChannelId feedWorld (ch_url demoChannel) initState)
    as [[id | e] st'] eqn:Hrun.
  - destruct (resolveChannelId_shape feedWorld (ch_url demoChannel) initState
                st' id Hrun) as (Hlog & _ & tail & Hid & Hlen & _).
    split; [exact Hlog | now exists tail].
  - vm_compute in Hrun. discriminate Hrun.
Defined.

Lemma fetchLatest_two_requests_witness :
  match fetchLatestVideosFromChannelUrl feedWorld demoFeedConfig
          (ch_url demoChannel) initState with
  | (Ret vids, st') =>
      log st' = [EvFetch [] (ch_url demoChannel);
                 EvFetch []
                   (lit "https://www.youtube.com/feeds/videos.xml?channel_id="
                    ++ demoChannelId)]
      /\ recentFirst fe_publishedAt vids
      /\ Z.of_nat (length vids) <= 3
  | (Throw _, _) => False
  end.
Proof.
  destruct (fetchLatestVideosFromChannelUrl feedWorld demoFeedConfig
              (ch_url demoChannel) initState) as [[vids | e] st'] eqn:Hrun.
  - destruct (fetchLatest_two_requests feedWorld demoFeedConfig
                (ch_url demoChannel) initState st' vids Hrun)
      as ((id & Hid & Hlog & _) & _ & Hsorted & Hlen).
    split; [| split; [exact Hsorted | apply Hlen; vm_compute; discriminate]].
    rewrite Hlog. vm_compute in Hid. injection Hid as <-. reflexivity.
  - vm_compute in Hrun. discriminate Hrun.
Defined.

Lemma failed_channel_is_skipped_witness :
  match fetchLatestVideosFromChannelUrl notFoundWorld demoFeedConfig
          (ch_url demoChannel) initState with
  | (Throw _, st1) =>
      collectVideos notFoundWorld defaultDigestConfig demoFeedConfig
        demoDateParse demoDateNow [demoChannel] [] initState
      = (Ret [], st1)
  | (Ret _, _) => False
  end.
Proof.
  destruct (fetchLatestVideosFromChannelUrl notFoundWorld demoFeedConfig
              (ch_url demoChannel) initState) as [[vids | e] st1] eqn:Hrun.
  - vm_compute in Hrun. discriminate Hrun.
  - rewrite (failed_channel_is_skipped notFoundWorld defaultDigestConfig
               demoFeedConfig demoDateParse demoDateNow demoChannel [] []
               initState st1 e eq_refl Hrun).
    reflexivity.
Defined.

Lemma collected_videos_fresh_and_tagged_witness :
  match collectVideos feedWorld defaultDigestConfig demoFeedConfig
          demoDateParse demoDateNow (pack_channels demoPack) []
          initState with
  | (Ret allVideos, _) =>
      length allVideos = 1%nat
      /\ Forall (fun v => exists ch, In ch (pack_channels demoPack)
                                     /\ isPlaceholder ch = false
                                     /\ channelName v = ch_name ch)
           allVideos
  | (Throw _, _) => False
  end.
Proof.
  destruct (collectVideos feedWorld defaultDigestConfig demoFeedConfig
              demoDateParse demoDateNow (pack_channels demoPack) []
              initState) as [[allVideos | e] st'] eqn:Hrun.
  - split.
    + vm_compute in Hrun. injection Hrun as <- _. reflexivity.
    + eapply Forall_impl;
        [| exact (proj1 (collected_videos_fresh_and_tagged feedWorld
                           defaultDigestConfig demoFeedConfig demoDateParse
                           demoDateNow (pack_channels demoPack) initState st'
                           allVideos Hrun))].
      intros v [Hch _]. exact Hch.
  - vm_compute in Hrun. discriminate Hrun.
Defined.

Lemma summarizer_exceptions_witness :
  exists e st',
    summarizeTranscript openaiWorld demoOpenAIConfig ownToStringParse
      (lit "T") (lit "C") (lit "text") 5 initState = (Throw e, st').
Proof.
  apply (proj1 (summarizer_exceptions openaiWorld demoOpenAIConfig
                  ownToStringParse 115%N (lit "k") (lit "T") (lit "C")
                  (lit "text") 5 initState eq_refl)).
  right. right. exists (okResponse modelAnswer), modelAnswer.
  split; [reflexivity |]. split; [reflexivity |]. split; [reflexivity |].
  split; [vm_compute; discriminate |].
  split; vm_compute; reflexivity.
Defined.

Lemma summarizer_result_wellformed_witness :
  match summarizeTranscript openaiWorld demoOpenAIConfig demoJsonParse
          (lit "T") (lit "C") (lit "text") 5 initState with
  | (Ret s, _) =>
      one_liner s = lit "A talk."
      /\ Z.of_nat (length (key_points s)) <= 5
      /\ Forall (fun p => p <> [] /\ is_trimmed p = true) (key_points s)
  | (Throw _, _) => False
  end.
Proof.
  destruct (summarizeTranscript openaiWorld demoOpenAIConfig demoJsonParse
              (lit "T") (lit "C") (lit "text") 5 initState)
    as [[s | e] st'] eqn:Hrun.
  - destruct (summarizer_result_wellformed openaiWorld demoOpenAIConfig
                demoJsonParse (lit "T") (lit "C") (lit "text") 5 initState
                st' s Hrun) as (_ & _ & Hlen & Hpts).
    split; [| split; [apply Hlen; vm_compute; discriminate | exact Hpts]].
    vm_compute in Hrun. injection Hrun as <- _. reflexivity.
  - vm_compute in Hrun. discriminate Hrun.
Defined.

Lemma summarizer_clips_transcript_witness :
  let '(_, st') :=
    summarizeTranscript openaiWorld demoOpenAIConfig demoJsonParse
      (lit "T") (lit "C") (lit "text") 5 initState in
  fetches st' = 1%nat
  /\ log st' = [EvFetch (lit "sk")
                  (userPrompt (lit "T") (lit "C") (lit "text"))].
Proof.
  destruct (summarizeTranscript openaiWorld demoOpenAIConfig demoJsonParse
              (lit "T") (lit "C") (lit "text") 5 initState)
    as [x st'] eqn:Hrun.
  destruct (summarizer_clips_transcript openaiWorld demoOpenAIConfig
              demoJsonParse 115%N (lit "k") (lit "T") (lit "C") (lit "text")
              5 initState st' x eq_refl Hrun)
    as (clipped & rest & Hsplit & _ & Hrest & Hlog & Hf).
  split; [exact Hf |]. rewrite Hlog.
  rewrite Hrest in Hsplit by (vm_compute; discriminate).
  rewrite app_nil_r in Hsplit. now rewrite <- Hsplit.
Defined.

Lemma safeJsonParse_recovers_object_witness :
  safeJsonParse demoJsonParse (lit "Here: {} done") = demoParsed.
Proof.
  apply (safeJsonParse_recovers_object demoJsonParse (lit "Here: ") []
           (lit " done") syntaxError).
  - intros Hin. simpl in Hin.
    repeat (destruct Hin as [Hin | Hin]; [discriminate Hin |]). exact Hin.
  - intros Hin. simpl in Hin.
    repeat (destruct Hin as [Hin | Hin]; [discriminate Hin |]). exact Hin.
  - reflexivity.
Defined.

Lemma sections_follow_packs_witness :
  match runSections feedWorld demoConfig defaultDigestConfig demoFeedConfig
          demoDateParse demoDateNow demoSummarize [demoPack] initState with
  | (Ret sections, _) => map label sections = [lit "General News"]
  | (Throw _, _) => False
  end.
Proof.
  destruct (runSections feedWorld demoConfig defaultDigestConfig
              demoFeedConfig demoDateParse demoDateNow demoSummarize
              [demoPack] initState) as [[sections | e] st'] eqn:Hrun.
  - exact (proj1 (sections_follow_packs feedWorld demoConfig
                    defaultDigestConfig demoFeedConfig demoDateParse
                    demoDateNow demoSummarize [demoPack] initState st'
                    sections Hrun)).
  - vm_compute in Hrun. discriminate Hrun.
Defined.

Lemma run_completes_witness :
  exists sections st',
    runSections feedWorld demoConfig defaultDigestConfig demoFeedConfig
      demoDateParse demoDateNow demoSummarize [demoPack] initState
    = (Ret sections, st').
Proof.
  apply (run_completes feedWorld demoConfig defaultDigestConfig
           demoFeedConfig demoDateParse demoDateNow demoSummarize 107%N []
           [demoPack] initState eq_refl).
  intros a b t n st0.
  exists (summaryOf (JNull : JsVal Z) n), st0. reflexivity.
Defined.

Lemma summarizer_failure_aborts_round_witness :
  exists st1 text,
    assembleGroup summarizerDownWorld demoConfig
      (summarizeTranscript summarizerDownWorld demoOpenAIConfig
         demoJsonParse)
      7 (lit "G") [demoVideo "a" "2024-01-01"] initState
    = (Throw fetchFailed,
       after_fetch st1 (lit "sk")
         (userPrompt (title (demoVideo "a" "2024-01-01"))
            (channelName (demoVideo "a" "2024-01-01"))
            (slice0 18000 text))).
Proof.
  exists (after_fetch initState (lit "k") (lit "a")).
  destruct (fetchTranscriptFromScrapingDog summarizerDownWorld demoConfig
              (lit "a") initState)
    as [[[text segs lang | reason] | e] st1] eqn:Hrun;
    try (vm_compute in Hrun; discriminate Hrun).
  exists text.
  assert (Hst : st1 = after_fetch initState (lit "k") (lit "a")).
  { vm_compute in Hrun. injection Hrun as _ _ _ <-. reflexivity. }
  subst st1.
  exact (summarizer_failure_aborts_round summarizerDownWorld demoConfig
           demoOpenAIConfig demoJsonParse 115%N (lit "k") 7 (lit "G")
           [demoVideo "a" "2024-01-01"] [] (demoVideo "a" "2024-01-01")
           initState (after_fetch initState (lit "k") (lit "a")) text segs
           lang fetchFailed eq_refl eq_refl Hrun eq_refl).
Defined.

Lemma formatReason_on_digest_reasons_witness :
  formatReason (map ascii_lower) (Some (skipReason (lit "no_transcript")))
  = lit "No transcript/captions available on YouTube.".
Proof.
  exact (formatReason_on_digest_reasons (map ascii_lower)
           (lit "no_transcript") (fun s _ => eq_refl)).
Defined.
